(** * qsearch: request building, range chunking, linking and aggregation

    A shallow embedding of the GeoNet qsearch catalogue clients
    (packages [wfs], [quakeml12] and [seiscompml07]) together with the
    properties of their request builder, range chunker, entity linker,
    fetch workers and result aggregators. *)

From Stdlib Require Import ZArith String Ascii List Lia Floats Uint63.
From stdpp Require Import base option list gmap strings pretty sorting.

Local Open Scope string_scope.
Local Open Scope Z_scope.
Local Open Scope list_scope.

(** ** Outcomes of Go code

    A Go function either returns its results or the goroutine panics
    (here always a nil pointer dereference), which ends the process. *)
Inductive outcome (A : Type) : Type :=
  | Returns (a : A)
  | Panics.
Arguments Returns {A} a.
Arguments Panics {A}.

#[global] Instance outcome_ret : MRet outcome := fun _ a => Returns a.
#[global] Instance outcome_bind : MBind outcome := fun _ _ k x =>
  match x with
  | Returns a => k a
  | Panics => Panics
  end.

(** Go's [error] values are compared by their message only. *)
Definition error := string.

(** ** time.Time

    An instant is kept, as in Go, as seconds and nanoseconds since the
    Unix epoch together with a location. A location here is UTC or a
    fixed offset, which is what [time.Parse(time.RFC3339, _)] yields
    for [Z] and for an offset that is not the one of the machine's
    local zone at that instant. The machine's local zone, whose offset
    changes with daylight saving, is not modelled. *)
Module GoTime.

Record Time : Type := mkTime {
  unixSec : Z;      (* seconds since 1970-01-01T00:00:00Z *)
  nsec : Z;         (* nanoseconds within the second, 0 <= nsec < 1e9 *)
  zoneOffset : Z    (* seconds east of UTC of the location *)
}.

(** Civil date of a day number counted from 1970-01-01, in the
    proleptic Gregorian calendar. *)
Definition civil_from_days (z : Z) : Z * Z * Z :=
  let z := z + 719468 in
  let era := z / 146097 in
  let doe := z - era * 146097 in
  let yoe := (doe - doe / 1460 + doe / 36524 - doe / 146096) / 365 in
  let doy := doe - (365 * yoe + yoe / 4 - yoe / 100) in
  let mp := (5 * doy + 2) / 153 in
  let d := doy - (153 * mp + 2) / 5 + 1 in
  let m := if mp <? 10 then mp + 3 else mp - 9 in
  let y := yoe + era * 400 in
  (if m <=? 2 then y + 1 else y, m, d).

(** Day number of a civil date; a day beyond the end of the month runs
    over into the following month, as [time.Date] normalises it. *)
Definition days_from_civil (y m d : Z) : Z :=
  let y := if m <=? 2 then y - 1 else y in
  let era := y / 400 in
  let yoe := y - era * 400 in
  let mp := if m <=? 2 then m + 9 else m - 3 in
  let doy := (153 * mp + 2) / 5 + d - 1 in
  let doe := yoe * 365 + yoe / 4 - yoe / 100 + doy in
  era * 146097 + doe - 719468.

(** Seconds since the epoch of the wall clock shown in the location. *)
Definition abs (t : Time) : Z := unixSec t + zoneOffset t.

Definition Date_of (t : Time) : Z * Z * Z := civil_from_days (abs t / 86400).
Definition Year (t : Time) : Z := fst (fst (Date_of t)).
Definition Month (t : Time) : Z := snd (fst (Date_of t)).
Definition Day (t : Time) : Z := snd (Date_of t).
Definition Hour (t : Time) : Z := (abs t mod 86400) / 3600.
Definition Minute (t : Time) : Z := (abs t mod 3600) / 60.
Definition Second (t : Time) : Z := abs t mod 60.

(** [time.Date(year, month, day, hour, min, sec, nsec, loc)] for a
    fixed-offset location and in-range clock fields; the month is
    normalised into 1..12 first. *)
Definition Date (year month day hour min sec ns off : Z) : Time :=
  let m := month - 1 in
  let year := year + m / 12 in
  let m := m mod 12 in
  let days := days_from_civil year (m + 1) day in
  mkTime (days * 86400 + hour * 3600 + min * 60 + sec - off) ns off.

(** [t.AddDate(years, months, days)], for a time in UTC or at a fixed
    offset: the offset of the result is that of [t]. *)
Definition AddDate (t : Time) (years months days : Z) : Time :=
  Date (Year t + years) (Month t + months) (Day t + days)
       (Hour t) (Minute t) (Second t) (nsec t) (zoneOffset t).

(** [t.After(u)]: instants are compared, locations are not. *)
Definition After (t u : Time) : bool :=
  (unixSec u <? unixSec t) || ((unixSec u =? unixSec t) && (nsec u <? nsec t)).

(** [appendInt]: decimal digits, zero padded on the left to [width],
    with a leading minus sign for a negative number. *)
Definition zero_pad (width : nat) (s : string) : string :=
  String.concat "" (repeat "0" (width - String.length s)) +:+ s.

Definition appendInt (x : Z) (width : nat) : string :=
  if x <? 0 then "-" +:+ zero_pad width (pretty (- x))
  else zero_pad width (pretty x).

(** [formatNano] with nine digits and trimming: the fraction of the
    second without its trailing zeros, nothing when it is zero. *)
Fixpoint trim_zeros (fuel : nat) (n : Z) (digits : nat) : Z * nat :=
  match fuel with
  | O => (n, digits)
  | S fuel =>
      if (0 <? Z.of_nat digits) && (n mod 10 =? 0)
      then trim_zeros fuel (n / 10) (digits - 1)
      else (n, digits)
  end.

Definition formatNano (ns : Z) : string :=
  let '(n, digits) := trim_zeros 9 ns 9 in
  match digits with
  | O => ""
  | _ => "." +:+ zero_pad digits (pretty n)
  end.

(** The zone designator of ISO 8601 with a colon. *)
Definition formatZone (offset : Z) : string :=
  if offset =? 0 then "Z"
  else
    let zone := Z.quot offset 60 in
    (if zone <? 0 then "-" else "+")
      +:+ appendInt (Z.quot (Z.abs zone) 60) 2 +:+ ":"
      +:+ appendInt (Z.rem (Z.abs zone) 60) 2.

(** The layout elements of [Time.Format] that the clients use. *)
Inductive chunk : Type :=
  | stdLongYear        (* "2006" *)
  | stdZeroMonth       (* "01" *)
  | stdZeroDay         (* "02" *)
  | stdHour            (* "15" *)
  | stdZeroMinute      (* "04" *)
  | stdZeroSecond      (* "05" *)
  | stdFracSecond9     (* ".999999999" *)
  | stdISO8601ColonTZ  (* "Z07:00" *)
  | literal (c : ascii).

Definition std_chunks : list (string * chunk) :=
  [ ("2006", stdLongYear); ("01", stdZeroMonth); ("02", stdZeroDay);
    ("15", stdHour); ("04", stdZeroMinute); ("05", stdZeroSecond);
    (".999999999", stdFracSecond9); ("Z07:00", stdISO8601ColonTZ) ].

Fixpoint strip_prefix (p s : string) : option string :=
  match p with
  | EmptyString => Some s
  | String c p =>
      match s with
      | String d s => if Ascii.eqb c d then strip_prefix p s else None
      | EmptyString => None
      end
  end.

Fixpoint first_chunk (table : list (string * chunk)) (layout : string)
  : option (chunk * string) :=
  match table with
  | [] => None
  | (p, c) :: table =>
      match strip_prefix p layout with
      | Some rest => Some (c, rest)
      | None => first_chunk table layout
      end
  end.

(** [nextStdChunk] restricted to those elements: the layout is read
    left to right, a recognised reference value is an element, any
    other byte stands for itself. *)
Fixpoint parse_layout (fuel : nat) (layout : string) : list chunk :=
  match fuel with
  | O => []
  | S fuel =>
      match first_chunk std_chunks layout with
      | Some (c, rest) => c :: parse_layout fuel rest
      | None =>
          match layout with
          | EmptyString => []
          | String c rest => literal c :: parse_layout fuel rest
          end
      end
  end.

Definition format_chunk (t : Time) (c : chunk) : string :=
  match c with
  | stdLongYear => appendInt (Year t) 4
  | stdZeroMonth => appendInt (Month t) 2
  | stdZeroDay => appendInt (Day t) 2
  | stdHour => appendInt (Hour t) 2
  | stdZeroMinute => appendInt (Minute t) 2
  | stdZeroSecond => appendInt (Second t) 2
  | stdFracSecond9 => formatNano (nsec t)
  | stdISO8601ColonTZ => formatZone (zoneOffset t)
  | literal c => String c EmptyString
  end.

(** [t.Format(layout)]. *)
Definition Format (t : Time) (layout : string) : string :=
  String.concat "" (map (format_chunk t) (parse_layout (String.length layout) layout)).

Definition RFC3339Nano : string := "2006-01-02T15:04:05.999999999Z07:00".

(** [time.Duration]: nanoseconds in an int64. [t.Sub(u)] saturates. *)
Definition minDuration : Z := - 2 ^ 63.
Definition maxDuration : Z := 2 ^ 63 - 1.

Definition Sub (t u : Time) : Z :=
  let d := (unixSec t - unixSec u) * 1000000000 + (nsec t - nsec u) in
  if d <? minDuration then minDuration
  else if maxDuration <? d then maxDuration
  else d.

(** The conversion [float64(n)] of an int64. *)
Definition float64_of_int (n : Z) : float :=
  if n <? 0 then PrimFloat.opp (PrimFloat.of_uint63 (Uint63.of_Z (- n)))
  else PrimFloat.of_uint63 (Uint63.of_Z n).

(** [d.Seconds()]. *)
Definition Seconds (d : Z) : float :=
  let sec := Z.quot d 1000000000 in
  let ns := Z.rem d 1000000000 in
  PrimFloat.add (float64_of_int sec)
                (PrimFloat.div (float64_of_int ns) 0x1.dcd65p+29%float).

End GoTime.

(** ** Collaborators outside the repository *)

(** [fmt.Sprintf] on a float64, for the verbs ["%v"] and ["%f"]. *)
Class Fmt : Type := {
  Sprintf_v_float64 : float -> string;
  Sprintf_f_float64 : float -> string
}.

(** [fmt.Sprintf("%v", n)] and [fmt.Sprintf("%d", n)] on an int: the
    decimal digits, with a minus sign for a negative number. *)
Definition Sprintf_v_int (n : Z) : string := pretty n.

(** [net/http]: what [client.Get] hands back. *)
Module Http.

Record Response : Type := mkResponse {
  StatusCode : Z;
  (* the bytes and the error that [ioutil.ReadAll(r.Body)] returns *)
  Body : string * option error
}.

(** On success the response is never nil. On failure it is nil for
    a transport failure; it is non-nil only when the redirect policy
    stopped the request. *)
Inductive reply : Type :=
  | Ok (r : Response)
  | Fail (r : option Response) (err : error).

Class Client : Type := { Get : string -> reply }.

(** [http.Client{}] is built without a timeout, so a request need not
    complete: [never_completes url] tells whether [client.Get(url)],
    or the reading of the body of its response, goes on for ever. The
    reply of [Get] is read for the other urls only. *)
Class Stalls : Type := { never_completes : string -> bool }.

End Http.

(** ** The fetch pipeline shared by the three clients

    One producer hands the targets, in order, to [numDownloaders]
    workers over an unbuffered channel; a worker that has taken a target
    runs [work] on it and then blocks in its [select] until the
    aggregator receives the result from the channel [c]. The aggregator
    folds each received result into its accumulator with [consume],
    which may also make the enclosing function return at once; when the
    channel is closed the function returns [finish] of the accumulator.
    A panic in a worker ends the process. Every request completes in
    the runs of this section; the runs in which a request goes on for
    ever are those of the section after it. *)
Section Pipeline.

Context {T R A Out : Type}.
Variable numDownloaders : nat.
Variable work : T -> outcome (R * list string).
Variable consume : A -> R -> (A + Out) * list string.
Variable finish : A -> Out.

Inductive state : Type :=
  | Running (source : list T) (held : list R) (acc : A) (log : list string)
  | Returned (out : Out) (log : list string)
  | Crashed.

(** A step is labelled with the result the aggregator received, if
    the step is a receive on [c]. *)
Inductive step : state -> option R -> state -> Prop :=
  | step_work t source held acc log r lines :
      (length held < numDownloaders)%nat ->
      work t = Returns (r, lines) ->
      step (Running (t :: source) held acc log) None
           (Running source (held ++ [r]) acc (log ++ lines))
  | step_panic t source held acc log :
      (length held < numDownloaders)%nat ->
      work t = Panics ->
      step (Running (t :: source) held acc log) None Crashed
  | step_merge source h1 r h2 acc log acc' lines :
      consume acc r = (inl acc', lines) ->
      step (Running source (h1 ++ r :: h2) acc log) (Some r)
           (Running source (h1 ++ h2) acc' (log ++ lines))
  | step_abort source h1 r h2 acc log out lines :
      consume acc r = (inr out, lines) ->
      step (Running source (h1 ++ r :: h2) acc log) (Some r)
           (Returned out (log ++ lines))
  | step_close acc log :
      step (Running [] [] acc log) None (Returned (finish acc) log).

(** [run s rs s']: the pipeline gets from [s] to [s'] while the
    aggregator receives exactly the results [rs], in that order. *)
Inductive run : state -> list R -> state -> Prop :=
  | run_nil s : run s [] s
  | run_step s l s' rs s'' :
      run s rs s' -> step s' l s'' ->
      run s (rs ++ from_option (fun r => [r]) [] l) s''.

Definition start (targets : list T) (acc : A) : state :=
  Running targets [] acc [].

(** The worker returns [r] for the target [t]. *)
Definition produces (t : T) (r : R) : Prop :=
  exists lines, work t = Returns (r, lines).

(** The accumulator after the aggregator has folded in [rs], one after
    the other, without returning early. *)
Definition merged (acc : A) (rs : list R) : A :=
  foldl (fun acc r => match fst (consume acc r) with inl acc' => acc' | inr _ => acc end)
        acc rs.

(** What is left to do: two steps for each target not yet taken (the
    work and the receive), one for each result held, and the close. *)
Definition weight (s : state) : nat :=
  match s with
  | Running source held _ _ => 2 * length source + length held + 1
  | _ => 0
  end.

(** What a run has done when it has received [rs]: the targets taken
    so far have produced the results received or still held, in some
    order, and the accumulator has merged the results received; the
    function has returned either at the close of the channel, with
    every target worked and every result merged, or early on the last
    result received. *)
Definition pipeline_inv (targets : list T) (acc0 : A) (rs : list R) (s : state) : Prop :=
  match s with
  | Running source held acc _ =>
      exists taken results,
        targets = taken ++ source
        /\ Forall2 produces taken results
        /\ results ≡ₚ rs ++ held
        /\ acc = merged acc0 rs
  | Returned out _ =>
      (exists results,
         Forall2 produces targets results
         /\ results ≡ₚ rs
         /\ out = finish (merged acc0 rs))
      \/ (exists pre r lines,
            rs = pre ++ [r] /\ consume (merged acc0 pre) r = (inr out, lines))
  | Crashed => exists t, t ∈ targets /\ work t = Panics
  end.

(** What a run of a pipeline whose aggregator never returns early has
    done when it has received [rs]: the targets taken so far have
    produced the results received or still held, in some order. *)
Definition tolerant_inv (targets : list T) (acc0 : A) (rs : list R) (s : state) : Prop :=
  match s with
  | Running source held acc _ =>
      exists taken results,
        targets = taken ++ source
        /\ Forall2 produces taken results
        /\ results ≡ₚ rs ++ held
        /\ acc = merged acc0 rs
  | Returned out _ =>
      exists results,
        Forall2 produces targets results
        /\ results ≡ₚ rs
        /\ out = finish (merged acc0 rs)
  | Crashed => exists t, t ∈ targets /\ work t = Panics
  end.

End Pipeline.

Arguments state : clear implicits.
Arguments Running {T R A Out} source held acc log.
Arguments Returned {T R A Out} out log.
Arguments Crashed {T R A Out}.

(** ** The pipeline when a request may never complete

    A worker whose request never completes stays in [client.Get]: it
    has taken its target, it offers nothing, and it never gets to
    [wg.Done], so that [c] is not closed. The state is the state of the
    pipeline together with the number of workers that are stuck. The
    steps of the pipeline above are the steps here when no target
    hangs and no worker is stuck. *)
Section Stalls.

Context {T R A Out : Type}.
Variable numDownloaders : nat.
Variable hangs : T -> bool.
Variable work : T -> outcome (R * list string).
Variable consume : A -> R -> (A + Out) * list string.
Variable finish : A -> Out.

Inductive stall_step
  : state T R A Out * nat -> option R -> state T R A Out * nat -> Prop :=
  | stall_work t source held acc log k r lines :
      hangs t = false ->
      (length held + k < numDownloaders)%nat ->
      work t = Returns (r, lines) ->
      stall_step (Running (t :: source) held acc log, k) None
                 (Running source (held ++ [r]) acc (log ++ lines), k)
  | stall_panic t source held acc log k :
      hangs t = false ->
      (length held + k < numDownloaders)%nat ->
      work t = Panics ->
      stall_step (Running (t :: source) held acc log, k) None (Crashed, k)
  | stall_hang t source held acc log k :
      hangs t = true ->
      (length held + k < numDownloaders)%nat ->
      stall_step (Running (t :: source) held acc log, k) None
                 (Running source held acc log, S k)
  | stall_merge source h1 r h2 acc log k acc' lines :
      consume acc r = (inl acc', lines) ->
      stall_step (Running source (h1 ++ r :: h2) acc log, k) (Some r)
                 (Running source (h1 ++ h2) acc' (log ++ lines), k)
  | stall_abort source h1 r h2 acc log k out lines :
      consume acc r = (inr out, lines) ->
      stall_step (Running source (h1 ++ r :: h2) acc log, k) (Some r)
                 (Returned out (log ++ lines), k)
  | stall_close acc log :
      stall_step (Running [] [] acc log, 0%nat) None
                 (Returned (finish acc) log, 0%nat).

Inductive stall_run
  : state T R A Out * nat -> list R -> state T R A Out * nat -> Prop :=
  | stall_run_nil s : stall_run s [] s
  | stall_run_step s l s' rs s'' :
      stall_run s rs s' -> stall_step s' l s'' ->
      stall_run s (rs ++ from_option (fun r => [r]) [] l) s''.

(** What a run has done: the workers that are stuck are as many as
    the targets taken so far whose request never completes; the
    function has returned at the close of the channel, with no worker
    stuck and every target taken, or early on a result; a crash is the
    panic of a worker on a target whose request completes. *)
Definition stall_inv (targets : list T) (s : state T R A Out * nat) : Prop :=
  match s.1 with
  | Running source _ _ _ =>
      exists taken,
        targets = taken ++ source
        /\ s.2 = length (filter (fun t => hangs t = true) taken)
  | Returned out _ =>
      (Forall (fun t => hangs t = false) targets /\ exists acc, out = finish acc)
      \/ (exists acc r lines, consume acc r = (inr out, lines))
  | Crashed => exists t, t ∈ targets /\ hangs t = false /\ work t = Panics
  end.

End Stalls.

(** ** Package wfs *)
Module Wfs.
Import GoTime.

Definition wfsUrl : string :=
  "http://wfs.geonet.org.nz/geonet/ows?service=WFS&version=1.0.0&request=GetFeature&typeName=geonet:quake_search_v1&outputFormat=json".

Record Query : Type := mkQuery {
  EventID : string;
  Start : Time;
  End_ : Time;
  MinUsedPhaseCount : Z;
  MinMagnitude : float;
  Bbox : string
}.

Record Properties : Type := mkProperties {
  PublicID : string;
  EventType : string;
  OriginTime : string;
  ModificationTime : string;
  Latitude : float;
  Longitude : float;
  Depth : float;
  Magnitude : float;
  EvaluationMethod : string;
  EvaluationStatus : string;
  EvaluationMode : string;
  EarthModel : string;
  DepthType : string;
  OriginError : float;
  UsedPhaseCount : Z;
  UsedStationCount : Z;
  MinimumDistance : float;
  AzimuthalGap : float;
  MagnitudeType : string;
  MagnitudeUncertainty : float;
  MagnitudeStationCount : Z
}.

Record Feature : Type := mkFeature { properties : Properties }.

Record Features : Type := mkFeatures { features_of : list Feature }.

(** [encoding/json]: decoding into a zero [Features]. *)
Class Json : Type := { json_Unmarshal : string -> Features * option error }.

(** [EventFormat]: the keys of the maps that [Get] returns. *)
Definition EventFormat : gmap string string :=
  <["MagnitudeStationCount" := "todo"]> (
  <["MagnitudeUncertainty" := "todo"]> (
  <["MagnitudeType" := "todo"]> (
  <["AzimuthalGap" := "todo"]> (
  <["MinimumDistance" := "todo"]> (
  <["UsedStationCount" := "todo"]> (
  <["UsedPhaseCount" := "todo"]> (
  <["OriginError" := "todo"]> (
  <["DepthType" := "todo"]> (
  <["EarthModel" := "todo"]> (
  <["EvaluationMode" := "todo"]> (
  <["EvaluationStatus" := "todo"]> (
  <["EvaluationMethod" := "todo"]> (
  <["Magnitude" := "todo"]> (
  <["Depth" := "todo"]> (
  <["Longitude" := "todo"]> (
  <["Latitude" := "todo"]> (
  <["ModificationTime" := "todo"]> (
  <["OriginTime" := "todo"]> (
  <["EventType" := "todo"]> (
  <["EventID" := "todo"]> ∅)))))))))))))))))))).

(** The float64 constant [-999.9]. *)
Definition float_minus_999_9 : float := (-0x1.f3f3333333333p+9)%float.

Section Client.
Context {fmt : Fmt} {json : Json} {client : Http.Client}.

Definition unmarshal (b : string) : list Feature * option error :=
  let '(f, err) := json_Unmarshal b in (features_of f, err).

(** [Query.url]: the WFS search URL of the query. *)
Definition url (q : Query) : string :=
  let s :=
    if decide (EventID q ≠ "") then
      "&cql_filter=publicid=='" +:+ EventID q +:+ "'"
    else
      let s := "&cql_filter=origintime>='"
               +:+ Format (Start q) "2006-01-02T15:04:05"
               +:+ "'+AND+origintime<='"
               +:+ Format (End_ q) "2006-01-02T15:04:05" +:+ "'" in
      let s := if decide (MinUsedPhaseCount q ≠ -999)
               then s +:+ "+AND+usedphasecount>=" +:+ Sprintf_v_int (MinUsedPhaseCount q)
               else s in
      let s := if negb (PrimFloat.eqb (MinMagnitude q) float_minus_999_9)
               then s +:+ "+AND+magnitude>=" +:+ Sprintf_v_float64 (MinMagnitude q)
               else s in
      let s := if decide (Bbox q ≠ "")
               then s +:+ "+AND+BBOX(origin_geom," +:+ Bbox q +:+ ")"
               else s in
      s in
  wfsUrl +:+ s.

(** [result]: what a worker passes down the pipeline. *)
Record result : Type := mkResult {
  features : list Feature;
  err : option error
}.

(** The body of the [fetcher] loop for one URL, up to its [select]:
    the result offered on [c] and the line it logs. *)
Definition fetcher (url : string) : outcome (result * list string) :=
  match Http.Get url with
  | Http.Ok r =>
      let '(b, err) := Http.Body r in
      let err :=
        match err with
        | None =>
            if decide (Http.StatusCode r ≠ 200)
            then Some ("Non 200 response code: " +:+ Sprintf_v_int (Http.StatusCode r))
            else None
        | Some e => Some e
        end in
      match err with
      | None => let '(fs, err) := unmarshal b in Returns (mkResult fs err, [url])
      | Some e => Returns (mkResult [] (Some e), [url])
      end
  | Http.Fail _ e => Returns (mkResult [] (Some e), [url])
  end.

(** The goroutine of [writeUrls]: [q] is the query behind the
    receiver pointer, [a] the goroutine's copy of it, [sent] the
    values of [a] whose URL has been offered on [urls]. *)
Record chunker : Type := mkChunker {
  q_ : Query;
  a_ : Query;
  sent : list Query
}.

Definition set_Start (a : Query) (t : Time) : Query :=
  mkQuery (EventID a) t (End_ a) (MinUsedPhaseCount a) (MinMagnitude a) (Bbox a).
Definition set_End (a : Query) (t : Time) : Query :=
  mkQuery (EventID a) (Start a) t (MinUsedPhaseCount a) (MinMagnitude a) (Bbox a).

(** [urls <- a.url()] *)
Definition emit (c : chunker) : chunker :=
  mkChunker (q_ c) (a_ c) (sent c ++ [a_ c]).

(** One turn of the year loop. *)
Definition year_turn (c : chunker) : chunker :=
  let c := mkChunker (q_ c) (set_End (a_ c) (AddDate (End_ (a_ c)) 1 0 0)) (sent c) in
  let c := emit c in
  mkChunker (q_ c) (set_Start (a_ c) (AddDate (Start (a_ c)) 1 0 0)) (sent c).

Definition years (q : Query) : Z := Year (End_ q) - Year (Start q).

Definition writeUrls_run (q : Query) : chunker :=
  let c := mkChunker q q [] in
  let c :=
    if 0 <? years (q_ c) then
      let c := mkChunker (q_ c) (set_End (a_ c) (Start (a_ c))) (sent c) in
      Nat.iter (Z.to_nat (years (q_ c))) year_turn c
    else c in
  let c := mkChunker (q_ c) (set_End (a_ c) (End_ (q_ c))) (sent c) in
  emit c.

(** The sub-queries and the URLs the chunker offers, in order, when
    it is not cancelled. *)
Definition chunks (q : Query) : list Query := sent (writeUrls_run q).
Definition writeUrls (q : Query) : list string := map url (chunks q).

(** The aggregating loop of [search]: the map so far and the
    running count of quakes. *)
Definition search_consume (acc : gmap string Feature * Z) (r : result)
  : (gmap string Feature * Z + option (gmap string Feature) * option error) * list string :=
  match err r with
  | Some e => (inr (None, Some e), [])
  | None =>
      let quakes := snd acc + Z.of_nat (length (features r)) in
      let res := foldl (fun res feature => <[PublicID (properties feature) := feature]> res)
                       (fst acc) (features r) in
      (inl (res, quakes), ["Downloaded " +:+ Sprintf_v_int quakes +:+ " quakes"])
  end.

Definition search_finish (acc : gmap string Feature * Z)
  : option (gmap string Feature) * option error :=
  (Some (fst acc), None).

Definition numDownloaders : nat := 10.

(** [search] as a pipeline: its states and steps. *)
Definition search_start (q : Query)
  : state string result (gmap string Feature * Z)
          (option (gmap string Feature) * option error) :=
  start (writeUrls q) (∅, 0).

Definition search_run := run numDownloaders fetcher search_consume search_finish.

(** One row of [Get]. *)
Definition event_row (p : string) (ft : Feature) : gmap string string :=
  let ps := properties ft in
  <["MagnitudeStationCount" := Sprintf_v_int (MagnitudeStationCount ps)]> (
  <["MagnitudeUncertainty" := Sprintf_v_float64 (MagnitudeUncertainty ps)]> (
  <["MagnitudeType" := MagnitudeType ps]> (
  <["AzimuthalGap" := Sprintf_v_float64 (AzimuthalGap ps)]> (
  <["MinimumDistance" := Sprintf_v_float64 (MinimumDistance ps)]> (
  <["UsedStationCount" := Sprintf_v_int (UsedStationCount ps)]> (
  <["UsedPhaseCount" := Sprintf_v_int (UsedPhaseCount ps)]> (
  <["OriginError" := Sprintf_v_float64 (OriginError ps)]> (
  <["DepthType" := DepthType ps]> (
  <["EarthModel" := EarthModel ps]> (
  <["EvaluationMode" := EvaluationMode ps]> (
  <["EvaluationStatus" := EvaluationStatus ps]> (
  <["EvaluationMethod" := EvaluationMethod ps]> (
  <["Magnitude" := Sprintf_v_float64 (Magnitude ps)]> (
  <["Depth" := Sprintf_f_float64 (Depth ps)]> (
  <["Longitude" := Sprintf_v_float64 (Longitude ps)]> (
  <["Latitude" := Sprintf_v_float64 (Latitude ps)]> (
  <["ModificationTime" := ModificationTime ps]> (
  <["OriginTime" := OriginTime ps]> (
  <["EventType" := EventType ps]> (
  <["EventID" := p]> ∅)))))))))))))))))))).

(** [Query.Get] after [search] has returned; the rows come in the
    order in which the map is walked. *)
Definition Get_of (out : option (gmap string Feature) * option error)
  : option (list (gmap string string)) * option error :=
  match snd out with
  | Some e => (None, Some e)
  | None =>
      (Some (map (fun '(p, ft) => event_row p ft)
                 (map_to_list (default ∅ (fst out)))), None)
  end.

End Client.

(** [search] when a request may never complete. *)
Section Stalled.
Context {fmt : Fmt} {json : Json} {client : Http.Client} {stalls : Http.Stalls}.

Definition search_stall_step :=
  stall_step numDownloaders Http.never_completes fetcher search_consume search_finish.
Definition search_stall_run :=
  stall_run numDownloaders Http.never_completes fetcher search_consume search_finish.

End Stalled.

End Wfs.

(** ** Maps from identifiers to entities

    Both XML clients build their maps with the loop
    [for i, x := range l { m[key(x)] = &l[i] }]: a later element
    replaces an earlier one with the same key. *)

(** The map to the pointers [&l[i]], each modelled by its index. *)
Definition index_by {A} (key : A -> string) (l : list A) : gmap string nat :=
  foldl (fun m ix => <[key (snd ix) := fst ix]> m) ∅ (imap pair l).

(** The same map for pointers that are modelled by the value they
    point to. *)
Definition value_by {A} (key : A -> string) (l : list A) : gmap string A :=
  foldl (fun m x => <[key x := x]> m) ∅ l.

(** ** Package quakeml12

    Pointers. A [*Pick] and a [*Magnitude] are modelled by the value
    they point to ([None] for nil): no pick or magnitude is written
    after decoding. A [*Origin] points into the slice [O] of the event
    and is written through when the arrivals are linked, so it is
    modelled by its index into [O]. A nil map reads as the empty map. *)
Module Quakeml12.
Import GoTime.

Definition quakeMLUrl : string := "http://quakeml.geonet.org.nz/quakeml/1.2/".

Record WaveformID : Type := mkWaveformID {
  NetworkCode : string;
  StationCode : string;
  LocationCode : string;
  ChannelCode : string
}.

Record TimeValue : Type := mkTimeValue {
  Value : Time;
  Uncertainty : float
}.

Record Mag : Type := mkMag {
  MagValue : float;
  MagUncertainty : float
}.

Record Magnitude : Type := mkMagnitude {
  MagnitudePublicID : string;
  Mag_ : Mag;
  Type_ : string;
  MethodID : string;
  StationCount : Z
}.

Record Pick : Type := mkPick {
  PickPublicID : string;
  PickTime : TimeValue;
  WaveformID_ : WaveformID;
  PhaseHint : string;
  EvaluationMode : string;
  EvaluationStatus : string
}.

Record Arrival : Type := mkArrival {
  PickID : string;
  Phase : string;
  Azimuth : float;
  Distance : float;
  TimeResidual : float;
  TimeWeight : float;
  Pick_ : option Pick
}.

Record Origin : Type := mkOrigin {
  OriginPublicID : string;
  OriginTime : TimeValue;
  Arrivals : list Arrival
}.

Record Event : Type := mkEvent {
  PreferredOriginID : string;
  PreferredMagnitudeID : string;
  O : list Origin;
  M : list Magnitude;
  P : list Pick;
  Origins : gmap string nat;
  Picks : gmap string Pick;
  Magnitudes : gmap string Magnitude;
  PreferredOrigin : option nat;
  PreferredMagnitude : option Magnitude
}.

Record EventParameters : Type := mkEventParameters { Event_ : Event }.

Record Quakeml : Type := mkQuakeml { EventParameters_ : EventParameters }.

Definition zeroEvent : Event := mkEvent "" "" [] [] [] ∅ ∅ ∅ None None.

(** [encoding/xml]: decoding into a zero [Quakeml]. *)
Class Xml : Type := { xml_Unmarshal : string -> Quakeml * option error }.

Definition set_Pick (a : Arrival) (p : option Pick) : Arrival :=
  mkArrival (PickID a) (Phase a) (Azimuth a) (Distance a)
            (TimeResidual a) (TimeWeight a) p.

Definition set_Arrivals (o : Origin) (l : list Arrival) : Origin :=
  mkOrigin (OriginPublicID o) (OriginTime o) l.

(** [PickFormat] and [ArrivalFormat]: the keys of the maps that
    [PickMap] and [ArrivalMap] return, and [EventID]. *)
Definition PickFormat : gmap string string :=
  <["PhaseTime" := "e.g., TODO"]> (
  <["PhaseHint" := "e.g., P"]> (
  <["LocationCode" := "e.g., 10"]> (
  <["ChannelCode" := "e.g., HHZ"]> (
  <["StationCode" := "e.g., SNZO"]> (
  <["NetworkCode" := "e.g., NZ"]> (
  <["EventID" :=
      "e.g., 2014p072856.  This is the equivalent of the publicID attribute of Event."]>
    ∅)))))).

Definition ArrivalFormat : gmap string string :=
  <["TimeWeight" := "e.g., TODO"]> (
  <["TimeResidual" := "e.g., TODO"]> (
  <["PhaseOriginOffset" := "e.g., PhaseTime - OriginTime (s)"]> (
  <["PhaseTime" := "e.g., TODO"]> (
  <["Phase" := "e.g., P"]> (
  <["LocationCode" := "e.g., 10"]> (
  <["ChannelCode" := "e.g., HHZ"]> (
  <["StationCode" := "e.g., SNZO"]> (
  <["NetworkCode" := "e.g., NZ"]> (
  <["EventID" :=
      "e.g., 2014p072856.  This is the equivalent of the publicID attribute of Event."]>
    ∅))))))))).

Section Client.
Context {fmt : Fmt} {xml : Xml} {client : Http.Client}.

(** One row of [PickMap]. *)
Definition pick_row (p : Pick) : gmap string string :=
  <["PhaseTime" := Format (Value (PickTime p)) RFC3339Nano]> (
  <["PhaseHint" := PhaseHint p]> (
  <["LocationCode" := LocationCode (WaveformID_ p)]> (
  <["ChannelCode" := ChannelCode (WaveformID_ p)]> (
  <["StationCode" := StationCode (WaveformID_ p)]> (
  <["NetworkCode" := NetworkCode (WaveformID_ p)]> ∅))))).

(** [Event.PickMap]; the rows come in the order in which the map
    is walked. *)
Definition PickMap (e : Event) : list (gmap string string) :=
  map (fun kp => pick_row (snd kp)) (map_to_list (Picks e)).

(** One turn of the loop of [ArrivalMap]: [a.Pick] is dereferenced. *)
Definition arrival_row (o : Origin) (a : Arrival) : outcome (gmap string string) :=
  match Pick_ a with
  | None => Panics
  | Some p =>
      Returns (
        <["TimeWeight" := Sprintf_f_float64 (TimeWeight a)]> (
        <["TimeResidual" := Sprintf_f_float64 (TimeResidual a)]> (
        <["PhaseOriginOffset" :=
            Sprintf_f_float64 (Seconds (Sub (Value (PickTime p)) (Value (OriginTime o))))]> (
        <["PhaseTime" := Format (Value (PickTime p)) RFC3339Nano]> (
        <["Phase" := Phase a]> (
        <["LocationCode" := LocationCode (WaveformID_ p)]> (
        <["ChannelCode" := ChannelCode (WaveformID_ p)]> (
        <["StationCode" := StationCode (WaveformID_ p)]> (
        <["NetworkCode" := NetworkCode (WaveformID_ p)]> ∅)))))))))
  end.

(** [Origin.ArrivalMap]. *)
Fixpoint ArrivalMap_loop (o : Origin) (l : list Arrival)
  : outcome (list (gmap string string)) :=
  match l with
  | [] => Returns []
  | a :: l =>
      am ← arrival_row o a;
      m ← ArrivalMap_loop o l;
      Returns (am :: m)
  end.

Definition ArrivalMap (o : Origin) : outcome (list (gmap string string)) :=
  ArrivalMap_loop o (Arrivals o).

(** [Quakeml.init]: the document after initialisation and the error
    returned. *)
Definition init (q : Quakeml) : outcome (Quakeml * option error) :=
  let e := Event_ (EventParameters_ q) in
  if decide (PreferredOriginID e = "") then
    Returns (q, Some "Empty PreferredOriginID")
  else if decide (PreferredMagnitudeID e = "") then
    Returns (q, Some "Empty PreferredMagnitudeID")
  else if decide (length (O e) = 0%nat) then
    Returns (q, Some "Found no origins")
  else if decide (length (M e) = 0%nat) then
    Returns (q, Some "Found no magnitudes")
  else
    let origins := index_by OriginPublicID (O e) in
    let preferredOrigin := origins !! PreferredOriginID e in
    let magnitudes := value_by MagnitudePublicID (M e) in
    let preferredMagnitude := magnitudes !! PreferredMagnitudeID e in
    let picks := value_by PickPublicID (P e) in
    (* range over PreferredOrigin.Arrivals *)
    match preferredOrigin ≫= (fun i => pair i <$> O e !! i) with
    | None => Panics
    | Some (i, o) =>
        let arrivals := map (fun a => set_Pick a (picks !! PickID a)) (Arrivals o) in
        Returns
          (mkQuakeml (mkEventParameters
             (mkEvent (PreferredOriginID e) (PreferredMagnitudeID e)
                      (<[i := set_Arrivals o arrivals]> (O e)) (M e) (P e)
                      origins picks magnitudes
                      preferredOrigin preferredMagnitude)),
           None)
    end.

(** [unmarshal]. *)
Definition unmarshal (b : string) : outcome (Event * option error) :=
  let '(q, err) := xml_Unmarshal b in
  match err with
  | Some err => Returns (zeroEvent, Some err)
  | None =>
      qe ← init q;
      Returns (Event_ (EventParameters_ (fst qe)), snd qe)
  end.

(** [result]: what a worker passes down the pipeline. *)
Record result : Type := mkResult {
  event : Event;
  publicID : string;
  err : option error
}.

(** The body of the [fetcher] loop for one event id, up to its
    [select]. [defer r.Body.Close()] reads [r.Body] on the spot. *)
Definition fetcher (publicid : string) : outcome (result * list string) :=
  let reply := Http.Get (quakeMLUrl +:+ publicid) in
  r ← match reply with
      | Http.Ok r => Returns r
      | Http.Fail (Some r) _ => Returns r
      | Http.Fail None _ => Panics
      end;
  let err := match reply with Http.Ok _ => None | Http.Fail _ e => Some e end in
  let '(b, err) :=
    match err with
    | None => Http.Body r
    | Some e => ("", Some e)
    end in
  let err :=
    match err with
    | None =>
        if decide (Http.StatusCode r ≠ 200)
        then Some ("Non 200 response code: " +:+ Sprintf_v_int (Http.StatusCode r))
        else None
    | Some e => Some e
    end in
  match err with
  | None =>
      ee ← unmarshal b;
      Returns (mkResult (fst ee) publicid (snd ee), [])
  | Some e => Returns (mkResult zeroEvent publicid (Some e), [])
  end.

(** The aggregating loop of [Get]: the map so far and the counter
    [i]. It never returns early. *)
Definition Get_consume (acc : gmap string Event * Z) (r : result)
  : (gmap string Event * Z + gmap string Event) * list string :=
  let '(quakeml, i, lines) :=
    match err r with
    | Some e => (fst acc, snd acc, ["Error fetching data for " +:+ publicID r; e])
    | None => (<[publicID r := event r]> (fst acc), snd acc + 1, [])
    end in
  if decide (i = 50) then
    (inl (quakeml, 0),
     (lines ++ ["Downloaded " +:+ pretty (size quakeml) +:+ " quakes"])%list)
  else (inl (quakeml, i), lines).

Definition Get_finish (acc : gmap string Event * Z) : gmap string Event := fst acc.

Definition numDownloaders : nat := 15.

(** [Get] as a pipeline: its states and steps. *)
Definition Get_start (eventid : list string)
  : state string result (gmap string Event * Z) (gmap string Event) :=
  start eventid (∅, 0).

Definition Get_step := step numDownloaders fetcher Get_consume Get_finish.
Definition Get_run := run numDownloaders fetcher Get_consume Get_finish.

End Client.

(** [Get] when a request may never complete. *)
Section Stalled.
Context {xml : Xml} {client : Http.Client} {stalls : Http.Stalls}.

Definition hangs (publicid : string) : bool := Http.never_completes (quakeMLUrl +:+ publicid).

Definition Get_stall_step := stall_step numDownloaders hangs fetcher Get_consume Get_finish.
Definition Get_stall_run := stall_run numDownloaders hangs fetcher Get_consume Get_finish.

End Stalled.

End Quakeml12.

(** ** Package seiscompml07

    The same pointer model as for [Quakeml12]. Origins and picks are
    decoded under [EventParameters] and copied into the event;
    magnitudes are decoded under their origin. *)
Module Seiscompml07.
Import GoTime.

Definition seiscompURL : string :=
  "http://seiscompml07.s3-website-ap-southeast-2.amazonaws.com/".

Record WaveformID : Type := mkWaveformID {
  NetworkCode : string;
  StationCode : string;
  LocationCode : string;
  ChannelCode : string
}.

Record TimeValue : Type := mkTimeValue {
  Value : Time;
  Uncertainty : float
}.

Record Mag : Type := mkMag {
  MagValue : float;
  MagUncertainty : float
}.

Record Magnitude : Type := mkMagnitude {
  MagnitudePublicID : string;
  Mag_ : Mag;
  Type_ : string;
  MethodID : string;
  StationCount : Z
}.

Record Pick : Type := mkPick {
  PickPublicID : string;
  PickTime : TimeValue;
  WaveformID_ : WaveformID;
  PhaseHint : string;
  EvaluationMode : string;
  EvaluationStatus : string
}.

Record Arrival : Type := mkArrival {
  PickID : string;
  Phase : string;
  Azimuth : float;
  Distance : float;
  TimeResidual : float;
  TimeWeight : float;
  Pick_ : option Pick
}.

Record Origin : Type := mkOrigin {
  OriginPublicID : string;
  OriginTime : TimeValue;
  Arrivals : list Arrival;
  OriginM : list Magnitude
}.

Record Event : Type := mkEvent {
  PreferredOriginID : string;
  PreferredMagnitudeID : string;
  PreferredOrigin : option nat;
  PreferredMagnitude : option Magnitude;
  Picks : gmap string Pick;
  Origins : gmap string nat;
  Magnitudes : gmap string Magnitude;
  O : list Origin;
  M : list Magnitude;
  P : list Pick
}.

Record EventParameters : Type := mkEventParameters {
  Event_ : Event;
  ParametersO : list Origin;
  ParametersP : list Pick
}.

Record Seiscomp : Type := mkSeiscomp { EventParameters_ : EventParameters }.

Definition zeroEvent : Event := mkEvent "" "" None None ∅ ∅ ∅ [] [] [].

(** [encoding/xml]: decoding into a zero [Seiscomp]. *)
Class Xml : Type := { xml_Unmarshal : string -> Seiscomp * option error }.

Definition set_Pick (a : Arrival) (p : option Pick) : Arrival :=
  mkArrival (PickID a) (Phase a) (Azimuth a) (Distance a)
            (TimeResidual a) (TimeWeight a) p.

Definition set_Arrivals (o : Origin) (l : list Arrival) : Origin :=
  mkOrigin (OriginPublicID o) (OriginTime o) l (OriginM o).

(** [for _, origin := range O { M = append(M, origin.M...) }] *)
Definition collect_magnitudes (origins : list Origin) : list Magnitude :=
  foldl (fun m origin => (m ++ OriginM origin)%list) [] origins.

(** [PickFormat] and [ArrivalFormat]: the keys of the maps that
    [PickMap] and [ArrivalMap] return, and [EventID]. *)
Definition PickFormat : gmap string string :=
  <["PhaseTime" := "e.g., TODO"]> (
  <["PhaseHint" := "e.g., P"]> (
  <["LocationCode" := "e.g., 10"]> (
  <["ChannelCode" := "e.g., HHZ"]> (
  <["StationCode" := "e.g., SNZO"]> (
  <["NetworkCode" := "e.g., NZ"]> (
  <["EventID" :=
      "e.g., 2014p072856.  This is the equivalent of the publicID attribute of Event."]>
    ∅)))))).

Definition ArrivalFormat : gmap string string :=
  <["TimeWeight" := "e.g., TODO"]> (
  <["TimeResidual" := "e.g., TODO"]> (
  <["PhaseOriginOffset" := "e.g., PhaseTime - OriginTime (s)"]> (
  <["PhaseTime" := "e.g., TODO"]> (
  <["Phase" := "e.g., P"]> (
  <["LocationCode" := "e.g., 10"]> (
  <["ChannelCode" := "e.g., HHZ"]> (
  <["StationCode" := "e.g., SNZO"]> (
  <["NetworkCode" := "e.g., NZ"]> (
  <["EventID" :=
      "e.g., 2014p072856.  This is the equivalent of the publicID attribute of Event."]>
    ∅))))))))).

Section Client.
Context {fmt : Fmt} {xml : Xml} {client : Http.Client}.

Definition pick_row (p : Pick) : gmap string string :=
  <["PhaseTime" := Format (Value (PickTime p)) RFC3339Nano]> (
  <["PhaseHint" := PhaseHint p]> (
  <["LocationCode" := LocationCode (WaveformID_ p)]> (
  <["ChannelCode" := ChannelCode (WaveformID_ p)]> (
  <["StationCode" := StationCode (WaveformID_ p)]> (
  <["NetworkCode" := NetworkCode (WaveformID_ p)]> ∅))))).

Definition PickMap (e : Event) : list (gmap string string) :=
  map (fun kp => pick_row (snd kp)) (map_to_list (Picks e)).

(** One turn of the loop of [ArrivalMap]: [a.Pick] is dereferenced. *)
Definition arrival_row (o : Origin) (a : Arrival) : outcome (gmap string string) :=
  match Pick_ a with
  | None => Panics
  | Some p =>
      Returns (
        <["TimeWeight" := Sprintf_f_float64 (TimeWeight a)]> (
        <["TimeResidual" := Sprintf_f_float64 (TimeResidual a)]> (
        <["PhaseOriginOffset" :=
            Sprintf_f_float64 (Seconds (Sub (Value (PickTime p)) (Value (OriginTime o))))]> (
        <["PhaseTime" := Format (Value (PickTime p)) RFC3339Nano]> (
        <["Phase" := Phase a]> (
        <["LocationCode" := LocationCode (WaveformID_ p)]> (
        <["ChannelCode" := ChannelCode (WaveformID_ p)]> (
        <["StationCode" := StationCode (WaveformID_ p)]> (
        <["NetworkCode" := NetworkCode (WaveformID_ p)]> ∅)))))))))
  end.

Fixpoint ArrivalMap_loop (o : Origin) (l : list Arrival)
  : outcome (list (gmap string string)) :=
  match l with
  | [] => Returns []
  | a :: l =>
      am ← arrival_row o a;
      m ← ArrivalMap_loop o l;
      Returns (am :: m)
  end.

(** [Origin.ArrivalMap]. *)
Definition ArrivalMap (o : Origin) : outcome (list (gmap string string)) :=
  ArrivalMap_loop o (Arrivals o).

(** [Seiscomp.init]: the document after initialisation and the
    error returned. *)
Definition init (q : Seiscomp) : outcome (Seiscomp * option error) :=
  let ep := EventParameters_ q in
  let e := Event_ ep in
  if decide (PreferredOriginID e = "") then
    Returns (q, Some "Empty PreferredOriginID")
  else if decide (PreferredMagnitudeID e = "") then
    Returns (q, Some "Empty PreferredMagnitudeID")
  else if decide (length (ParametersO ep) = 0%nat) then
    Returns (q, Some "Found no origins")
  else
    let eP := ParametersP ep in
    let eO := ParametersO ep in
    let eM := collect_magnitudes eO in
    if decide (length eM = 0%nat) then
      Returns
        (mkSeiscomp (mkEventParameters
           (mkEvent (PreferredOriginID e) (PreferredMagnitudeID e)
                    (PreferredOrigin e) (PreferredMagnitude e)
                    (Picks e) (Origins e) (Magnitudes e) eO eM eP)
           (ParametersO ep) (ParametersP ep)),
         Some "Found no magnitudes")
    else
      let origins := index_by OriginPublicID eO in
      let preferredOrigin := origins !! PreferredOriginID e in
      let magnitudes := value_by MagnitudePublicID eM in
      let preferredMagnitude := magnitudes !! PreferredMagnitudeID e in
      let picks := value_by PickPublicID eP in
      (* range over PreferredOrigin.Arrivals *)
      match preferredOrigin ≫= (fun i => pair i <$> eO !! i) with
      | None => Panics
      | Some (i, o) =>
          let arrivals := map (fun a => set_Pick a (picks !! PickID a)) (Arrivals o) in
          Returns
            (mkSeiscomp (mkEventParameters
               (mkEvent (PreferredOriginID e) (PreferredMagnitudeID e)
                        preferredOrigin preferredMagnitude
                        picks origins magnitudes
                        (<[i := set_Arrivals o arrivals]> eO) eM eP)
               (* [copy] copies the origins, not their arrivals: the
                  arrivals that are linked are those of
                  [q.EventParameters.O] as well *)
               (<[i := set_Arrivals o arrivals]> eO) (ParametersP ep)),
             None)
      end.

(** [unmarshal]. *)
Definition unmarshal (b : string) : outcome (Event * option error) :=
  let '(q, err) := xml_Unmarshal b in
  match err with
  | Some err => Returns (zeroEvent, Some err)
  | None =>
      qe ← init q;
      Returns (Event_ (EventParameters_ (fst qe)), snd qe)
  end.

Record result : Type := mkResult {
  event : Event;
  publicID : string;
  err : option error
}.

(** The body of the [fetcher] loop for one event id, up to its
    [select]. [defer r.Body.Close()] reads [r.Body] on the spot. *)
Definition fetcher (publicid : string) : outcome (result * list string) :=
  let reply := Http.Get (seiscompURL +:+ publicid +:+ ".xml") in
  r ← match reply with
      | Http.Ok r => Returns r
      | Http.Fail (Some r) _ => Returns r
      | Http.Fail None _ => Panics
      end;
  let err := match reply with Http.Ok _ => None | Http.Fail _ e => Some e end in
  let '(b, err) :=
    match err with
    | None => Http.Body r
    | Some e => ("", Some e)
    end in
  let err :=
    match err with
    | None =>
        if decide (Http.StatusCode r ≠ 200)
        then Some ("Non 200 response code: " +:+ Sprintf_v_int (Http.StatusCode r))
        else None
    | Some e => Some e
    end in
  match err with
  | None =>
      ee ← unmarshal b;
      Returns (mkResult (fst ee) publicid (snd ee), [])
  | Some e => Returns (mkResult zeroEvent publicid (Some e), [])
  end.

(** The aggregating loop of [Get]. It never returns early. *)
Definition Get_consume (acc : gmap string Event * Z) (r : result)
  : (gmap string Event * Z + gmap string Event) * list string :=
  let '(seiscompml, i, lines) :=
    match err r with
    | Some e => (fst acc, snd acc, ["Error fetching data for " +:+ publicID r; e])
    | None => (<[publicID r := event r]> (fst acc), snd acc + 1, [])
    end in
  if decide (i = 50) then
    (inl (seiscompml, 0),
     (lines ++ ["Downloaded " +:+ pretty (size seiscompml) +:+ " quakes"])%list)
  else (inl (seiscompml, i), lines).

Definition Get_finish (acc : gmap string Event * Z) : gmap string Event := fst acc.

Definition numDownloaders : nat := 15.

Definition Get_start (eventid : list string)
  : state string result (gmap string Event * Z) (gmap string Event) :=
  start eventid (∅, 0).

Definition Get_step := step numDownloaders fetcher Get_consume Get_finish.
Definition Get_run := run numDownloaders fetcher Get_consume Get_finish.

End Client.

(** [Get] when a request may never complete. *)
Section Stalled.
Context {xml : Xml} {client : Http.Client} {stalls : Http.Stalls}.

Definition hangs (publicid : string) : bool :=
  Http.never_completes (seiscompURL +:+ publicid +:+ ".xml").

Definition Get_stall_step := stall_step numDownloaders hangs fetcher Get_consume Get_finish.
Definition Get_stall_run := stall_run numDownloaders hangs fetcher Get_consume Get_finish.

End Stalled.

End Seiscompml07.

(** ** Packages strings and sort, as the command uses them *)
Module Strings.

(** [strings.Split(s, sep)] for a separator of one byte: the pieces
    of [s] between the separators, one more than there are separators. *)
Fixpoint Split (s : string) (sep : ascii) : list string :=
  match s with
  | EmptyString => [EmptyString]
  | String c s =>
      if Ascii.eqb c sep then EmptyString :: Split s sep
      else
        match Split s sep with
        | piece :: pieces => String c piece :: pieces
        | [] => [String c EmptyString]
        end
  end.

(** [strings.Join(elems, sep)]. *)
Definition Join (elems : list string) (sep : string) : string :=
  String.concat sep elems.

(** [sort.Sort(sort.StringSlice(st))]: the strings in increasing
    order, bytes compared by their value. *)
Definition Sort (st : list string) : list string := merge_sort String.le st.

End Strings.

(** ** The command: qsearch.go

    [log.Fatal] ends the process with a message; a function that may
    call it returns the message, if it does. *)
Module Main.
Import GoTime.

(** [time.Parse(time.RFC3339, _)]. *)
Class TimeParser : Type := { Parse_RFC3339 : string -> Time + error }.

(** [v[n]] on a [map[string]string]: the empty string for a missing
    key. *)
Definition at_key (v : gmap string string) (n : string) : string :=
  default "" (v !! n).

(** [checkFormat]: the message of [log.Fatal] for the first of the
    comma separated strings of [f] that is no key of [v], if any. *)
Fixpoint checkFormat_loop (fields : list string) (v : gmap string string) : option string :=
  match fields with
  | [] => None
  | s :: fields =>
      match v !! s with
      | None => Some ("Invalid format key: " +:+ s)
      | Some _ => checkFormat_loop fields v
      end
  end.

Definition checkFormat (f : string) (v : gmap string string) : option string :=
  checkFormat_loop (Strings.Split f ",") v.

(** [formatString] when the map is walked in the order [keys]. *)
Definition formatString_from (keys : list string) : string :=
  Strings.Join (Strings.Sort keys) ",".

(** [formatString]. *)
Definition formatString (v : gmap string string) : string :=
  formatString_from (fst <$> map_to_list v).

(** The flags of the command line, after [flag.Parse]. *)
Record flags : Type := mkFlags {
  eventid : string;
  start : string;
  end_ : string;
  poArrivals : bool;
  arrivalsF : string;
  event : bool;
  eventF : string;
  picks : bool;
  picksF : string;
  header : bool;
  minUsedPhaseCount : Z;
  minMagnitude : float;
  bbox : string
}.

(** The zero [time.Time]: January 1 of the year 1, 00:00:00 UTC. *)
Definition zeroTime : Time := mkTime (-62135596800) 0 0.

(** The zero [wfs.Query]. *)
Definition zeroQuery : Wfs.Query := Wfs.mkQuery "" zeroTime zeroTime 0 0%float "".

(** The bytes that [[a-z0-9]] matches. *)
Definition is_id_byte (c : ascii) : bool :=
  let n := nat_of_ascii c in
  ((97 <=? n)%nat && (n <=? 122)%nat) || ((48 <=? n)%nat && (n <=? 57)%nat).

(** [pidr.MatchString(s)] for the expression [^[a-z0-9]+$]. *)
Definition pidr_MatchString (s : string) : bool :=
  match s with
  | EmptyString => false
  | _ => forallb is_id_byte (list_ascii_of_string s)
  end.

(** The checks of the output formats at the start of [main]. *)
Definition check_formats (fl : flags) : option string :=
  if event fl && bool_decide (eventF fl = "") then
    Some "--event selected but no --event-format provided."
  else
    match (if event fl then checkFormat (eventF fl) Wfs.EventFormat else None) with
    | Some m => Some m
    | None =>
        if picks fl && bool_decide (picksF fl = "") then
          Some "--picks selected but no --picks-format provided."
        else
          match (if picks fl then checkFormat (picksF fl) Quakeml12.PickFormat else None) with
          | Some m => Some m
          | None =>
              if poArrivals fl && bool_decide (arrivalsF fl = "") then
                Some "--arrivals selected but no --arrivals-format provided."
              else if poArrivals fl then checkFormat (arrivalsF fl) Quakeml12.ArrivalFormat
              else None
          end
    end.

(** The query that [main] builds from the flags, or the message of
    [log.Fatal]. *)
Definition build_query {parser : TimeParser} (fl : flags) : string + Wfs.Query :=
  if negb (bool_decide (start fl = "") || bool_decide (end_ fl = "")) then
    match Parse_RFC3339 (start fl) with
    | inr err => inl err
    | inl s =>
        match Parse_RFC3339 (end_ fl) with
        | inr err => inl err
        | inl e =>
            if After s e then inl "start time is after end time."
            else inr (Wfs.mkQuery "" s e (minUsedPhaseCount fl) (minMagnitude fl) (bbox fl))
        end
    end
  else if negb (bool_decide (eventid fl = "")) then
    if negb (pidr_MatchString (eventid fl)) then inl "invalid eventid."
    else inr (Wfs.mkQuery (eventid fl) zeroTime zeroTime 0 0%float "")
  else inr zeroQuery.

(** [main] up to the search: the first fatal message, or the query. *)
Definition validate {parser : TimeParser} (fl : flags) : string + Wfs.Query :=
  match check_formats fl with
  | Some m => inl m
  | None => build_query fl
  end.

(** The event ids that [main] hands to [quakeml12.Get]: the [EventID] of
    each row of the search. *)
Definition event_ids (quakes : list (gmap string string)) : list string :=
  map (fun e => at_key e "EventID") quakes.

(** One line of output: the values of the row for the columns [oF],
    joined with commas. *)
Definition output_line (oF : list string) (v : gmap string string) : string :=
  Strings.Join (map (at_key v) oF) ",".

(** The lines that a block of [main] prints for the rows [rows]: the
    header, if asked for, and one line for each row. *)
Definition output_lines (header : bool) (f : string) (rows : list (gmap string string))
  : list string :=
  let oF := Strings.Split f "," in
  (if header then [Strings.Join oF ","] else []) ++ map (output_line oF) rows.

(** The rows of the picks block: the rows of [PickMap] of each event,
    each with the [EventID] of the search. *)
Definition pick_rows (quakeml : list (string * Quakeml12.Event)) : list (gmap string string) :=
  flat_map (fun '(eid, e) => map (fun v => <["EventID" := eid]> v) (Quakeml12.PickMap e))
           quakeml.

(** [e.PreferredOrigin.ArrivalMap()]: the preferred origin is
    dereferenced. *)
Definition preferred_ArrivalMap {fmt : Fmt} (e : Quakeml12.Event)
  : outcome (list (gmap string string)) :=
  match Quakeml12.PreferredOrigin e ≫= (fun i => Quakeml12.O e !! i) with
  | None => Panics
  | Some o => Quakeml12.ArrivalMap o
  end.

(** The rows of the arrivals block for one event. *)
Definition arrival_rows {fmt : Fmt} (eid : string) (e : Quakeml12.Event)
  : outcome (list (gmap string string)) :=
  rows ← preferred_ArrivalMap e;
  Returns (map (fun v => <["EventID" := eid]> v) rows).

End Main.

(** ** What the specification says, in its own words *)
Module Spec.
Import GoTime.

(** A time rendered with second precision, [YYYY-MM-DDTHH:MM:SS], in
    the time's own location and without a zone designator. *)
Definition render_second (t : Time) : string :=
  appendInt (Year t) 4 +:+ "-" +:+ appendInt (Month t) 2 +:+ "-"
    +:+ appendInt (Day t) 2 +:+ "T" +:+ appendInt (Hour t) 2 +:+ ":"
    +:+ appendInt (Minute t) 2 +:+ ":" +:+ appendInt (Second t) 2.

(** The clauses of a time-window filter, in their fixed order; a clause
    is left out when its field holds the "unset" value. *)
Definition time_window_clauses {fmt : Fmt} (q : Wfs.Query) : list string :=
  ["origintime>='" +:+ render_second (Wfs.Start q) +:+ "'";
   "origintime<='" +:+ render_second (Wfs.End_ q) +:+ "'"]
  ++ (if decide (Wfs.MinUsedPhaseCount q = -999) then []
      else ["usedphasecount>=" +:+ pretty (Wfs.MinUsedPhaseCount q)])
  ++ (if PrimFloat.eqb (Wfs.MinMagnitude q) Wfs.float_minus_999_9 then []
      else ["magnitude>=" +:+ Sprintf_v_float64 (Wfs.MinMagnitude q)])
  ++ (if decide (Wfs.Bbox q = "") then []
      else ["BBOX(origin_geom," +:+ Wfs.Bbox q +:+ ")"]).

(** The request of a time-window query: the base endpoint, then the
    clauses joined with [+AND+]. *)
Definition time_window_request {fmt : Fmt} (q : Wfs.Query) : string :=
  Wfs.wfsUrl +:+ "&cql_filter=" +:+ String.concat "+AND+" (time_window_clauses q).

(** The request of an identifier query: the equality filter on the
    public identifier and nothing else. *)
Definition identifier_request (id : string) : string :=
  Wfs.wfsUrl +:+ "&cql_filter=publicid=='" +:+ id +:+ "'".

(** The start advanced [i] times by one calendar year. *)
Definition plus_years (t : Time) (i : nat) : Time :=
  Nat.iter i (fun t => AddDate t 1 0 0) t.

(** The query [q] with its range replaced by [[from, to]]. *)
Definition with_range (q : Wfs.Query) (from to : Time) : Wfs.Query :=
  Wfs.mkQuery (Wfs.EventID q) from to (Wfs.MinUsedPhaseCount q)
              (Wfs.MinMagnitude q) (Wfs.Bbox q).

(** The sub-queries of a range that spans [n] year boundaries: one per
    year from the start, then one up to the end. *)
Definition year_chunk (q : Wfs.Query) (i : nat) : Wfs.Query :=
  with_range q (plus_years (Wfs.Start q) i) (plus_years (Wfs.Start q) (S i)).

Definition last_chunk (q : Wfs.Query) (n : nat) : Wfs.Query :=
  with_range q (plus_years (Wfs.Start q) n) (Wfs.End_ q).

Definition expected_chunks (q : Wfs.Query) (n : nat) : list Wfs.Query :=
  map (year_chunk q) (seq 0 n) ++ [last_chunk q n].

(** The filter fields that chunking leaves alone. *)
Definition same_filters (q c : Wfs.Query) : Prop :=
  Wfs.EventID c = Wfs.EventID q
  /\ Wfs.MinUsedPhaseCount c = Wfs.MinUsedPhaseCount q
  /\ Wfs.MinMagnitude c = Wfs.MinMagnitude q
  /\ Wfs.Bbox c = Wfs.Bbox q.

(** The invariant of the chunker goroutine: the query behind the
    receiver is the caller's, and the copy and everything sent carry
    the caller's filter fields. *)
Definition chunker_inv (q : Wfs.Query) (c : Wfs.chunker) : Prop :=
  Wfs.q_ c = q /\ same_filters q (Wfs.a_ c) /\ Forall (same_filters q) (Wfs.sent c).

(** The four ways in which a decoded document is incomplete. *)
Inductive IncompleteDocument : Type :=
  | MissingPreferredOrigin
  | MissingPreferredMagnitude
  | NoOrigins
  | NoMagnitudes.

Definition condition_message (c : IncompleteDocument) : error :=
  match c with
  | MissingPreferredOrigin => "Empty PreferredOriginID"
  | MissingPreferredMagnitude => "Empty PreferredMagnitudeID"
  | NoOrigins => "Found no origins"
  | NoMagnitudes => "Found no magnitudes"
  end.

(** The first of the four conditions that holds, in the order of the
    checks, for a document with these preferred identifiers, this many
    origins and this many magnitudes in its document-level collection. *)
Definition first_violation (preferredOriginID preferredMagnitudeID : string)
    (origins magnitudes : nat) : option IncompleteDocument :=
  if decide (preferredOriginID = "") then Some MissingPreferredOrigin
  else if decide (preferredMagnitudeID = "") then Some MissingPreferredMagnitude
  else if decide (origins = 0%nat) then Some NoOrigins
  else if decide (magnitudes = 0%nat) then Some NoMagnitudes
  else None.

Definition quakeml_violation (q : Quakeml12.Quakeml) : option IncompleteDocument :=
  let e := Quakeml12.Event_ (Quakeml12.EventParameters_ q) in
  first_violation (Quakeml12.PreferredOriginID e) (Quakeml12.PreferredMagnitudeID e)
                  (length (Quakeml12.O e)) (length (Quakeml12.M e)).

(** In SeisCompML the magnitudes are nested under the origins: the
    document-level collection is their concatenation. *)
Definition seiscomp_violation (q : Seiscompml07.Seiscomp) : option IncompleteDocument :=
  let ep := Seiscompml07.EventParameters_ q in
  let e := Seiscompml07.Event_ ep in
  first_violation (Seiscompml07.PreferredOriginID e) (Seiscompml07.PreferredMagnitudeID e)
                  (length (Seiscompml07.ParametersO ep))
                  (length (concat (map Seiscompml07.OriginM (Seiscompml07.ParametersO ep)))).

(** The linking step fails with the error [e]. *)
Definition fails_with {A} (x : outcome (A * option error)) (e : error) : Prop :=
  exists a, x = Returns (a, Some e).

(** The linking step returns success. *)
Definition succeeds {A} (x : outcome (A * option error)) : Prop :=
  exists a, x = Returns (a, None).

(** What has been received is sound for the strict aggregator: while
    it runs, and when it returns a collection, no received result
    carried an error; when it returns an error, that error came with
    the last result received, the first to carry one, and no
    collection is returned. *)
Definition strict_inv (rs : list Wfs.result)
    (s : state string Wfs.result (gmap string Wfs.Feature * Z)
               (option (gmap string Wfs.Feature) * option error)) : Prop :=
  match s with
  | Returned (res, Some e) _ =>
      res = None
      /\ exists pre r, rs = (pre ++ [r])%list /\ Forall (fun r' => Wfs.err r' = None) pre
                       /\ Wfs.err r = Some e
  | Returned (res, None) _ => is_Some res /\ Forall (fun r' => Wfs.err r' = None) rs
  | _ => Forall (fun r' => Wfs.err r' = None) rs
  end.





(** The identifier [id] is the key of an entity of [l]. *)
Definition resolves {A} (key : A -> string) (l : list A) (id : string) : Prop :=
  exists x, x ∈ l /\ key x = id.

(** A reference by identifier is linked: the relationship is an entity
    of [l] with that identifier, or it is absent and [l] holds no entity
    with that identifier. *)
Definition linked {A} (key : A -> string) (l : list A) (id : string) (x : option A) : Prop :=
  match x with
  | Some x => x ∈ l /\ key x = id
  | None => ~ resolves key l id
  end.

(** The two tolerant aggregators keep, of each result received, the
    event under the key of the result when the result carries no
    error. *)
Definition keep {R E : Type} (key : R -> string) (value : R -> E) (err : R -> option error)
    (m : gmap string E) (r : R) : gmap string E :=
  match err r with
  | Some _ => m
  | None => <[key r := value r]> m
  end.

(** The fetch of the target fails: the worker returns a result that
    carries an error. *)
Definition fetch_fails {R : Type} (work : string -> outcome (R * list string))
    (err : R -> option error) (id : string) : bool :=
  match work id with
  | Returns (r, _) => bool_decide (is_Some (err r))
  | Panics => false
  end.

(** The lines the tolerant aggregators log for a result. *)
Definition failure_lines {R : Type} (key : R -> string) (err : R -> option error) (r : R)
  : list string :=
  match err r with
  | Some e => ["Error fetching data for " +:+ key r; e]
  | None => []
  end.

(** The features of the results, in the order in which the results
    were received, and the last of them with a given identifier. *)
Definition received_features (rs : list Wfs.result) : list Wfs.Feature :=
  concat (map Wfs.features rs).

Definition last_with_id (id : string) (fs : list Wfs.Feature) : option Wfs.Feature :=
  last (filter (fun f => Wfs.PublicID (Wfs.properties f) = id) fs).

(** A string fits a pattern when it has the length of the pattern, a
    decimal digit wherever the pattern has [d], and the character of
    the pattern everywhere else. *)
Definition is_digit (c : ascii) : bool :=
  (48 <=? nat_of_ascii c)%nat && (nat_of_ascii c <=? 57)%nat.

Fixpoint fits (pattern s : string) : bool :=
  match pattern, s with
  | EmptyString, EmptyString => true
  | String p pattern, String c s =>
      (if Ascii.eqb p "d" then is_digit c else Ascii.eqb p c) && fits pattern s
  | _, _ => false
  end.

Definition second_pattern : string := "dddd-dd-ddTdd:dd:dd".

(** The byte [c] occurs in the string [s]. *)
Fixpoint has_byte (c : ascii) (s : string) : Prop :=
  match s with
  | EmptyString => False
  | String d s => d = c \/ has_byte c s
  end.

(** How often the byte [c] occurs in [s]. *)
Fixpoint count_byte (c : ascii) (s : string) : nat :=
  match s with
  | EmptyString => 0
  | String d s => (if Ascii.eqb d c then 1 else 0) + count_byte c s
  end.

(** The instant [t] lies in the closed range from [a] to [b]. *)
Definition within (t a b : Time) : Prop := After a t = false /\ After t b = false.

(** The number of days from March 1 of the year 0 to March 1 of the
    year [y], in the proleptic Gregorian calendar. *)
Definition days_to_march (y : Z) : Z :=
  (y / 400) * 146097 + (y mod 400) * 365 + (y mod 400) / 4 - (y mod 400) / 100.

End Spec.

(** ** Concrete inputs: the cases of the repository's tests and others *)
Module Examples.
Import GoTime.

(** A rendering of floats that knows the value of the tests. *)
Definition test_Fmt : Fmt := {|
  Sprintf_v_float64 := fun x =>
    if PrimFloat.eqb x 0x1.8666666666666p+2%float then "6.1" else "?";
  Sprintf_f_float64 := fun x => "?"
|}.

(** [2014-01-27T03:06:25Z] and [2014-01-27T04:06:25Z] of [TestURL]. *)
Definition test_start : Time := mkTime 1390791985 0 0.
Definition test_end : Time := mkTime 1390795585 0 0.

Definition test_window_query : Wfs.Query :=
  Wfs.mkQuery "" test_start test_end 60 0x1.8666666666666p+2%float "174,-41,175,-42".

Definition test_id_query : Wfs.Query :=
  Wfs.mkQuery "2014p562279" test_start test_end 0 0%float "".

(** A range whose start, [2014-01-01T00:30:00+01:00], is a quarter of
    an hour before its end, [2013-12-31T23:45:00Z]. *)
Definition zone_query : Wfs.Query :=
  Wfs.mkQuery "" (mkTime 1388532600 0 3600) (mkTime 1388533500 0 0)
              (-999) Wfs.float_minus_999_9 "".

(** [2012-01-27T03:06:25Z] to [2014-01-27T04:06:25Z]: two year
    boundaries. *)
Definition two_year_query : Wfs.Query :=
  Wfs.mkQuery "" (mkTime 1327633585 0 0) test_end
              (-999) Wfs.float_minus_999_9 "".

(** A QuakeML document with one origin [o1], one magnitude [m1] and
    one pick [p1]; the origin has an arrival for [p1] and one for a
    pick that the document does not hold. *)
Definition qml_time : Quakeml12.TimeValue :=
  Quakeml12.mkTimeValue (mkTime 1327637185 369465000 0) 0%float.

Definition qml_pick : Quakeml12.Pick :=
  Quakeml12.mkPick "p1" (Quakeml12.mkTimeValue (mkTime 1327637189 798393000 0) 0%float)
                   (Quakeml12.mkWaveformID "NZ" "WVZ" "10" "HHZ") "P" "automatic" "".

Definition qml_arrival (pickID : string) (p : option Quakeml12.Pick) : Quakeml12.Arrival :=
  Quakeml12.mkArrival pickID "P" 0%float 0%float 0%float 1%float p.

Definition qml_origin (arrivals : list Quakeml12.Arrival) : Quakeml12.Origin :=
  Quakeml12.mkOrigin "o1" qml_time arrivals.

Definition qml_magnitude : Quakeml12.Magnitude :=
  Quakeml12.mkMagnitude "m1" (Quakeml12.mkMag 0%float 0%float) "M" "weighted average" 7.

Definition qml_document (preferredOriginID preferredMagnitudeID : string) : Quakeml12.Quakeml :=
  Quakeml12.mkQuakeml (Quakeml12.mkEventParameters
    (Quakeml12.mkEvent preferredOriginID preferredMagnitudeID
       [qml_origin [qml_arrival "p1" None; qml_arrival "p9" None]]
       [qml_magnitude] [qml_pick] ∅ ∅ ∅ None None)).

(** The same document in SeisCompML. *)
Definition sc3_time : Seiscompml07.TimeValue :=
  Seiscompml07.mkTimeValue (mkTime 1327637185 369465000 0) 0%float.

Definition sc3_pick : Seiscompml07.Pick :=
  Seiscompml07.mkPick "p1" (Seiscompml07.mkTimeValue (mkTime 1327637189 798393000 0) 0%float)
                      (Seiscompml07.mkWaveformID "NZ" "WVZ" "10" "HHZ") "P" "automatic" "".

Definition sc3_arrival (pickID : string) (p : option Seiscompml07.Pick) : Seiscompml07.Arrival :=
  Seiscompml07.mkArrival pickID "P" 0%float 0%float 0%float 1%float p.

Definition sc3_magnitude : Seiscompml07.Magnitude :=
  Seiscompml07.mkMagnitude "m1" (Seiscompml07.mkMag 0%float 0%float) "M" "weighted average" 7.

Definition sc3_origin (arrivals : list Seiscompml07.Arrival) : Seiscompml07.Origin :=
  Seiscompml07.mkOrigin "o1" sc3_time arrivals [sc3_magnitude].

Definition sc3_document (preferredOriginID preferredMagnitudeID : string) : Seiscompml07.Seiscomp :=
  Seiscompml07.mkSeiscomp (Seiscompml07.mkEventParameters
    (Seiscompml07.mkEvent preferredOriginID preferredMagnitudeID None None ∅ ∅ ∅ [] [] [])
    [sc3_origin [sc3_arrival "p1" None; sc3_arrival "p9" None]]
    [sc3_pick]).

(** A server that answers every request with status 404, a network
    on which every request fails, and decoders that are never reached. *)
Definition not_found_client : Http.Client :=
  {| Http.Get := fun _ => Http.Ok (Http.mkResponse 404 ("", None)) |}.

Definition refused_client : Http.Client :=
  {| Http.Get := fun _ => Http.Fail None "dial tcp: connection refused" |}.

Definition test_Json : Wfs.Json :=
  {| Wfs.json_Unmarshal := fun _ => (Wfs.mkFeatures [], None) |}.

Definition not_found : Wfs.result :=
  Wfs.mkResult [] (Some "Non 200 response code: 404").

(** [search] having returned the error of [not_found], with the one
    line its worker logged. *)
Definition search_failed
  : state string Wfs.result (gmap string Wfs.Feature * Z)
          (option (gmap string Wfs.Feature) * option error) :=
  Returned (None, Some "Non 200 response code: 404")
           [Wfs.url (fmt := test_Fmt) test_window_query].

(** XML decoders that yield the complete test documents. *)
Definition test_qml_Xml : Quakeml12.Xml :=
  {| Quakeml12.xml_Unmarshal := fun _ => (qml_document "o1" "m1", None) |}.

Definition test_sc3_Xml : Seiscompml07.Xml :=
  {| Seiscompml07.xml_Unmarshal := fun _ => (sc3_document "o1" "m1", None) |}.

(** What the QuakeML worker reports against the server that answers
    404, and what [Get] logs for it. *)
Definition qml_not_found : Quakeml12.result :=
  Quakeml12.mkResult Quakeml12.zeroEvent "2014p072856" (Some "Non 200 response code: 404").

Definition qml_failure_log : list string :=
  ["Error fetching data for 2014p072856"; "Non 200 response code: 404"].

Definition sc3_not_found : Seiscompml07.result :=
  Seiscompml07.mkResult Seiscompml07.zeroEvent "2014p072856" (Some "Non 200 response code: 404").

(** A server that answers every request with status 200 and a
    feature collection of one quake, the one of [TestUnmarshal]. *)
Definition ok_client : Http.Client :=
  {| Http.Get := fun _ => Http.Ok (Http.mkResponse 200 ("{}", None)) |}.

Definition test_feature : Wfs.Feature :=
  Wfs.mkFeature
    (Wfs.mkProperties "2014p549333" "" "2014-07-23T06:04:43.625Z" "2014-07-23T06:07:12.232Z"
       0%float 0%float 0%float 0%float "NonLinLoc" "" "automatic" "nz3drx" ""
       0%float 23 23 0%float 0%float "M" 0%float 13).

Definition feature_Json : Wfs.Json :=
  {| Wfs.json_Unmarshal := fun _ => (Wfs.mkFeatures [test_feature], None) |}.

Definition found : Wfs.result := Wfs.mkResult [test_feature] None.

Definition found_log : list string :=
  [Wfs.url (fmt := test_Fmt) test_window_query; "Downloaded 1 quakes"].

(** A parser that knows the two instants of [TestURL], and command
    lines: the event id of the tests alone, and the time range of the
    tests together with a string that is no event id. *)
Definition test_Parser : Main.TimeParser :=
  {| Main.Parse_RFC3339 := fun s =>
       if decide (s = "2014-01-27T03:06:25Z") then inl test_start
       else if decide (s = "2014-01-27T04:06:25Z") then inl test_end
       else inr ("parsing time " +:+ s) |}.

Definition id_flags : Main.flags :=
  Main.mkFlags "2014p562279" "" "" false "" true "EventID,Magnitude" false "" false
               (-999) Wfs.float_minus_999_9 "".

Definition range_flags : Main.flags :=
  Main.mkFlags "not' an id" "2014-01-27T03:06:25Z" "2014-01-27T04:06:25Z"
               false "" true "EventID,Magnitude" false "" false
               60 0x1.8666666666666p+2%float "174,-41,175,-42".

(** [2013-06-01T00:00:00Z] to [2014-01-15T00:00:00Z]: one year
    boundary, and the start falls later in its year than the end; and
    the instant [2014-03-01T00:00:00Z], after the end. *)
Definition overrun_query : Wfs.Query :=
  Wfs.mkQuery "" (mkTime 1370044800 0 0) (mkTime 1389744000 0 0)
              (-999) Wfs.float_minus_999_9 "".

Definition after_overrun : Time := mkTime 1393632000 0 0.

(** The search having found the one quake that the server of the
    details answers 404 for. *)
Definition gap_feature : Wfs.Feature :=
  Wfs.mkFeature
    (Wfs.mkProperties "2014p072856" "" "2014-01-27T03:06:25.000Z" "2014-01-27T03:07:12.232Z"
       0%float 0%float 0%float 0%float "NonLinLoc" "" "automatic" "nz3drx" ""
       0%float 23 23 0%float 0%float "M" 0%float 13).

Definition gap_search : gmap string Wfs.Feature := {["2014p072856" := gap_feature]}.

(** A query for an event id whose range, left over from another
    search, runs over two year boundaries. *)
Definition id_two_year_query : Wfs.Query :=
  Wfs.mkQuery "2014p562279" (mkTime 1327633585 0 0) test_end 0 0%float "".

(** A network on which every request completes, and one on which
    none does. *)
Definition no_stalls : Http.Stalls := {| Http.never_completes := fun _ => false |}.
Definition all_stall : Http.Stalls := {| Http.never_completes := fun _ => true |}.

End Examples.

(** * Proofs *)

(** ** Strings *)

Lemma string_app_assoc (a b c : string) : (a +:+ b) +:+ c = a +:+ (b +:+ c).
Proof.
  induction a as [|x a IH]; [reflexivity |].
  change ((String x a +:+ b) +:+ c) with (String x ((a +:+ b) +:+ c)).
  now rewrite IH.
Qed.

(** ** Request builder *)

Lemma Format_second_layout (t : GoTime.Time) :
  GoTime.Format t "2006-01-02T15:04:05" = Spec.render_second t.
Proof.
  unfold GoTime.Format, Spec.render_second.
  change (GoTime.parse_layout _ _) with
    [GoTime.stdLongYear; GoTime.literal "-"; GoTime.stdZeroMonth; GoTime.literal "-";
     GoTime.stdZeroDay; GoTime.literal "T"; GoTime.stdHour; GoTime.literal ":";
     GoTime.stdZeroMinute; GoTime.literal ":"; GoTime.stdZeroSecond].
  cbn [map GoTime.format_chunk String.concat].
  reflexivity.
Qed.

(** C3. A time-window query (empty [EventID]) yields the base endpoint
    followed by the clauses in their fixed order, joined with [+AND+]:
    origin time not before the start, origin time not after the end
    (both rendered [YYYY-MM-DDTHH:MM:SS], no zone designator), then the
    phase-count clause iff the count is not [-999], the magnitude clause
    iff the magnitude is not [-999.9], the box clause iff the box is not
    empty. *)
Theorem C3_url_time_window {fmt : Fmt} (q : Wfs.Query) :
  Wfs.EventID q = "" ->
  Wfs.url q = Spec.time_window_request q.
Proof.
  intros Hid.
  unfold Wfs.url, Spec.time_window_request, Spec.time_window_clauses.
  rewrite Hid, !Format_second_layout.
  unfold Wfs.float_minus_999_9, Sprintf_v_int.
  destruct (decide ("" ≠ "")) as [Hne | _]; [now destruct Hne |].
  destruct (decide (Wfs.MinUsedPhaseCount q = -999)) as [Hp | Hp];
    destruct (decide (Wfs.MinUsedPhaseCount q ≠ -999)) as [Hp' | Hp'];
    try (exfalso; tauto);
    destruct (PrimFloat.eqb (Wfs.MinMagnitude q) _);
    destruct (decide (Wfs.Bbox q = "")) as [Hb | Hb];
    destruct (decide (Wfs.Bbox q ≠ "")) as [Hb' | Hb'];
    try (exfalso; tauto);
    cbn [negb app String.concat];
    rewrite ?string_app_assoc; reflexivity.
Qed.

Lemma C3_url_time_window_witness :
  Wfs.EventID Examples.test_window_query = ""
  /\ Wfs.url (fmt := Examples.test_Fmt) Examples.test_window_query
     = Wfs.wfsUrl +:+ "&cql_filter=origintime>='2014-01-27T03:06:25'+AND+origintime<='2014-01-27T04:06:25'+AND+usedphasecount>=60+AND+magnitude>=6.1+AND+BBOX(origin_geom,174,-41,175,-42)".
Proof.
  split; [reflexivity |].
  rewrite (C3_url_time_window (fmt := Examples.test_Fmt) Examples.test_window_query eq_refl).
  vm_compute. reflexivity.
Defined.

(** C8. A query with a non-empty [EventID] yields the base endpoint
    followed by the equality filter on the public identifier only; the
    start, end, phase count, magnitude and box play no part. *)
Theorem C8_url_identifier {fmt : Fmt} (q : Wfs.Query) :
  Wfs.EventID q <> "" ->
  Wfs.url q = Spec.identifier_request (Wfs.EventID q)
  /\ forall start end_ phases magnitude bbox,
       Wfs.url (Wfs.mkQuery (Wfs.EventID q) start end_ phases magnitude bbox) = Wfs.url q.
Proof.
  intros Hid. unfold Wfs.url, Spec.identifier_request. cbn [Wfs.EventID].
  destruct (decide (Wfs.EventID q ≠ "")) as [_ | Hn]; [| now destruct Hn].
  split; [| intros]; rewrite ?string_app_assoc; reflexivity.
Qed.

Lemma C8_url_identifier_witness :
  Wfs.EventID Examples.test_id_query <> ""
  /\ Wfs.url (fmt := Examples.test_Fmt) Examples.test_id_query
     = Wfs.wfsUrl +:+ "&cql_filter=publicid=='2014p562279'".
Proof.
  split; [discriminate |].
  apply (C8_url_identifier (fmt := Examples.test_Fmt) Examples.test_id_query).
  discriminate.
Defined.

(** ** Range chunker *)

Lemma plus_years_S (t : GoTime.Time) (i : nat) :
  Spec.plus_years t (S i) = GoTime.AddDate (Spec.plus_years t i) 1 0 0.
Proof. reflexivity. Qed.

(** The state of the goroutine after [n] turns of the year loop, when
    it enters the loop with [a.End = a.Start]. *)
Lemma year_turns (q a : Wfs.Query) (out : list Wfs.Query) (n : nat) :
  Wfs.End_ a = Wfs.Start a ->
  Nat.iter n Wfs.year_turn (Wfs.mkChunker q a out)
  = Wfs.mkChunker q
      (Spec.with_range a (Spec.plus_years (Wfs.Start a) n) (Spec.plus_years (Wfs.Start a) n))
      (out ++ map (Spec.year_chunk a) (seq 0 n)).
Proof.
  intros Ha. induction n as [|n IH].
  - destruct a; cbn in *. subst. now rewrite app_nil_r.
  - rewrite Nat.iter_succ, IH.
    rewrite seq_S, map_app, app_assoc. reflexivity.
Qed.

Lemma chunks_expected (q : Wfs.Query) :
  Wfs.chunks q = Spec.expected_chunks q (Z.to_nat (Wfs.years q)).
Proof.
  unfold Wfs.chunks, Wfs.writeUrls_run, Spec.expected_chunks. cbn [Wfs.q_ Wfs.a_ Wfs.sent].
  destruct (0 <? Wfs.years q) eqn:Hy.
  - rewrite year_turns by reflexivity. reflexivity.
  - apply Z.ltb_ge in Hy.
    replace (Z.to_nat (Wfs.years q)) with 0%nat by lia.
    destruct q; reflexivity.
Qed.

Lemma expected_chunks_lookup (q : Wfs.Query) (n i : nat) :
  Spec.expected_chunks q n !! i
  = if decide (i < n)%nat then Some (Spec.year_chunk q i)
    else if decide (i = n) then Some (Spec.last_chunk q n) else None.
Proof.
  unfold Spec.expected_chunks.
  destruct (decide (i < n)%nat) as [Hlt | Hge].
  - rewrite lookup_app_l by (rewrite length_map, length_seq; lia).
    rewrite list_lookup_fmap, lookup_seq_lt by lia. reflexivity.
  - rewrite lookup_app_r by (rewrite length_map, length_seq; lia).
    rewrite length_map, length_seq.
    destruct (decide (i = n)) as [-> | Hne].
    + now rewrite Nat.sub_diag.
    + destruct (i - n)%nat as [|k] eqn:Hk; [lia | reflexivity].
Qed.

(** C4, as amended. With [Y] the end's year minus the start's year,
    each read in its own location: when [Y >= 0] the chunker emits
    exactly [Y + 1] sub-queries, for each [i] below [Y] the range from
    the start advanced [i] times by a calendar year to the start
    advanced once more, and last the range from the start advanced [Y]
    times to the end; when [Y <= 0] it emits the original range alone;
    the end of each chunk is the start of the next. *)
Theorem C4_chunks_by_year (q : Wfs.Query) :
  Wfs.chunks q = Spec.expected_chunks q (Z.to_nat (Wfs.years q))
  /\ length (Wfs.chunks q) = S (Z.to_nat (Wfs.years q))
  /\ (Wfs.years q <= 0 -> Wfs.chunks q = [q])
  /\ (forall i c c', Wfs.chunks q !! i = Some c -> Wfs.chunks q !! S i = Some c' ->
                     Wfs.End_ c = Wfs.Start c').
Proof.
  rewrite chunks_expected. repeat split.
  - unfold Spec.expected_chunks.
    rewrite length_app, length_map, length_seq. cbn. lia.
  - intros Hy. replace (Z.to_nat (Wfs.years q)) with 0%nat by lia.
    destruct q; reflexivity.
  - intros i c c'. rewrite !expected_chunks_lookup.
    repeat case_decide; intros Hc Hc'; simplify_eq; try lia; [reflexivity |].
    match goal with E : S i = _ |- _ => rewrite <- E end. reflexivity.
Qed.

(** C4 as the specification words it does not hold: the start of
    [zone_query] is not after its end, the years differ by [-1], and
    one sub-query is emitted, not none. *)
Lemma C4_zone_counterexample :
  ~ (forall q : Wfs.Query,
       Wfs.EventID q = "" ->
       GoTime.After (Wfs.Start q) (Wfs.End_ q) = false ->
       Z.of_nat (length (Wfs.chunks q)) = Wfs.years q + 1).
Proof.
  intros Hclaim.
  specialize (Hclaim Examples.zone_query eq_refl eq_refl).
  vm_compute in Hclaim. discriminate.
Qed.

(** A range over two year boundaries is cut into three. *)
Lemma C4_chunks_by_year_witness :
  length (Wfs.chunks Examples.two_year_query) = 3%nat
  /\ map (fun c => (GoTime.Format (Wfs.Start c) "2006-01-02T15:04:05",
                    GoTime.Format (Wfs.End_ c) "2006-01-02T15:04:05"))
         (Wfs.chunks Examples.two_year_query)
     = [("2012-01-27T03:06:25", "2013-01-27T03:06:25");
        ("2013-01-27T03:06:25", "2014-01-27T03:06:25");
        ("2014-01-27T03:06:25", "2014-01-27T04:06:25")].
Proof.
  destruct (C4_chunks_by_year Examples.two_year_query) as (Heq & Hlen & _).
  split; [exact Hlen |].
  rewrite Heq. vm_compute. reflexivity.
Defined.

Lemma emit_inv q c : Spec.chunker_inv q c -> Spec.chunker_inv q (Wfs.emit c).
Proof.
  intros (Hq & Ha & Hs). repeat split; try apply Ha; [exact Hq |].
  cbn. apply Forall_app. split; [exact Hs |]. now constructor.
Qed.

Lemma year_turn_inv q c : Spec.chunker_inv q c -> Spec.chunker_inv q (Wfs.year_turn c).
Proof.
  intros (Hq & Ha & Hs). unfold Wfs.year_turn.
  repeat split; cbn; try apply Ha; [exact Hq |].
  apply Forall_app. split; [exact Hs |].
  constructor; [| constructor]. repeat split; cbn; apply Ha.
Qed.

Lemma year_turns_inv q c n : Spec.chunker_inv q c -> Spec.chunker_inv q (Nat.iter n Wfs.year_turn c).
Proof.
  intros Hc. induction n as [|n IH]; [exact Hc |].
  rewrite Nat.iter_succ. now apply year_turn_inv.
Qed.

Lemma writeUrls_run_inv q : Spec.chunker_inv q (Wfs.writeUrls_run q).
Proof.
  unfold Wfs.writeUrls_run.
  assert (H0 : Spec.chunker_inv q (Wfs.mkChunker q q [])).
  { repeat split. constructor. }
  cbn [Wfs.q_ Wfs.a_ Wfs.sent].
  apply emit_inv.
  destruct (0 <? Wfs.years q).
  - pose proof (year_turns_inv q (Wfs.mkChunker q (Wfs.set_End q (Wfs.Start q)) []) 
                  (Z.to_nat (Wfs.years q))) as Hn.
    destruct Hn as (Hq & Ha & Hs); [repeat split; constructor |].
    repeat split; cbn; try apply Ha; assumption.
  - repeat split. constructor.
Qed.

(** C9. Every sub-query the chunker emits carries the [EventID],
    [MinUsedPhaseCount], [MinMagnitude] and [Bbox] of the original
    query, and the original query is the same after chunking. *)
Theorem C9_chunker_frame (q : Wfs.Query) :
  Wfs.q_ (Wfs.writeUrls_run q) = q
  /\ Forall (Spec.same_filters q) (Wfs.chunks q).
Proof.
  destruct (writeUrls_run_inv q) as (Hq & _ & Hs). split; assumption.
Qed.

(** ** Entity linker *)

Lemma collect_magnitudes_concat (origins : list Seiscompml07.Origin) :
  Seiscompml07.collect_magnitudes origins = concat (map Seiscompml07.OriginM origins).
Proof.
  unfold Seiscompml07.collect_magnitudes.
  rewrite <- (app_nil_l (concat _)). generalize (@nil Seiscompml07.Magnitude) as acc.
  induction origins as [|o os IH]; intros acc; cbn.
  - now rewrite app_nil_r.
  - rewrite IH. now rewrite app_assoc.
Qed.

Lemma condition_message_inj (c c' : Spec.IncompleteDocument) :
  Spec.condition_message c = Spec.condition_message c' -> c = c'.
Proof. destruct c, c'; cbn; intros E; solve [reflexivity | discriminate E]. Qed.

(** What [init] decides before it links anything: the error of the
    first violated condition, or none. *)
Lemma quakeml_init_checks (q : Quakeml12.Quakeml) :
  match Spec.quakeml_violation q with
  | Some c => Spec.fails_with (Quakeml12.init q) (Spec.condition_message c)
  | None => forall e, ~ Spec.fails_with (Quakeml12.init q) e
  end.
Proof.
  unfold Spec.quakeml_violation, Spec.first_violation, Quakeml12.init, Spec.fails_with.
  repeat case_decide; cbn; eauto.
  intros e [a Ha].
  destruct (_ ≫= _) as [[i o]|]; discriminate Ha.
Qed.

Lemma seiscomp_init_checks (q : Seiscompml07.Seiscomp) :
  match Spec.seiscomp_violation q with
  | Some c => Spec.fails_with (Seiscompml07.init q) (Spec.condition_message c)
  | None => forall e, ~ Spec.fails_with (Seiscompml07.init q) e
  end.
Proof.
  unfold Spec.seiscomp_violation, Spec.first_violation, Seiscompml07.init, Spec.fails_with.
  rewrite collect_magnitudes_concat.
  repeat case_decide; cbn; eauto.
  intros e [a Ha].
  destruct (_ ≫= _) as [[i o]|]; discriminate Ha.
Qed.

Lemma fails_with_functional {A} (x : outcome (A * option error)) (e e' : error) :
  Spec.fails_with x e -> Spec.fails_with x e' -> e = e'.
Proof. intros [a Ha] [a' Ha']. congruence. Qed.

(** C6. In both dialects the linking step fails with the error of an
    incompleteness condition exactly when that condition is the first
    one violated, in the order: empty preferred-origin id, empty
    preferred-magnitude id, no origins, no magnitudes (for SeisCompML in
    the collection flattened from the origins); it fails with no other
    error. *)
Theorem C6_init_incomplete :
  (forall (q : Quakeml12.Quakeml) (e : error),
     Spec.fails_with (Quakeml12.init q) e
     <-> exists c, Spec.quakeml_violation q = Some c /\ e = Spec.condition_message c)
  /\ (forall (q : Seiscompml07.Seiscomp) (e : error),
     Spec.fails_with (Seiscompml07.init q) e
     <-> exists c, Spec.seiscomp_violation q = Some c /\ e = Spec.condition_message c).
Proof.
  split; intros q e.
  - pose proof (quakeml_init_checks q) as Hq.
    destruct (Spec.quakeml_violation q) as [c|]; split.
    + intros He. exists c. split; [reflexivity |]. eapply fails_with_functional; eauto.
    + intros (c' & [= <-] & ->). exact Hq.
    + intros He. now destruct (Hq e).
    + intros (c' & [=] & _).
  - pose proof (seiscomp_init_checks q) as Hq.
    destruct (Spec.seiscomp_violation q) as [c|]; split.
    + intros He. exists c. split; [reflexivity |]. eapply fails_with_functional; eauto.
    + intros (c' & [= <-] & ->). exact Hq.
    + intros He. now destruct (Hq e).
    + intros (c' & [=] & _).
Qed.

(** C1. The linking step does not always return once the four checks
    have passed: on a document whose preferred-origin id names no
    decoded origin, [PreferredOrigin] is nil and the range over its
    arrivals dereferences it. Evaluated on such a document in both
    dialects. *)
Theorem C1_init_unresolved_preferred_origin :
  Spec.quakeml_violation (Examples.qml_document "o2" "m1") = None
  /\ Quakeml12.init (Examples.qml_document "o2" "m1") = Panics
  /\ Spec.seiscomp_violation (Examples.sc3_document "o2" "m1") = None
  /\ Seiscompml07.init (Examples.sc3_document "o2" "m1") = Panics.
Proof. repeat split; vm_compute; reflexivity. Qed.

(** ** Arrival rows *)

Lemma quakeml_ArrivalMap_loop_rows {fmt : Fmt} (o : Quakeml12.Origin) (l : list Quakeml12.Arrival) :
  Forall (fun a => is_Some (Quakeml12.Pick_ a)) l ->
  exists rows, Quakeml12.ArrivalMap_loop o l = Returns rows
    /\ Forall2 (fun a row => Quakeml12.arrival_row o a = Returns row) l rows.
Proof.
  induction 1 as [|a l [p Hp] _ (rows & Hrows & Hall)]; cbn.
  - exists []. split; [reflexivity | constructor].
  - unfold Quakeml12.arrival_row at 1. rewrite Hp, Hrows. cbn.
    eexists. split; [reflexivity |].
    constructor; [| exact Hall]. unfold Quakeml12.arrival_row. now rewrite Hp.
Qed.

Lemma quakeml_ArrivalMap_loop_nil {fmt : Fmt} (o : Quakeml12.Origin) (l : list Quakeml12.Arrival) :
  Exists (fun a => Quakeml12.Pick_ a = None) l ->
  Quakeml12.ArrivalMap_loop o l = Panics.
Proof.
  induction 1 as [a l Ha | a l _ IH]; cbn.
  - unfold Quakeml12.arrival_row. now rewrite Ha.
  - rewrite IH. now destruct (Quakeml12.arrival_row o a).
Qed.

Lemma seiscomp_ArrivalMap_loop_rows {fmt : Fmt} (o : Seiscompml07.Origin) (l : list Seiscompml07.Arrival) :
  Forall (fun a => is_Some (Seiscompml07.Pick_ a)) l ->
  exists rows, Seiscompml07.ArrivalMap_loop o l = Returns rows
    /\ Forall2 (fun a row => Seiscompml07.arrival_row o a = Returns row) l rows.
Proof.
  induction 1 as [|a l [p Hp] _ (rows & Hrows & Hall)]; cbn.
  - exists []. split; [reflexivity | constructor].
  - unfold Seiscompml07.arrival_row at 1. rewrite Hp, Hrows. cbn.
    eexists. split; [reflexivity |].
    constructor; [| exact Hall]. unfold Seiscompml07.arrival_row. now rewrite Hp.
Qed.

Lemma seiscomp_ArrivalMap_loop_nil {fmt : Fmt} (o : Seiscompml07.Origin) (l : list Seiscompml07.Arrival) :
  Exists (fun a => Seiscompml07.Pick_ a = None) l ->
  Seiscompml07.ArrivalMap_loop o l = Panics.
Proof.
  induction 1 as [a l Ha | a l _ IH]; cbn.
  - unfold Seiscompml07.arrival_row. now rewrite Ha.
  - rewrite IH. now destruct (Seiscompml07.arrival_row o a).
Qed.

(** C10. [ArrivalMap], in both dialects: when every arrival of the
    origin has its pick, it returns one row per arrival, in the order
    of the arrivals, each the row of that arrival; when some arrival has
    no pick, it dereferences nil. *)
Theorem C10_ArrivalMap_dereferences {fmt : Fmt} :
  (forall o : Quakeml12.Origin,
     (Forall (fun a => is_Some (Quakeml12.Pick_ a)) (Quakeml12.Arrivals o) ->
      exists rows, Quakeml12.ArrivalMap o = Returns rows
        /\ length rows = length (Quakeml12.Arrivals o)
        /\ Forall2 (fun a row => Quakeml12.arrival_row o a = Returns row)
                   (Quakeml12.Arrivals o) rows)
     /\ (Exists (fun a => Quakeml12.Pick_ a = None) (Quakeml12.Arrivals o) ->
         Quakeml12.ArrivalMap o = Panics))
  /\ (forall o : Seiscompml07.Origin,
     (Forall (fun a => is_Some (Seiscompml07.Pick_ a)) (Seiscompml07.Arrivals o) ->
      exists rows, Seiscompml07.ArrivalMap o = Returns rows
        /\ length rows = length (Seiscompml07.Arrivals o)
        /\ Forall2 (fun a row => Seiscompml07.arrival_row o a = Returns row)
                   (Seiscompml07.Arrivals o) rows)
     /\ (Exists (fun a => Seiscompml07.Pick_ a = None) (Seiscompml07.Arrivals o) ->
         Seiscompml07.ArrivalMap o = Panics)).
Proof.
  split; intros o; split.
  - intros Hall.
    destruct (quakeml_ArrivalMap_loop_rows o _ Hall) as (rows & Hrows & Hrow).
    exists rows. repeat split; try assumption.
    symmetry. eapply Forall2_length, Hrow.
  - apply quakeml_ArrivalMap_loop_nil.
  - intros Hall.
    destruct (seiscomp_ArrivalMap_loop_rows o _ Hall) as (rows & Hrows & Hrow).
    exists rows. repeat split; try assumption.
    symmetry. eapply Forall2_length, Hrow.
  - apply seiscomp_ArrivalMap_loop_nil.
Qed.

(** An origin whose one arrival has its pick gives one row; with a
    second arrival that has none, the call panics. *)
Lemma C10_ArrivalMap_dereferences_witness :
  (exists row,
     Quakeml12.ArrivalMap (fmt := Examples.test_Fmt)
       (Examples.qml_origin [Examples.qml_arrival "p1" (Some Examples.qml_pick)])
     = Returns [row]
     /\ row !! "StationCode" = Some "WVZ"
     /\ row !! "PhaseTime" = Some "2012-01-27T04:06:29.798393Z")
  /\ Quakeml12.ArrivalMap (fmt := Examples.test_Fmt)
       (Examples.qml_origin [Examples.qml_arrival "p1" (Some Examples.qml_pick);
                             Examples.qml_arrival "p9" None])
     = Panics.
Proof.
  destruct (C10_ArrivalMap_dereferences (fmt := Examples.test_Fmt)) as [Hq _].
  split.
  - eexists. split; [reflexivity |]. split; vm_compute; reflexivity.
  - apply Hq. right. left. reflexivity.
Defined.

(** ** The fetch pipeline *)

Section PipelineFacts.

Context {T R A Out : Type}.
Variable numDownloaders : nat.
Variable work : T -> outcome (R * list string).
Variable consume : A -> R -> (A + Out) * list string.
Variable finish : A -> Out.

Local Abbreviation step := (step numDownloaders work consume finish).
Local Abbreviation run := (run numDownloaders work consume finish).

Lemma run_silent s rs s' s'' : run s rs s' -> step s' None s'' -> run s rs s''.
Proof.
  intros Hrun Hstep. rewrite <- (app_nil_r rs).
  exact (run_step _ _ _ _ _ _ _ _ _ Hrun Hstep).
Qed.

Lemma run_receive s rs s' r s'' :
  run s rs s' -> step s' (Some r) s'' -> run s (rs ++ [r]) s''.
Proof. intros Hrun Hstep. exact (run_step _ _ _ _ _ _ _ _ _ Hrun Hstep). Qed.

(** Nothing happens once the function has returned or the process has
    crashed. *)
Lemma step_from_running s l s' :
  step s l s' -> exists source held acc log, s = Running source held acc log.
Proof. destruct 1; eauto. Qed.

Lemma merged_snoc acc rs r acc' lines :
  consume (merged consume acc rs) r = (inl acc', lines) ->
  merged consume acc (rs ++ [r]) = acc'.
Proof. intros Hc. unfold merged in *. rewrite foldl_app. cbn. now rewrite Hc. Qed.

Lemma run_pipeline_inv targets acc0 rs s :
  run (start targets acc0) rs s ->
  pipeline_inv work consume finish targets acc0 rs s.
Proof.
  remember (start targets acc0) as s0 eqn:Hs0.
  induction 1 as [|s0 l s' rs s'' Hrun IH Hstep]; subst.
  - exists [], []. repeat split; constructor.
  - specialize (IH eq_refl).
    destruct (step_from_running _ _ _ Hstep) as (src & held & a & lg & ->).
    destruct IH as (taken & results & -> & Hprod & Hperm & ->).
    inversion Hstep; subst; cbn; rewrite ?app_nil_r.
    + exists (taken ++ [t]), (results ++ [r]). repeat split.
      * now rewrite <- app_assoc.
      * apply Forall2_app; [assumption |]. constructor; [| constructor].
        unfold produces. eauto.
      * rewrite Hperm. now rewrite app_assoc.
    + exists t. split; [| assumption]. apply elem_of_app. right. left.
    + exists taken, results. repeat split; try assumption.
      * rewrite Hperm. rewrite <- app_assoc. cbn.
        apply Permutation_app_head. symmetry. apply Permutation_middle.
      * symmetry. eapply merged_snoc. eassumption.
    + right. eauto.
    + left. exists results. rewrite app_nil_r in *. repeat split; assumption.
Qed.

End PipelineFacts.

(** ** Strict aggregation: [Query.search] *)

Lemma search_consume_ok (acc : gmap string Wfs.Feature * Z) (r : Wfs.result) acc' lines :
  Wfs.search_consume acc r = (inl acc', lines) -> Wfs.err r = None.
Proof. unfold Wfs.search_consume. destruct (Wfs.err r); [discriminate | reflexivity]. Qed.

Lemma search_consume_abort (acc : gmap string Wfs.Feature * Z) (r : Wfs.result) out lines :
  Wfs.search_consume acc r = (inr out, lines) ->
  exists e, Wfs.err r = Some e /\ out = (None, Some e).
Proof.
  unfold Wfs.search_consume. destruct (Wfs.err r) as [e|]; [| discriminate].
  intros [= <- _]. eauto.
Qed.

Lemma search_run_inv {json : Wfs.Json} {client : Http.Client} source acc rs s :
  Wfs.search_run (Running source [] acc []) rs s -> Spec.strict_inv rs s.
Proof.
  unfold Wfs.search_run. remember (Running source [] acc []) as s0 eqn:Hs0.
  induction 1 as [|s0 l s' rs s'' Hrun IH Hstep]; subst; cbn; [constructor |].
  specialize (IH eq_refl).
  destruct (step_from_running _ _ _ _ _ _ _ Hstep) as (src & held & a & lg & ->).
  cbn in IH. inversion Hstep; subst; cbn; rewrite ?app_nil_r; try exact IH.
  - apply Forall_app. split; [exact IH |].
    constructor; [| constructor]. eapply search_consume_ok; eassumption.
  - match goal with E : Wfs.search_consume _ _ = _ |- _ =>
      apply search_consume_abort in E; destruct E as (e & He & ->) end.
    split; [reflexivity |]. eauto.
  - split; [eauto | exact IH].
Qed.

(** C2. In any run of [search], a received result that carries an
    error is the last one received and the first with an error; the
    function has then returned that error with a nil collection, and so
    does [Get]. *)
Theorem C2_search_first_error_aborts {fmt : Fmt} {json : Wfs.Json} {client : Http.Client}
    (q : Wfs.Query) (rs : list Wfs.result)
    (s : state string Wfs.result (gmap string Wfs.Feature * Z)
               (option (gmap string Wfs.Feature) * option error))
    (r : Wfs.result) (e : error) :
  Wfs.search_run (Wfs.search_start q) rs s ->
  r ∈ rs ->
  Wfs.err r = Some e ->
  exists pre log,
    rs = pre ++ [r]
    /\ Forall (fun r' => Wfs.err r' = None) pre
    /\ s = Returned (None, Some e) log
    /\ Wfs.Get_of (None, Some e) = (None, Some e).
Proof.
  intros Hrun Hin He. apply search_run_inv in Hrun.
  assert (Hbad : ~ Forall (fun r' => Wfs.err r' = None) rs).
  { rewrite Forall_forall. intros Hall. specialize (Hall r Hin). congruence. }
  destruct s as [? ? ? ? | [res [e'|]] log |]; cbn in Hrun; try tauto.
  destruct Hrun as (-> & pre & r' & -> & Hpre & He').
  apply elem_of_app in Hin. destruct Hin as [Hin | Hin].
  - rewrite Forall_forall in Hpre. specialize (Hpre r Hin). congruence.
  - apply list_elem_of_singleton in Hin. subst r'.
    exists pre, log. repeat split; try assumption. congruence.
Qed.

(** Against a server that answers 404, the one chunk of the test query
    is fetched, its failure is received, and [search] returns the error
    alone. *)
Lemma C2_search_first_error_aborts_witness :
  exists pre log,
    [Examples.not_found] = pre ++ [Examples.not_found]
    /\ Forall (fun r' => Wfs.err r' = None) pre
    /\ Examples.search_failed = Returned (None, Some "Non 200 response code: 404") log
    /\ Wfs.Get_of (fmt := Examples.test_Fmt) (None, Some "Non 200 response code: 404")
       = (None, Some "Non 200 response code: 404").
Proof.
  apply (C2_search_first_error_aborts
           (fmt := Examples.test_Fmt) (json := Examples.test_Json)
           (client := Examples.not_found_client) Examples.test_window_query).
  - apply (run_receive _ _ _ _ _ []
             (Running [] [Examples.not_found] (∅, 0) 
                [Wfs.url (fmt := Examples.test_Fmt) Examples.test_window_query])).
    + apply (run_silent _ _ _ _ _ []
               (Wfs.search_start (fmt := Examples.test_Fmt) Examples.test_window_query)).
      * constructor.
      * apply (step_work _ _ _ _ _ [] [] (∅, 0) [] Examples.not_found
                 [Wfs.url (fmt := Examples.test_Fmt) Examples.test_window_query]).
        -- unfold Wfs.numDownloaders. cbn. lia.
        -- reflexivity.
    + exact (step_abort Wfs.numDownloaders Wfs.fetcher Wfs.search_consume Wfs.search_finish
               [] [] Examples.not_found [] (∅, 0)
               [Wfs.url (fmt := Examples.test_Fmt) Examples.test_window_query]
               (None, Some "Non 200 response code: 404") [] eq_refl).
  - apply list_elem_of_singleton. reflexivity.
  - reflexivity.
Defined.

(** ** Fetch workers *)



(** The wfs worker has a result for every url: it does not panic. *)
Lemma wfs_fetcher_returns {json : Wfs.Json} {client : Http.Client} (url : string) :
  exists r, Wfs.fetcher url = Returns (r, [url]).
Proof.
  unfold Wfs.fetcher. destruct (Http.Get url) as [resp | resp e]; [| eauto].
  destruct (Http.Body resp) as [b [e|]]; [eauto |].
  case_decide; [eauto |]. destruct (Wfs.unmarshal b). eauto.
Qed.

Lemma quakeml_Get_consume_continues (acc : gmap string Quakeml12.Event * Z) r :
  exists acc' lines, Quakeml12.Get_consume acc r = (inl acc', lines).
Proof.
  unfold Quakeml12.Get_consume.
  destruct (Quakeml12.err r); cbn; case_decide; eauto.
Qed.

Lemma seiscomp_Get_consume_continues (acc : gmap string Seiscompml07.Event * Z) r :
  exists acc' lines, Seiscompml07.Get_consume acc r = (inl acc', lines).
Proof.
  unfold Seiscompml07.Get_consume.
  destruct (Seiscompml07.err r); cbn; case_decide; eauto.
Qed.





(** ** Tolerant aggregation: [Get] *)

(** When the worker panics on the only target, the process crashes
    before anything is received: a run cannot get anywhere else. *)
Lemma run_of_panicking_target {T R A Out : Type} n
    (work : T -> outcome (R * list string))
    (consume : A -> R -> (A + Out) * list string) (finish : A -> Out)
    (t : T) (acc : A) rs s :
  work t = Panics ->
  run n work consume finish (start [t] acc) rs s ->
  rs = [] /\ (s = start [t] acc \/ s = Crashed).
Proof.
  intros Hpanic. remember (start [t] acc) as s0 eqn:Hs0.
  induction 1 as [|s0 l s' rs s'' Hrun IH Hstep]; subst; [auto |].
  destruct (IH eq_refl) as (-> & [-> | ->]).
  - unfold start in Hstep. inversion Hstep; subst; cbn.
    + congruence.
    + auto.
    + exfalso. eapply app_cons_not_nil. symmetry. eassumption.
    + exfalso. eapply app_cons_not_nil. symmetry. eassumption.
  - inversion Hstep.
Qed.

(** C5. [Get] does fail as a whole on a transport failure: with a
    network that refuses every connection, the worker of either XML
    client panics on [defer r.Body.Close()], the process crashes, and
    no run of [Get] on the one event id returns a map. The wfs worker
    reports the same failure as a result. *)
Theorem C5_Get_transport_failure_crashes {qml : Quakeml12.Xml} {sc3 : Seiscompml07.Xml} :
  Quakeml12.fetcher (client := Examples.refused_client) "2014p072856" = Panics
  /\ Quakeml12.Get_step (client := Examples.refused_client)
       (Quakeml12.Get_start ["2014p072856"]) None Crashed
  /\ (forall rs s,
        Quakeml12.Get_run (client := Examples.refused_client)
          (Quakeml12.Get_start ["2014p072856"]) rs s ->
        rs = [] /\ (s = Quakeml12.Get_start ["2014p072856"] \/ s = Crashed))
  /\ Seiscompml07.fetcher (client := Examples.refused_client) "2014p072856" = Panics
  /\ Seiscompml07.Get_step (client := Examples.refused_client)
       (Seiscompml07.Get_start ["2014p072856"]) None Crashed
  /\ (forall rs s,
        Seiscompml07.Get_run (client := Examples.refused_client)
          (Seiscompml07.Get_start ["2014p072856"]) rs s ->
        rs = [] /\ (s = Seiscompml07.Get_start ["2014p072856"] \/ s = Crashed))
  /\ (forall json : Wfs.Json,
        Wfs.fetcher (client := Examples.refused_client) "2014p072856"
        = Returns (Wfs.mkResult [] (Some "dial tcp: connection refused"), ["2014p072856"])).
Proof.
  repeat apply conj; try reflexivity.
  - apply step_panic; [unfold Quakeml12.numDownloaders; cbn; lia | reflexivity].
  - intros rs s. now apply run_of_panicking_target.
  - apply step_panic; [unfold Seiscompml07.numDownloaders; cbn; lia | reflexivity].
  - intros rs s. now apply run_of_panicking_target.
Qed.

(** ** Identifier maps *)

Lemma index_by_snoc {A} (key : A -> string) (l : list A) (x : A) :
  index_by key (l ++ [x]) = <[key x := length l]> (index_by key l).
Proof.
  unfold index_by. rewrite imap_app, foldl_app. cbn.
  now rewrite Nat.add_0_r.
Qed.

Lemma index_by_lookup_Some {A} (key : A -> string) (l : list A) (id : string) (i : nat) :
  index_by key l !! id = Some i -> exists x, l !! i = Some x /\ key x = id.
Proof.
  induction l as [|x l IH] using rev_ind; [discriminate |].
  rewrite index_by_snoc. destruct (decide (key x = id)) as [<- | Hne].
  - rewrite lookup_insert_eq. intros [= <-]. exists x. split; [| reflexivity].
    now rewrite lookup_app_r, Nat.sub_diag by reflexivity.
  - rewrite lookup_insert_ne by assumption. intros Hi.
    destruct (IH Hi) as (y & Hy & Hkey). exists y. split; [| assumption].
    rewrite lookup_app_l; [assumption |]. eapply lookup_lt_Some, Hy.
Qed.

Lemma index_by_resolves {A} (key : A -> string) (l : list A) (id : string) :
  Spec.resolves key l id <-> is_Some (index_by key l !! id).
Proof.
  split.
  - intros (x & Hx & Hkey). induction l as [|y l IH] using rev_ind; [inversion Hx |].
    rewrite index_by_snoc. destruct (decide (key y = id)) as [<- | Hne].
    + rewrite lookup_insert_eq. eauto.
    + rewrite lookup_insert_ne by assumption. apply IH.
      apply elem_of_app in Hx. destruct Hx as [Hx | Hx]; [assumption |].
      apply list_elem_of_singleton in Hx. congruence.
  - intros [i Hi]. destruct (index_by_lookup_Some _ _ _ _ Hi) as (x & Hx & Hkey).
    exists x. split; [| assumption]. eapply list_elem_of_lookup_2, Hx.
Qed.

Lemma value_by_snoc {A} (key : A -> string) (l : list A) (x : A) :
  value_by key (l ++ [x]) = <[key x := x]> (value_by key l).
Proof. unfold value_by. now rewrite foldl_app. Qed.

Lemma value_by_lookup_Some {A} (key : A -> string) (l : list A) (id : string) (x : A) :
  value_by key l !! id = Some x -> x ∈ l /\ key x = id.
Proof.
  induction l as [|y l IH] using rev_ind; [discriminate |].
  rewrite value_by_snoc. destruct (decide (key y = id)) as [<- | Hne].
  - rewrite lookup_insert_eq. intros [= <-]. split; [| reflexivity].
    apply elem_of_app. right. now apply list_elem_of_singleton.
  - rewrite lookup_insert_ne by assumption. intros Hx.
    destruct (IH Hx) as [Hin Hkey]. split; [| assumption].
    apply elem_of_app. now left.
Qed.

Lemma value_by_lookup_None {A} (key : A -> string) (l : list A) (id : string) :
  value_by key l !! id = None <-> ~ Spec.resolves key l id.
Proof.
  split.
  - intros Hnone (x & Hx & Hkey). induction l as [|y l IH] using rev_ind; [inversion Hx |].
    rewrite value_by_snoc in Hnone. destruct (decide (key y = id)) as [<- | Hne].
    + now rewrite lookup_insert_eq in Hnone.
    + rewrite lookup_insert_ne in Hnone by assumption. apply IH; [assumption |].
      apply elem_of_app in Hx. destruct Hx as [Hx | Hx]; [assumption |].
      apply list_elem_of_singleton in Hx. congruence.
  - intros Hno. destruct (value_by key l !! id) as [x|] eqn:Hx; [| reflexivity].
    destruct (value_by_lookup_Some _ _ _ _ Hx) as [Hin Hkey].
    destruct Hno. now exists x.
Qed.

Lemma value_by_linked {A} (key : A -> string) (l : list A) (id : string) :
  Spec.linked key l id (value_by key l !! id).
Proof.
  unfold Spec.linked. destruct (value_by key l !! id) as [x|] eqn:Hx.
  - eapply value_by_lookup_Some, Hx.
  - now apply value_by_lookup_None.
Qed.

(** ** Linking of a complete document *)

(** Linking in QuakeML. When the four checks pass, [init] panics if the
    preferred-origin id names no decoded origin; otherwise it returns
    success, the preferred origin is an origin with that id, each of its
    arrivals is linked to a pick with the arrival's pick id or to nil
    when there is none, and the preferred magnitude likewise. *)
Theorem quakeml_init_links (q : Quakeml12.Quakeml) :
  Spec.quakeml_violation q = None ->
  let e := Quakeml12.Event_ (Quakeml12.EventParameters_ q) in
  (~ Spec.resolves Quakeml12.OriginPublicID (Quakeml12.O e) (Quakeml12.PreferredOriginID e) ->
   Quakeml12.init q = Panics)
  /\ (Spec.resolves Quakeml12.OriginPublicID (Quakeml12.O e) (Quakeml12.PreferredOriginID e) ->
      exists q' i o o',
        Quakeml12.init q = Returns (q', None)
        /\ let e' := Quakeml12.Event_ (Quakeml12.EventParameters_ q') in
           Quakeml12.PreferredOrigin e' = Some i
           /\ Quakeml12.O e !! i = Some o
           /\ Quakeml12.OriginPublicID o = Quakeml12.PreferredOriginID e
           /\ Quakeml12.O e' !! i = Some o'
           /\ Forall2 (fun a a' =>
                         Quakeml12.PickID a' = Quakeml12.PickID a
                         /\ Spec.linked Quakeml12.PickPublicID (Quakeml12.P e)
                                        (Quakeml12.PickID a) (Quakeml12.Pick_ a'))
                      (Quakeml12.Arrivals o) (Quakeml12.Arrivals o')
           /\ Spec.linked Quakeml12.MagnitudePublicID (Quakeml12.M e)
                          (Quakeml12.PreferredMagnitudeID e) (Quakeml12.PreferredMagnitude e')).
Proof.
  intros Hok e.
  unfold Spec.quakeml_violation, Spec.first_violation in Hok. fold e in Hok.
  unfold Quakeml12.init. fold e.
  repeat case_decide; try discriminate Hok.
  rewrite index_by_resolves.
  destruct (index_by Quakeml12.OriginPublicID (Quakeml12.O e) !! Quakeml12.PreferredOriginID e)
    as [i|] eqn:Hi; cbn.
  - split; [intros Hno; destruct Hno; eauto |]. intros _.
    destruct (index_by_lookup_Some _ _ _ _ Hi) as (o & Ho & Hkey).
    rewrite Ho. cbn. eexists _, i, o, _. split; [reflexivity |]. cbn.
    repeat split; try assumption.
    + apply list_lookup_insert_eq. eapply lookup_lt_Some, Ho.
    + cbn. induction (Quakeml12.Arrivals o) as [|a l IH]; constructor; [| exact IH].
      split; [reflexivity | apply value_by_linked].
    + apply value_by_linked.
  - split; [reflexivity |]. intros [? [=]].
Qed.

(** The complete test document links: its preferred origin is [o1],
    the arrival for [p1] gets that pick and the arrival for [p9] gets
    none. *)
Lemma quakeml_init_links_witness :
  exists q',
    Quakeml12.init (Examples.qml_document "o1" "m1") = Returns (q', None)
    /\ Quakeml12.O (Quakeml12.Event_ (Quakeml12.EventParameters_ q'))
       = [Examples.qml_origin [Examples.qml_arrival "p1" (Some Examples.qml_pick);
                                Examples.qml_arrival "p9" None]].
Proof.
  destruct (quakeml_init_links (Examples.qml_document "o1" "m1") eq_refl) as [_ Hlinks].
  eexists. split; reflexivity.
Defined.

(** Linking in SeisCompML: as for QuakeML, over the origins and picks
    decoded under [EventParameters] and the magnitudes of the origins. *)
Theorem seiscomp_init_links (q : Seiscompml07.Seiscomp) :
  Spec.seiscomp_violation q = None ->
  let ep := Seiscompml07.EventParameters_ q in
  let e := Seiscompml07.Event_ ep in
  let origins := Seiscompml07.ParametersO ep in
  let magnitudes := concat (map Seiscompml07.OriginM origins) in
  (~ Spec.resolves Seiscompml07.OriginPublicID origins (Seiscompml07.PreferredOriginID e) ->
   Seiscompml07.init q = Panics)
  /\ (Spec.resolves Seiscompml07.OriginPublicID origins (Seiscompml07.PreferredOriginID e) ->
      exists q' i o o',
        Seiscompml07.init q = Returns (q', None)
        /\ let e' := Seiscompml07.Event_ (Seiscompml07.EventParameters_ q') in
           Seiscompml07.PreferredOrigin e' = Some i
           /\ origins !! i = Some o
           /\ Seiscompml07.OriginPublicID o = Seiscompml07.PreferredOriginID e
           /\ Seiscompml07.O e' !! i = Some o'
           /\ Forall2 (fun a a' =>
                         Seiscompml07.PickID a' = Seiscompml07.PickID a
                         /\ Spec.linked Seiscompml07.PickPublicID (Seiscompml07.ParametersP ep)
                                        (Seiscompml07.PickID a) (Seiscompml07.Pick_ a'))
                      (Seiscompml07.Arrivals o) (Seiscompml07.Arrivals o')
           /\ Seiscompml07.M e' = magnitudes
           /\ Spec.linked Seiscompml07.MagnitudePublicID magnitudes
                          (Seiscompml07.PreferredMagnitudeID e)
                          (Seiscompml07.PreferredMagnitude e')).
Proof.
  intros Hok ep e origins magnitudes.
  unfold Spec.seiscomp_violation, Spec.first_violation in Hok.
  fold ep e origins magnitudes in Hok.
  unfold Seiscompml07.init. fold ep e origins.
  rewrite collect_magnitudes_concat. fold magnitudes.
  repeat case_decide; try discriminate Hok.
  rewrite index_by_resolves.
  destruct (index_by Seiscompml07.OriginPublicID origins !! Seiscompml07.PreferredOriginID e)
    as [i|] eqn:Hi; cbn.
  - split; [intros Hno; destruct Hno; eauto |]. intros _.
    destruct (index_by_lookup_Some _ _ _ _ Hi) as (o & Ho & Hkey).
    rewrite Ho. cbn. eexists _, i, o, _. split; [reflexivity |]. cbn.
    repeat split; try assumption.
    + apply list_lookup_insert_eq. eapply lookup_lt_Some, Ho.
    + cbn. induction (Seiscompml07.Arrivals o) as [|a l IH]; constructor; [| exact IH].
      split; [reflexivity | apply value_by_linked].
    + apply value_by_linked.
  - split; [reflexivity |]. intros [? [=]].
Qed.

Lemma seiscomp_init_links_witness :
  exists q',
    Seiscompml07.init (Examples.sc3_document "o1" "m1") = Returns (q', None)
    /\ Seiscompml07.PreferredMagnitude (Seiscompml07.Event_ (Seiscompml07.EventParameters_ q'))
       = Some Examples.sc3_magnitude.
Proof.
  destruct (seiscomp_init_links (Examples.sc3_document "o1" "m1") eq_refl) as [_ Hlinks].
  eexists. split; reflexivity.
Defined.

(** ** Pipelines whose aggregator never returns early *)

Section TolerantFacts.

Context {T R A Out : Type}.
Variable numDownloaders : nat.
Variable work : T -> outcome (R * list string).
Variable consume : A -> R -> (A + Out) * list string.
Variable finish : A -> Out.

Hypothesis workers : (0 < numDownloaders)%nat.
Hypothesis continues : forall acc r, exists acc' lines, consume acc r = (inl acc', lines).

Local Abbreviation step := (step numDownloaders work consume finish).
Local Abbreviation run := (run numDownloaders work consume finish).

Lemma run_tolerant_inv targets acc0 rs s :
  run (start targets acc0) rs s ->
  tolerant_inv work consume finish targets acc0 rs s.
Proof.
  clear workers. intros Hrun. apply run_pipeline_inv in Hrun.
  destruct s as [source held acc log | out log |]; cbn in *; try assumption.
  destruct Hrun as [Hclose | (pre & r & lines & _ & Habort)]; [assumption |].
  destruct (continues (merged consume acc0 pre) r) as (acc' & lines' & Hc). congruence.
Qed.

(** Every step brings the end nearer. *)
Lemma step_decreases s l s' : step s l s' -> (weight s' < weight s)%nat.
Proof.
  destruct 1; cbn; rewrite ?length_app; cbn; lia.
Qed.

Lemma run_trans s rs s' rs' s'' : run s rs s' -> run s' rs' s'' -> run s (rs ++ rs') s''.
Proof.
  intros Hrun. induction 1 as [|s0 l s1 rs1 s2 Hrun' IH Hstep].
  - now rewrite app_nil_r.
  - rewrite app_assoc. eapply run_step; eauto.
Qed.

End TolerantFacts.

(** ** Tolerant aggregation keyed by the target *)

Section KeyedGet.

Context {R E : Type}.
Variable numDownloaders : nat.
Variable work : string -> outcome (R * list string).
Variable consume : gmap string E * Z -> R -> (gmap string E * Z + gmap string E) * list string.
Variable key : R -> string.
Variable value : R -> E.
Variable err : R -> option error.

Hypothesis work_key : forall id r lines, work id = Returns (r, lines) -> key r = id.
Hypothesis consume_keep : forall acc r,
  exists i lines,
    consume acc r = (inl (Spec.keep key value err (fst acc) r, i), lines)
    /\ Spec.failure_lines key err r ⊆ lines.

Local Abbreviation run := (run numDownloaders work consume fst).

Lemma consume_continues acc r : exists acc' lines, consume acc r = (inl acc', lines).
Proof. destruct (consume_keep acc r) as (i & lines & Hc & _). eauto. Qed.

Lemma merged_keep acc rs :
  fst (merged consume acc rs) = foldl (Spec.keep key value err) (fst acc) rs.
Proof.
  unfold merged. revert acc. induction rs as [|r rs IH]; intros acc; [reflexivity |].
  cbn [foldl]. destruct (consume_keep acc r) as (i & lines & Hc & _). rewrite Hc.
  cbn [fst]. now rewrite IH.
Qed.

(** When equal keys mean equal results, the map kept from [rs] holds
    exactly the values of the results without error. *)
Lemma keep_lookup rs id ev :
  (forall r r', r ∈ rs -> r' ∈ rs -> key r = key r' -> r = r') ->
  foldl (Spec.keep key value err) ∅ rs !! id = Some ev
  <-> exists r, r ∈ rs /\ key r = id /\ err r = None /\ value r = ev.
Proof.
  induction rs as [|r rs IH] using rev_ind; intros Hfun.
  - cbn. rewrite lookup_empty. split; [discriminate |]. intros (r & Hr & _). inversion Hr.
  - rewrite foldl_app. cbn. unfold Spec.keep at 1.
    assert (Hin : forall r1, r1 ∈ rs -> r1 ∈ rs ++ [r])
      by (intros r1 H1; apply elem_of_app; now left).
    assert (Hr : r ∈ rs ++ [r])
      by (apply elem_of_app; right; now apply list_elem_of_singleton).
    assert (Hfun' : forall r1 r2, r1 ∈ rs -> r2 ∈ rs -> key r1 = key r2 -> r1 = r2)
      by (intros r1 r2 H1 H2; apply Hfun; auto).
    specialize (IH Hfun').
    assert (Hlast : forall r1, r1 ∈ rs ++ [r] -> key r1 = key r -> r1 = r)
      by (intros r1 H1; apply Hfun; auto).
    destruct (decide (key r = id)) as [<- | Hne].
    + destruct (err r) as [e|] eqn:He.
      * rewrite IH. split; intros (r1 & H1 & Hk & He1 & _); exfalso.
        -- rewrite (Hlast r1) in He1 by auto. congruence.
        -- rewrite (Hlast r1) in He1 by auto. congruence.
      * rewrite lookup_insert_eq. split.
        -- intros [= <-]. exists r. auto.
        -- intros (r1 & H1 & Hk & _ & <-). now rewrite (Hlast r1).
    + assert (Hskip : foldl (Spec.keep key value err) ∅ rs !! id
                      = match err r with
                        | Some _ => foldl (Spec.keep key value err) ∅ rs
                        | None => <[key r := value r]> (foldl (Spec.keep key value err) ∅ rs)
                        end !! id).
      { destruct (err r); [reflexivity |]. now rewrite lookup_insert_ne. }
      rewrite <- Hskip, IH. split.
      * intros (r1 & H1 & Hrest). exists r1. auto.
      * intros (r1 & H1 & Hk & Hrest). exists r1. split; [| now split].
        apply elem_of_app in H1. destruct H1 as [H1 | H1]; [assumption |].
        apply list_elem_of_singleton in H1. congruence.
Qed.

Lemma Forall2_elem_of_l {X Y : Type} (P : X -> Y -> Prop) (l : list X) (k : list Y) (x : X) :
  Forall2 P l k -> x ∈ l -> exists y, y ∈ k /\ P x y.
Proof.
  induction 1 as [|x' y' l k Hxy _ IH]; intros Hx; [inversion Hx |].
  apply elem_of_cons in Hx. destruct Hx as [-> | Hx].
  - exists y'. split; [left | assumption].
  - destruct (IH Hx) as (y & Hy & Hp). exists y. split; [now right | assumption].
Qed.

Lemma Forall2_elem_of_r {X Y : Type} (P : X -> Y -> Prop) (l : list X) (k : list Y) (y : Y) :
  Forall2 P l k -> y ∈ k -> exists x, x ∈ l /\ P x y.
Proof.
  induction 1 as [|x' y' l k Hxy _ IH]; intros Hy; [inversion Hy |].
  apply elem_of_cons in Hy. destruct Hy as [-> | Hy].
  - exists x'. split; [left | assumption].
  - destruct (IH Hy) as (x & Hx & Hp). exists x. split; [now right | assumption].
Qed.

(** The lines of every failure received are in the log. *)
Lemma run_failure_lines targets acc0 rs s :
  run (start targets acc0) rs s ->
  match s with
  | Running _ _ _ log | Returned _ log =>
      forall r line, r ∈ rs -> line ∈ Spec.failure_lines key err r -> line ∈ log
  | Crashed => True
  end.
Proof.
  remember (start targets acc0) as s0 eqn:Hs0.
  induction 1 as [|s0 l s' rs s'' Hrun IH Hstep]; subst.
  - intros r line Hr. inversion Hr.
  - specialize (IH eq_refl).
    destruct (step_from_running _ _ _ _ _ _ _ Hstep) as (src & held & a & lg & ->).
    inversion Hstep; subst; cbn; rewrite ?app_nil_r; try exact I.
    + intros r' line Hr' Hline. apply elem_of_app. left. eauto.
    + intros r' line Hr' Hline. apply elem_of_app.
      apply elem_of_app in Hr'. destruct Hr' as [Hr' | Hr']; [left; eauto |].
      apply list_elem_of_singleton in Hr'. subst r'. right.
      destruct (consume_keep a r) as (i & lines' & Hc & Hsub).
      assert (lines' = lines) as <- by congruence. now apply Hsub.
    + destruct (consume_continues a r) as (acc' & lines' & Hc). congruence.
    + exact IH.
Qed.

(** What a tolerant [Get] returns: the map holds, for each of the
    requested identifiers whose fetch gave a result without error, the
    event of that result, and nothing else; for distinct identifiers
    it has as many entries as identifiers less the failures; the lines
    of every failure are in the log. *)
Lemma keyed_get_returns ids rs out log :
  run (start ids (∅, 0)) rs (Returned out log) ->
  (forall id ev,
     out !! id = Some ev
     <-> id ∈ ids /\ exists r lines, work id = Returns (r, lines) /\ err r = None /\ value r = ev)
  /\ (NoDup ids ->
      size out = (length ids - length (filter (fun id => Spec.fetch_fails work err id) ids))%nat)
  /\ (forall id, id ∈ ids -> Spec.fetch_fails work err id ->
        ("Error fetching data for " +:+ id) ∈ log).
Proof.
  intros Hrun.
  pose proof (run_failure_lines _ _ _ _ Hrun) as Hlog. cbn in Hlog.
  apply (run_tolerant_inv _ _ _ _ consume_continues) in Hrun.
  destruct Hrun as (results & Hprod & Hperm & ->). rewrite merged_keep. cbn [fst].
  assert (Hfrom : forall r, r ∈ rs -> key r ∈ ids /\ exists lines, work (key r) = Returns (r, lines)).
  { intros r Hr. rewrite <- Hperm in Hr.
    destruct (Forall2_elem_of_r _ _ _ _ Hprod Hr) as (t & Ht & lines & Hw).
    rewrite (work_key _ _ _ Hw). eauto. }
  assert (Hto : forall id, id ∈ ids -> exists r lines, r ∈ rs /\ work id = Returns (r, lines)).
  { intros id Hid. destruct (Forall2_elem_of_l _ _ _ _ Hprod Hid) as (r & Hr & lines & Hw).
    exists r, lines. rewrite <- Hperm. auto. }
  assert (Hfun : forall r r', r ∈ rs -> r' ∈ rs -> key r = key r' -> r = r').
  { intros r r' Hr Hr' Hk.
    destruct (Hfrom r Hr) as (_ & lines & Hw). destruct (Hfrom r' Hr') as (_ & lines' & Hw').
    rewrite Hk in Hw. congruence. }
  assert (Hmap : forall id ev,
    foldl (Spec.keep key value err) ∅ rs !! id = Some ev
    <-> id ∈ ids /\ exists r lines, work id = Returns (r, lines) /\ err r = None /\ value r = ev).
  { intros id ev. rewrite (keep_lookup _ _ _ Hfun). split.
    - intros (r & Hr & <- & He & Hv). destruct (Hfrom r Hr) as (Hid & lines & Hw). eauto 10.
    - intros (Hid & r & lines & Hw & He & Hv).
      destruct (Hto id Hid) as (r' & lines' & Hr' & Hw').
      assert (r' = r) as -> by congruence.
      exists r. repeat split; try assumption. eapply work_key, Hw. }
  split; [exact Hmap |]. split.
  - intros Hnodup.
    assert (Hdom : dom (foldl (Spec.keep key value err) ∅ rs)
                   = list_to_set (filter (fun id => ¬ Spec.fetch_fails work err id) ids)).
    { apply set_eq. intros id. rewrite elem_of_dom, elem_of_list_to_set, list_elem_of_filter.
      unfold is_Some. setoid_rewrite Hmap. unfold Spec.fetch_fails. split.
      - intros (ev & Hid & r & lines & Hw & He & _). split; [| assumption].
        rewrite Hw, He. intros Hb. apply bool_decide_unpack in Hb. now destruct Hb.
      - intros [Hb Hid]. split_and?; try assumption.
        destruct (Hto id Hid) as (r & lines & _ & Hw). rewrite Hw in Hb.
        exists (value r). split; [assumption |]. exists r, lines. repeat split; [assumption |].
        destruct (err r) as [e|] eqn:He; [| reflexivity].
        destruct Hb. apply bool_decide_pack. eauto. }
    rewrite <- size_dom, Hdom, size_list_to_set by now apply NoDup_filter.
    rewrite <- (Permutation_length
                  (filter_app_complement (fun id => Spec.fetch_fails work err id) ids)) at 1.
    rewrite length_app. lia.
  - intros id Hid Hfail. unfold Spec.fetch_fails in Hfail.
    destruct (Hto id Hid) as (r & lines & Hr & Hw). rewrite Hw in Hfail.
    apply bool_decide_unpack in Hfail. destruct Hfail as [e He].
    apply (Hlog r); [assumption |]. unfold Spec.failure_lines. rewrite He.
    rewrite (work_key _ _ _ Hw). left.
Qed.

End KeyedGet.

(** ** Tolerant aggregation: what [Get] returns *)

Lemma quakeml_fetcher_publicID {xml : Quakeml12.Xml} {client : Http.Client} id r lines :
  Quakeml12.fetcher id = Returns (r, lines) -> Quakeml12.publicID r = id.
Proof.
  unfold Quakeml12.fetcher.
  destruct (Http.Get _) as [resp | [resp|] e]; cbn; [| | discriminate].
  - destruct (Http.Body resp) as [b [e|]]; cbn.
    + now intros [= <- _].
    + case_decide; [now intros [= <- _] |].
      destruct (Quakeml12.unmarshal b) as [[ev e]|]; cbn; [| discriminate].
      now intros [= <- _].
  - now intros [= <- _].
Qed.

Lemma seiscomp_fetcher_publicID {xml : Seiscompml07.Xml} {client : Http.Client} id r lines :
  Seiscompml07.fetcher id = Returns (r, lines) -> Seiscompml07.publicID r = id.
Proof.
  unfold Seiscompml07.fetcher.
  destruct (Http.Get _) as [resp | [resp|] e]; cbn; [| | discriminate].
  - destruct (Http.Body resp) as [b [e|]]; cbn.
    + now intros [= <- _].
    + case_decide; [now intros [= <- _] |].
      destruct (Seiscompml07.unmarshal b) as [[ev e]|]; cbn; [| discriminate].
      now intros [= <- _].
  - now intros [= <- _].
Qed.

Lemma quakeml_Get_consume_keep (acc : gmap string Quakeml12.Event * Z) r :
  exists i lines,
    Quakeml12.Get_consume acc r
    = (inl (Spec.keep Quakeml12.publicID Quakeml12.event Quakeml12.err (fst acc) r, i), lines)
    /\ Spec.failure_lines Quakeml12.publicID Quakeml12.err r ⊆ lines.
Proof.
  unfold Quakeml12.Get_consume, Spec.keep, Spec.failure_lines.
  destruct (Quakeml12.err r); cbn; case_decide; eexists _, _; (split; [reflexivity |]);
    intros line; rewrite ?elem_of_cons, ?elem_of_nil; tauto.
Qed.

Lemma seiscomp_Get_consume_keep (acc : gmap string Seiscompml07.Event * Z) r :
  exists i lines,
    Seiscompml07.Get_consume acc r
    = (inl (Spec.keep Seiscompml07.publicID Seiscompml07.event Seiscompml07.err (fst acc) r, i),
       lines)
    /\ Spec.failure_lines Seiscompml07.publicID Seiscompml07.err r ⊆ lines.
Proof.
  unfold Seiscompml07.Get_consume, Spec.keep, Spec.failure_lines.
  destruct (Seiscompml07.err r); cbn; case_decide; eexists _, _; (split; [reflexivity |]);
    intros line; rewrite ?elem_of_cons, ?elem_of_nil; tauto.
Qed.

(** [quakeml12.Get], whenever it returns: the map holds exactly the
    requested event ids whose fetch, decoding and linking gave no error,
    each with its event; for [K] distinct ids of which [F] fail it has
    [K - F] entries; every failure is in the log. *)
Theorem quakeml_Get_returns {xml : Quakeml12.Xml} {client : Http.Client}
    (eventid : list string) (rs : list Quakeml12.result)
    (quakeml : gmap string Quakeml12.Event) (log : list string) :
  Quakeml12.Get_run (Quakeml12.Get_start eventid) rs (Returned quakeml log) ->
  (forall id ev,
     quakeml !! id = Some ev
     <-> id ∈ eventid
         /\ exists r lines, Quakeml12.fetcher id = Returns (r, lines)
                            /\ Quakeml12.err r = None /\ Quakeml12.event r = ev)
  /\ (NoDup eventid ->
      size quakeml
      = (length eventid
         - length (filter (fun id => Spec.fetch_fails Quakeml12.fetcher Quakeml12.err id)
                          eventid))%nat)
  /\ (forall id, id ∈ eventid -> Spec.fetch_fails Quakeml12.fetcher Quakeml12.err id ->
        ("Error fetching data for " +:+ id) ∈ log).
Proof.
  apply (keyed_get_returns Quakeml12.numDownloaders Quakeml12.fetcher Quakeml12.Get_consume
           Quakeml12.publicID Quakeml12.event Quakeml12.err).
  - apply quakeml_fetcher_publicID.
  - apply quakeml_Get_consume_keep.
Qed.

(** [seiscompml07.Get], whenever it returns: as for QuakeML. *)
Theorem seiscomp_Get_returns {xml : Seiscompml07.Xml} {client : Http.Client}
    (eventid : list string) (rs : list Seiscompml07.result)
    (seiscompml : gmap string Seiscompml07.Event) (log : list string) :
  Seiscompml07.Get_run (Seiscompml07.Get_start eventid) rs (Returned seiscompml log) ->
  (forall id ev,
     seiscompml !! id = Some ev
     <-> id ∈ eventid
         /\ exists r lines, Seiscompml07.fetcher id = Returns (r, lines)
                            /\ Seiscompml07.err r = None /\ Seiscompml07.event r = ev)
  /\ (NoDup eventid ->
      size seiscompml
      = (length eventid
         - length (filter (fun id => Spec.fetch_fails Seiscompml07.fetcher Seiscompml07.err id)
                          eventid))%nat)
  /\ (forall id, id ∈ eventid -> Spec.fetch_fails Seiscompml07.fetcher Seiscompml07.err id ->
        ("Error fetching data for " +:+ id) ∈ log).
Proof.
  apply (keyed_get_returns Seiscompml07.numDownloaders Seiscompml07.fetcher
           Seiscompml07.Get_consume
           Seiscompml07.publicID Seiscompml07.event Seiscompml07.err).
  - apply seiscomp_fetcher_publicID.
  - apply seiscomp_Get_consume_keep.
Qed.

(** A run of [Get] on one event id against the server that answers
    404: the worker reports the failure, the aggregator logs it, the
    channel is closed and the empty map is returned. *)
Lemma quakeml_Get_not_found_run :
  Quakeml12.Get_run (xml := Examples.test_qml_Xml) (client := Examples.not_found_client)
    (Quakeml12.Get_start ["2014p072856"]) [Examples.qml_not_found]
    (Returned ∅ Examples.qml_failure_log).
Proof.
  apply (run_silent _ _ _ _ _ _ (Running [] [] (∅, 0) Examples.qml_failure_log));
    [| exact (step_close Quakeml12.numDownloaders Quakeml12.fetcher Quakeml12.Get_consume
                Quakeml12.Get_finish (∅, 0) Examples.qml_failure_log)].
  apply (run_receive _ _ _ _ _ [] (Running [] [Examples.qml_not_found] (∅, 0) [])).
  - eapply run_silent; [constructor |].
    apply (step_work _ _ _ _ _ [] [] (∅, 0) [] Examples.qml_not_found []).
    + unfold Quakeml12.numDownloaders. cbn. lia.
    + reflexivity.
  - exact (step_merge Quakeml12.numDownloaders Quakeml12.fetcher Quakeml12.Get_consume
             Quakeml12.Get_finish [] [] Examples.qml_not_found [] (∅, 0) [] (∅, 0)
             Examples.qml_failure_log eq_refl).
Defined.

Lemma quakeml_Get_returns_witness :
  size (∅ : gmap string Quakeml12.Event) = 0%nat
  /\ "Error fetching data for 2014p072856" ∈ Examples.qml_failure_log.
Proof.
  destruct (quakeml_Get_returns _ _ _ _ quakeml_Get_not_found_run) as (_ & Hsize & Hlog).
  split.
  - rewrite Hsize; [reflexivity |]. apply NoDup_singleton.
  - apply Hlog; [now apply list_elem_of_singleton | exact I].
Defined.

Lemma seiscomp_Get_not_found_run :
  Seiscompml07.Get_run (xml := Examples.test_sc3_Xml) (client := Examples.not_found_client)
    (Seiscompml07.Get_start ["2014p072856"]) [Examples.sc3_not_found]
    (Returned ∅ Examples.qml_failure_log).
Proof.
  apply (run_silent _ _ _ _ _ _ (Running [] [] (∅, 0) Examples.qml_failure_log));
    [| exact (step_close Seiscompml07.numDownloaders Seiscompml07.fetcher
                Seiscompml07.Get_consume Seiscompml07.Get_finish (∅, 0)
                Examples.qml_failure_log)].
  apply (run_receive _ _ _ _ _ [] (Running [] [Examples.sc3_not_found] (∅, 0) [])).
  - eapply run_silent; [constructor |].
    apply (step_work _ _ _ _ _ [] [] (∅, 0) [] Examples.sc3_not_found []).
    + unfold Seiscompml07.numDownloaders. cbn. lia.
    + reflexivity.
  - exact (step_merge Seiscompml07.numDownloaders Seiscompml07.fetcher Seiscompml07.Get_consume
             Seiscompml07.Get_finish [] [] Examples.sc3_not_found [] (∅, 0) [] (∅, 0)
             Examples.qml_failure_log eq_refl).
Defined.

Lemma seiscomp_Get_returns_witness :
  size (∅ : gmap string Seiscompml07.Event) = 0%nat
  /\ "Error fetching data for 2014p072856" ∈ Examples.qml_failure_log.
Proof.
  destruct (seiscomp_Get_returns _ _ _ _ seiscomp_Get_not_found_run) as (_ & Hsize & Hlog).
  split.
  - rewrite Hsize; [reflexivity |]. apply NoDup_singleton.
  - apply Hlog; [now apply list_elem_of_singleton | exact I].
Defined.

(** ** Strict aggregation: what [search] returns on success *)

Lemma search_merged_ok (acc : gmap string Wfs.Feature * Z) (rs : list Wfs.result) :
  Forall (fun r => Wfs.err r = None) rs ->
  fst (merged Wfs.search_consume acc rs)
  = foldl (fun res feature => <[Wfs.PublicID (Wfs.properties feature) := feature]> res)
          (fst acc) (Spec.received_features rs).
Proof.
  unfold merged, Spec.received_features. intros Hok. revert acc.
  induction Hok as [|r rs Hr _ IH]; intros acc; [reflexivity |].
  cbn [foldl map concat]. rewrite foldl_app.
  unfold Wfs.search_consume at 2. rewrite Hr. cbn [fst]. now rewrite IH.
Qed.

Lemma insert_features_lookup (fs : list Wfs.Feature) (id : string) :
  foldl (fun res feature => <[Wfs.PublicID (Wfs.properties feature) := feature]> res)
        (∅ : gmap string Wfs.Feature) fs !! id
  = Spec.last_with_id id fs.
Proof.
  unfold Spec.last_with_id.
  induction fs as [|f fs IH] using rev_ind; [reflexivity |].
  rewrite foldl_app, filter_app. cbn [foldl].
  destruct (decide (Wfs.PublicID (Wfs.properties f) = id)) as [Hid | Hid].
  - rewrite Hid, lookup_insert_eq.
    rewrite (filter_cons_True _ f []) by assumption.
    rewrite filter_nil. now rewrite last_snoc.
  - rewrite lookup_insert_ne by assumption.
    rewrite (filter_cons_False _ f []) by assumption.
    rewrite filter_nil, app_nil_r. exact IH.
Qed.

(** [search], when it returns a collection: every chunk URL has been
    fetched, every result has been received, none carried an error, and
    the collection maps each public identifier to the last feature
    received with it. *)
Theorem search_returns_merged {fmt : Fmt} {json : Wfs.Json} {client : Http.Client}
    (q : Wfs.Query) (rs : list Wfs.result)
    (res : option (gmap string Wfs.Feature)) (log : list string) :
  Wfs.search_run (Wfs.search_start q) rs (Returned (res, None) log) ->
  exists results m,
    Forall2 (produces Wfs.fetcher) (Wfs.writeUrls q) results
    /\ results ≡ₚ rs
    /\ Forall (fun r => Wfs.err r = None) rs
    /\ res = Some m
    /\ forall id, m !! id = Spec.last_with_id id (Spec.received_features rs).
Proof.
  intros Hrun.
  pose proof (search_run_inv _ _ _ _ Hrun) as [_ Hok].
  apply run_pipeline_inv in Hrun. cbn in Hrun.
  destruct Hrun as [(results & Hprod & Hperm & Hout) | (pre & r & lines & _ & Habort)].
  - unfold Wfs.search_finish in Hout. injection Hout as ->.
    eexists results, _.
    split; [assumption |]. split; [assumption |]. split; [assumption |].
    split; [reflexivity |].
    intros id. rewrite search_merged_ok by assumption. apply insert_features_lookup.
  - apply search_consume_abort in Habort. destruct Habort as (e & _ & [=]).
Qed.

(** A run of [search] on the test query against the server that
    answers with one quake. *)
Lemma search_found_run :
  Wfs.search_run (json := Examples.feature_Json) (client := Examples.ok_client)
    (Wfs.search_start (fmt := Examples.test_Fmt) Examples.test_window_query)
    [Examples.found]
    (Returned (Some {["2014p549333" := Examples.test_feature]}, None) Examples.found_log).
Proof.
  apply (run_silent _ _ _ _ _ _
           (Running [] [] ({["2014p549333" := Examples.test_feature]}, 1) Examples.found_log));
    [| exact (step_close Wfs.numDownloaders Wfs.fetcher Wfs.search_consume Wfs.search_finish
                ({["2014p549333" := Examples.test_feature]}, 1) Examples.found_log)].
  apply (run_receive _ _ _ _ _ []
           (Running [] [Examples.found] (∅, 0)
              [Wfs.url (fmt := Examples.test_Fmt) Examples.test_window_query])).
  - eapply run_silent; [constructor |].
    apply (step_work _ _ _ _ _ [] [] (∅, 0) [] Examples.found
             [Wfs.url (fmt := Examples.test_Fmt) Examples.test_window_query]).
    + unfold Wfs.numDownloaders. cbn. lia.
    + reflexivity.
  - exact (step_merge Wfs.numDownloaders Wfs.fetcher Wfs.search_consume Wfs.search_finish
             [] [] Examples.found [] (∅, 0)
             [Wfs.url (fmt := Examples.test_Fmt) Examples.test_window_query]
             ({["2014p549333" := Examples.test_feature]}, 1)
             ["Downloaded 1 quakes"] eq_refl).
Defined.

Lemma search_returns_merged_witness :
  exists m : gmap string Wfs.Feature,
    Some {["2014p549333" := Examples.test_feature]} = Some m
    /\ m !! "2014p549333" = Some Examples.test_feature.
Proof.
  destruct (search_returns_merged _ _ _ _ search_found_run)
    as (results & m & _ & _ & _ & Hres & Hm).
  exists m. split; [exact Hres |]. rewrite Hm. reflexivity.
Defined.

(** ** The shape of a rendered time *)

Lemma string_app_cons (c : ascii) (a b : string) : String c a +:+ b = String c (a +:+ b).
Proof. reflexivity. Qed.

Lemma fits_app (p1 p2 s1 s2 : string) :
  Spec.fits p1 s1 = true -> Spec.fits p2 s2 = true -> Spec.fits (p1 +:+ p2) (s1 +:+ s2) = true.
Proof.
  revert s1. induction p1 as [|p p1 IH]; intros [|c s1]; cbn; try discriminate.
  - auto.
  - intros H1 H2. rewrite !string_app_cons. cbn.
    apply andb_true_iff in H1. destruct H1 as [Hc H1].
    rewrite Hc. cbn. now apply IH.
Qed.

Lemma small_numbers (P : Z -> bool) (n x : Z) :
  forallb P (map Z.of_nat (seq 0 (Z.to_nat n))) = true -> 0 <= x < n -> P x = true.
Proof.
  intros Hall Hx. rewrite forallb_forall in Hall. apply Hall.
  apply in_map_iff. exists (Z.to_nat x). split; [lia |].
  apply in_seq. lia.
Qed.

Lemma appendInt_two_digits (x : Z) :
  0 <= x <= 99 -> Spec.fits "dd" (GoTime.appendInt x 2) = true.
Proof.
  intros Hx. apply (small_numbers (fun x => Spec.fits "dd" (GoTime.appendInt x 2)) 100);
    [vm_compute; reflexivity | lia].
Qed.

Lemma appendInt_four_digits (x : Z) :
  0 <= x <= 9999 -> Spec.fits "dddd" (GoTime.appendInt x 4) = true.
Proof.
  intros Hx. apply (small_numbers (fun x => Spec.fits "dddd" (GoTime.appendInt x 4)) 10000);
    [vm_compute; reflexivity | lia].
Qed.

(** The month and the day of every day number are a month and a day. *)
Lemma civil_from_days_range (z : Z) :
  1 <= snd (fst (GoTime.civil_from_days z)) <= 12
  /\ 1 <= snd (GoTime.civil_from_days z) <= 31.
Proof.
  unfold GoTime.civil_from_days. cbn [fst snd].
  set (doe := z + 719468 - (z + 719468) / 146097 * 146097).
  assert (Hdoe : 0 <= doe < 146097) by (subst doe; Z.div_mod_to_equations; lia).
  clearbody doe.
  destruct ((5 * _ + 2) / 153 <? 10) eqn:Hmp;
    [apply Z.ltb_lt in Hmp | apply Z.ltb_ge in Hmp];
    Z.div_mod_to_equations; lia.
Qed.

Lemma clock_range (t : GoTime.Time) :
  0 <= GoTime.Hour t <= 23 /\ 0 <= GoTime.Minute t <= 59 /\ 0 <= GoTime.Second t <= 59.
Proof.
  unfold GoTime.Hour, GoTime.Minute, GoTime.Second.
  Z.div_mod_to_equations. lia.
Qed.

(** A time whose year, in its location, has up to four digits is
    rendered by the layout of the request builder as
    [YYYY-MM-DDTHH:MM:SS]: nineteen characters, digits and the five
    separators, and no zone designator after the seconds. *)
Theorem Format_second_shape (t : GoTime.Time) :
  0 <= GoTime.Year t <= 9999 ->
  Spec.fits Spec.second_pattern (GoTime.Format t "2006-01-02T15:04:05") = true.
Proof.
  intros Hyear. rewrite Format_second_layout. unfold Spec.render_second.
  destruct (civil_from_days_range (GoTime.abs t / 86400)) as [Hmonth Hday].
  destruct (clock_range t) as (Hhour & Hminute & Hsecond).
  change Spec.second_pattern
    with ("dddd" +:+ "-" +:+ "dd" +:+ "-" +:+ "dd" +:+ "T" +:+ "dd" +:+ ":" +:+ "dd" +:+ ":" +:+ "dd").
  unfold GoTime.Month, GoTime.Day, GoTime.Date_of in *.
  repeat (apply fits_app; [first [apply appendInt_four_digits; lia
                                 | apply appendInt_two_digits; lia
                                 | reflexivity] |]).
  apply appendInt_two_digits. lia.
Qed.

Lemma Format_second_shape_witness :
  Spec.fits Spec.second_pattern
    (GoTime.Format Examples.test_start "2006-01-02T15:04:05") = true
  /\ GoTime.Format Examples.test_start "2006-01-02T15:04:05" = "2014-01-27T03:06:25".
Proof.
  split; [| reflexivity].
  apply Format_second_shape. vm_compute. split; discriminate.
Defined.

(** ** Splitting and joining *)

Lemma Split_cons (s : string) (sep : ascii) :
  exists piece pieces, Strings.Split s sep = piece :: pieces.
Proof.
  induction s as [|c s (piece & pieces & IH)]; cbn; [eauto |].
  destruct (Ascii.eqb c sep); [eauto |]. rewrite IH. eauto.
Qed.

Lemma concat_cons_cons (sep piece next : string) (pieces : list string) :
  String.concat sep (piece :: next :: pieces)
  = piece +:+ sep +:+ String.concat sep (next :: pieces).
Proof. reflexivity. Qed.

Lemma Join_Split (s : string) (sep : ascii) :
  Strings.Join (Strings.Split s sep) (String sep EmptyString) = s.
Proof.
  unfold Strings.Join. induction s as [|c s IH]; [reflexivity |].
  cbn [Strings.Split].
  destruct (Split_cons s sep) as (piece & pieces & Hs). rewrite Hs in *.
  destruct (Ascii.eqb c sep) eqn:Hc.
  - apply Ascii.eqb_eq in Hc. subst c. rewrite concat_cons_cons, IH. reflexivity.
  - destruct pieces as [|next pieces].
    + cbn in IH |- *. now rewrite IH.
    + rewrite concat_cons_cons in IH |- *. rewrite string_app_cons. now rewrite IH.
Qed.

(** [strings.Split] and [strings.Join] on a one-byte separator: joining
    the pieces gives the string back; there is one piece more than
    there are separators in the string; no piece holds the separator. *)
Theorem Split_Join (s : string) (sep : ascii) :
  Strings.Join (Strings.Split s sep) (String sep EmptyString) = s
  /\ length (Strings.Split s sep) = S (Spec.count_byte sep s)
  /\ Forall (fun piece => ~ Spec.has_byte sep piece) (Strings.Split s sep).
Proof.
  split; [apply Join_Split |].
  induction s as [|c s (IHl & IHf)].
  - split; [reflexivity |]. constructor; [tauto | constructor].
  - cbn [Strings.Split Spec.count_byte].
    destruct (Split_cons s sep) as (piece & pieces & Hs). rewrite Hs in *.
    destruct (Ascii.eqb c sep) eqn:Hc.
    + apply Ascii.eqb_eq in Hc. subst c. split.
      * cbn [length] in *. lia.
      * constructor; [tauto | assumption].
    + apply Ascii.eqb_neq in Hc. split.
      * cbn [length] in *. lia.
      * inversion IHf; subst. constructor; [| assumption]. cbn. tauto.
Qed.

(** Splitting what was joined gives the pieces back, when there is a
    piece and no piece holds the separator. *)
Lemma Split_of_Join (pieces : list string) (sep : ascii) :
  pieces <> [] ->
  Forall (fun piece => ~ Spec.has_byte sep piece) pieces ->
  Strings.Split (Strings.Join pieces (String sep EmptyString)) sep = pieces.
Proof.
  unfold Strings.Join. intros Hne Hall.
  induction Hall as [|piece pieces Hpiece Hall IH]; [contradiction |]. clear Hne.
  destruct pieces as [|next pieces].
  - cbn. clear IH Hall. induction piece as [|c piece IHp]; [reflexivity |].
    cbn in *. destruct (Ascii.eqb c sep) eqn:Hc.
    + apply Ascii.eqb_eq in Hc. tauto.
    + rewrite IHp by tauto. reflexivity.
  - specialize (IH ltac:(discriminate)).
    rewrite concat_cons_cons.
    induction piece as [|c piece IHp].
    + change (Strings.Split
                (String sep (String.concat (String sep EmptyString) (next :: pieces))) sep
              = EmptyString :: next :: pieces).
      cbn [Strings.Split]. now rewrite Ascii.eqb_refl, IH.
    + rewrite string_app_cons. cbn [Strings.Split]. cbn in Hpiece.
      destruct (Ascii.eqb c sep) eqn:Hc.
      * apply Ascii.eqb_eq in Hc. tauto.
      * rewrite IHp by tauto. reflexivity.
Qed.

(** ** Output formats *)

Lemma checkFormat_loop_spec (fields : list string) (v : gmap string string) :
  match Main.checkFormat_loop fields v with
  | None => Forall (fun s => is_Some (v !! s)) fields
  | Some m =>
      exists pre s post,
        fields = pre ++ s :: post
        /\ Forall (fun s => is_Some (v !! s)) pre
        /\ v !! s = None
        /\ m = "Invalid format key: " +:+ s
  end.
Proof.
  induction fields as [|s fields IH]; cbn; [constructor |].
  destruct (v !! s) as [x|] eqn:Hs.
  - destruct (Main.checkFormat_loop fields v) as [m|].
    + destruct IH as (pre & s' & post & -> & Hpre & Hs' & ->).
      exists (s :: pre), s', post. repeat split; try assumption.
      constructor; [rewrite Hs; eauto | assumption].
    + constructor; [rewrite Hs; eauto | assumption].
  - exists [], s, fields. repeat split; [constructor | assumption].
Qed.

Lemma checkFormat_passes (f : string) (v : gmap string string) :
  Main.checkFormat f v = None
  <-> Forall (fun s => is_Some (v !! s)) (Strings.Split f ",").
Proof.
  unfold Main.checkFormat.
  pose proof (checkFormat_loop_spec (Strings.Split f ",") v) as Hspec.
  destruct (Main.checkFormat_loop (Strings.Split f ",") v) as [m|]; [| tauto].
  split; [discriminate |]. intros Hall.
  destruct Hspec as (pre & s & post & Heq & _ & Hs & _).
  rewrite Heq in Hall. apply Forall_app in Hall. destruct Hall as [_ Hall].
  inversion Hall as [|? ? [x Hx] _]; subst. congruence.
Qed.

(** [checkFormat] lets a format pass exactly when every one of its
    comma separated fields is a key of the map; otherwise the process
    ends with a message that names the first field that is not. *)
Theorem checkFormat_first_invalid (f : string) (v : gmap string string) :
  (Main.checkFormat f v = None
   <-> Forall (fun s => is_Some (v !! s)) (Strings.Split f ","))
  /\ (forall m, Main.checkFormat f v = Some m ->
        exists pre s post,
          Strings.Split f "," = pre ++ s :: post
          /\ Forall (fun s => is_Some (v !! s)) pre
          /\ v !! s = None
          /\ m = "Invalid format key: " +:+ s).
Proof.
  split; [apply checkFormat_passes |].
  unfold Main.checkFormat. intros m Hm.
  pose proof (checkFormat_loop_spec (Strings.Split f ",") v) as Hspec.
  rewrite Hm in Hspec. exact Hspec.
Qed.

Ltac keys_but_EventID :=
  let k := fresh "k" in
  let Hk := fresh "Hk" in
  rewrite !dom_insert_L, !dom_empty_L; apply set_eq; intros k;
  rewrite elem_of_difference, !elem_of_union, !elem_of_singleton, elem_of_empty;
  split; [intros Hk; split; [tauto |] | tauto];
  intros ->; repeat (destruct Hk as [Hk | Hk]; [discriminate |]); exact Hk.

Lemma event_row_keys {fmt : Fmt} p ft : dom (Wfs.event_row p ft) = dom Wfs.EventFormat.
Proof. unfold Wfs.event_row, Wfs.EventFormat. now rewrite !dom_insert_L. Qed.

Lemma quakeml_pick_row_keys p :
  dom (Quakeml12.pick_row p) = dom Quakeml12.PickFormat ∖ {["EventID"]}.
Proof. unfold Quakeml12.pick_row, Quakeml12.PickFormat. keys_but_EventID. Qed.

Lemma quakeml_arrival_row_keys {fmt : Fmt} o a row :
  Quakeml12.arrival_row o a = Returns row ->
  dom row = dom Quakeml12.ArrivalFormat ∖ {["EventID"]}.
Proof.
  unfold Quakeml12.arrival_row, Quakeml12.ArrivalFormat.
  destruct (Quakeml12.Pick_ a); [| discriminate]. intros [= <-]. keys_but_EventID.
Qed.

Lemma seiscomp_pick_row_keys p :
  dom (Seiscompml07.pick_row p) = dom Seiscompml07.PickFormat ∖ {["EventID"]}.
Proof. unfold Seiscompml07.pick_row, Seiscompml07.PickFormat. keys_but_EventID. Qed.

Lemma seiscomp_arrival_row_keys {fmt : Fmt} o a row :
  Seiscompml07.arrival_row o a = Returns row ->
  dom row = dom Seiscompml07.ArrivalFormat ∖ {["EventID"]}.
Proof.
  unfold Seiscompml07.arrival_row, Seiscompml07.ArrivalFormat.
  destruct (Seiscompml07.Pick_ a); [| discriminate]. intros [= <-]. keys_but_EventID.
Qed.

(** The rows and the format maps have the same keys: a row of
    [wfs.Get] has exactly the keys of [EventFormat]; a row of [PickMap]
    and a row of [ArrivalMap] have the keys of [PickFormat] and of
    [ArrivalFormat] except [EventID], which [main] adds. *)
Theorem rows_have_format_keys {fmt : Fmt} :
  (forall p ft, dom (Wfs.event_row p ft) = dom Wfs.EventFormat)
  /\ (forall p, dom (Quakeml12.pick_row p) = dom Quakeml12.PickFormat ∖ {["EventID"]})
  /\ (forall o a row, Quakeml12.arrival_row o a = Returns row ->
        dom row = dom Quakeml12.ArrivalFormat ∖ {["EventID"]})
  /\ (forall p, dom (Seiscompml07.pick_row p) = dom Seiscompml07.PickFormat ∖ {["EventID"]})
  /\ (forall o a row, Seiscompml07.arrival_row o a = Returns row ->
        dom row = dom Seiscompml07.ArrivalFormat ∖ {["EventID"]}).
Proof.
  repeat apply conj.
  - apply event_row_keys.
  - apply quakeml_pick_row_keys.
  - apply quakeml_arrival_row_keys.
  - apply seiscomp_pick_row_keys.
  - apply seiscomp_arrival_row_keys.
Qed.

Lemma quakeml_ArrivalMap_loop_each {fmt : Fmt} (o : Quakeml12.Origin)
    (l : list Quakeml12.Arrival) (rows : list (gmap string string)) :
  Quakeml12.ArrivalMap_loop o l = Returns rows ->
  Forall (fun row => exists a, a ∈ l /\ Quakeml12.arrival_row o a = Returns row) rows.
Proof.
  revert rows. induction l as [|a l IH]; intros rows; cbn.
  - intros [= <-]. constructor.
  - destruct (Quakeml12.arrival_row o a) as [row|] eqn:Hrow; cbn; [| discriminate].
    destruct (Quakeml12.ArrivalMap_loop o l) as [rest|]; cbn; [| discriminate].
    intros [= <-]. constructor.
    + exists a. split; [left | assumption].
    + eapply Forall_impl; [apply IH; reflexivity |].
      intros row' (a' & Ha' & Hrow'). exists a'. split; [now right | assumption].
Qed.

Lemma accepted_field_present (f : string) (v row : gmap string string) (n : string) :
  Main.checkFormat f v = None ->
  dom v ⊆ dom row ->
  n ∈ Strings.Split f "," ->
  is_Some (row !! n).
Proof.
  intros Hok Hdom Hn.
  apply checkFormat_passes in Hok.
  rewrite Forall_forall in Hok. specialize (Hok n Hn).
  apply elem_of_dom, Hdom, elem_of_dom. exact Hok.
Qed.

(** What [main] prints for a block. The header line is the format
    string as it was given, and there is one line for each row. When
    [checkFormat] has let the format pass, every column of every row of
    the events block, of the picks block and of the arrivals block has
    a value in the row: none is the empty string of a missing key. *)
Theorem output_columns_present {fmt : Fmt} (f : string) :
  (forall rows, Main.output_lines true f rows = f :: Main.output_lines false f rows)
  /\ (forall rows, length (Main.output_lines false f rows) = length rows)
  /\ (Main.checkFormat f Wfs.EventFormat = None ->
      forall p ft n, n ∈ Strings.Split f "," -> is_Some (Wfs.event_row p ft !! n))
  /\ (Main.checkFormat f Quakeml12.PickFormat = None ->
      forall quakeml row n,
        row ∈ Main.pick_rows quakeml -> n ∈ Strings.Split f "," -> is_Some (row !! n))
  /\ (Main.checkFormat f Quakeml12.ArrivalFormat = None ->
      forall eid e rows row n,
        Main.arrival_rows eid e = Returns rows ->
        row ∈ rows -> n ∈ Strings.Split f "," -> is_Some (row !! n)).
Proof.
  repeat apply conj.
  - intros rows. unfold Main.output_lines. cbn [app].
    now rewrite Join_Split.
  - intros rows. unfold Main.output_lines. cbn [app]. apply length_map.
  - intros Hok p ft n Hn. eapply accepted_field_present; try eassumption.
    now rewrite event_row_keys.
  - intros Hok quakeml row n Hrow Hn. eapply accepted_field_present; try eassumption.
    unfold Main.pick_rows in Hrow. apply list_elem_of_In, in_flat_map in Hrow.
    destruct Hrow as ([eid e] & _ & Hrow). apply in_map_iff in Hrow.
    destruct Hrow as (v & <- & Hv). unfold Quakeml12.PickMap in Hv.
    apply in_map_iff in Hv. destruct Hv as (kp & <- & _).
    rewrite dom_insert_L, quakeml_pick_row_keys. intros k Hk.
    destruct (decide (k = "EventID")) as [-> | Hne]; set_solver.
  - intros Hok eid e rows row n Hrows Hrow Hn.
    eapply accepted_field_present; try eassumption.
    unfold Main.arrival_rows, Main.preferred_ArrivalMap in Hrows.
    destruct (Quakeml12.PreferredOrigin e ≫= _) as [o|]; [| discriminate].
    cbn in Hrows. unfold Quakeml12.ArrivalMap in Hrows.
    destruct (Quakeml12.ArrivalMap_loop o (Quakeml12.Arrivals o)) as [rows'|] eqn:Hloop;
      [| discriminate].
    cbn in Hrows. injection Hrows as <-.
    apply list_elem_of_In, in_map_iff in Hrow. destruct Hrow as (v & <- & Hv).
    apply quakeml_ArrivalMap_loop_each in Hloop. rewrite Forall_forall in Hloop.
    destruct (Hloop v) as (a & _ & Ha); [now apply list_elem_of_In |].
    rewrite dom_insert_L, (quakeml_arrival_row_keys _ _ _ Ha). intros k Hk.
    destruct (decide (k = "EventID")) as [-> | Hne]; set_solver.
Qed.

(** ** The list of the legal format keys *)

Lemma Sort_Sorted (st : list string) : Sorted String.le (Strings.Sort st).
Proof. apply (Sorted_merge_sort String.le). Qed.

Lemma Sort_Permutation (st : list string) : Strings.Sort st ≡ₚ st.
Proof. apply (merge_sort_Permutation String.le). Qed.

Lemma Sort_order_independent (st st' : list string) :
  st ≡ₚ st' -> Strings.Sort st = Strings.Sort st'.
Proof.
  intros Hperm. apply (Sorted_unique String.le); try apply Sort_Sorted.
  now rewrite !Sort_Permutation.
Qed.

(** [formatString]. The string does not depend on the order in which
    the map is walked. For a map that is not empty and has no comma in
    a key, the string splits at the commas into the keys of the map,
    each once and in increasing order, and [checkFormat] lets it pass as
    a format for the map. *)
Theorem formatString_lists_keys (v : gmap string string) :
  (forall keys, keys ≡ₚ (map_to_list v).*1 ->
     Main.formatString_from keys = Main.formatString v)
  /\ (v <> ∅ ->
      (forall k, is_Some (v !! k) -> ~ Spec.has_byte "," k) ->
      Sorted String.le (Strings.Split (Main.formatString v) ",")
      /\ NoDup (Strings.Split (Main.formatString v) ",")
      /\ (forall k, k ∈ Strings.Split (Main.formatString v) "," <-> is_Some (v !! k))
      /\ Main.checkFormat (Main.formatString v) v = None).
Proof.
  split.
  - intros keys Hperm. unfold Main.formatString, Main.formatString_from.
    now rewrite (Sort_order_independent _ _ Hperm).
  - intros Hne Hcomma.
    assert (Hkeys : forall k, k ∈ Strings.Sort (map_to_list v).*1 <-> is_Some (v !! k)).
    { intros k. rewrite Sort_Permutation, list_elem_of_fmap. split.
      - intros ([k' x] & -> & Hkx). apply elem_of_map_to_list in Hkx. cbn. eauto.
      - intros [x Hx]. exists (k, x). split; [reflexivity |].
        now apply elem_of_map_to_list. }
    assert (Hsplit : Strings.Split (Main.formatString v) ","
                     = Strings.Sort (map_to_list v).*1).
    { unfold Main.formatString, Main.formatString_from. apply Split_of_Join.
      - intros Hnil. apply Hne. apply map_empty. intros k.
        destruct (v !! k) as [x|] eqn:Hk; [| reflexivity].
        assert (Hin : k ∈ Strings.Sort (map_to_list v).*1) by (apply Hkeys; eauto).
        rewrite Hnil in Hin. inversion Hin.
      - apply Forall_forall. intros k Hk. apply Hcomma, Hkeys, Hk. }
    rewrite Hsplit. split; [apply Sort_Sorted |]. split; [| split; [exact Hkeys |]].
    + rewrite Sort_Permutation. apply NoDup_fst_map_to_list.
    + apply checkFormat_passes. rewrite Hsplit.
      apply Forall_forall. intros k Hk. now apply Hkeys.
Qed.

(** The list of the pick columns, as the help of the command shows it. *)
Lemma formatString_lists_keys_witness :
  Main.formatString Quakeml12.PickFormat
  = "ChannelCode,EventID,LocationCode,NetworkCode,PhaseHint,PhaseTime,StationCode"
  /\ Main.checkFormat (Main.formatString Quakeml12.PickFormat) Quakeml12.PickFormat = None.
Proof.
  split; [vm_compute; reflexivity |].
  apply (formatString_lists_keys Quakeml12.PickFormat).
  - intros Hempty. apply (f_equal (fun m => m !! "EventID")) in Hempty. discriminate Hempty.
  - intros k [x Hk] Hcomma. unfold Quakeml12.PickFormat in Hk.
    repeat (rewrite lookup_insert in Hk; case_decide;
            [subst k; cbn in Hcomma; intuition discriminate |]).
    now rewrite lookup_empty in Hk.
Defined.

(** ** The query of the command *)

Lemma chunks_single (q : Wfs.Query) : Wfs.years q <= 0 -> Wfs.chunks q = [q].
Proof.
  intros Hy. rewrite chunks_expected.
  replace (Z.to_nat (Wfs.years q)) with 0%nat by lia.
  destruct q; reflexivity.
Qed.

Lemma pidr_MatchString_bytes (s : string) :
  Main.pidr_MatchString s = true ->
  s <> "" /\ forall c, Spec.has_byte c s -> Main.is_id_byte c = true.
Proof.
  destruct s as [|b s]; [discriminate |]. intros Hm. split; [discriminate |].
  unfold Main.pidr_MatchString in Hm. revert Hm.
  generalize (String b s). clear b s.
  induction s as [|b s IH]; cbn; [tauto |].
  intros Hm c. apply andb_prop in Hm. destruct Hm as [Hb Hs].
  intros [<- | Hc]; [exact Hb | now apply IH].
Qed.

(** The query that [main] searches for, when it gets as far as the
    search. With both [--start] and [--end] it is the time window of
    the two parsed instants, the start not after the end, with the
    three filters of the command line; [--eventid] is then neither
    checked nor used. Otherwise, with [--eventid], the search is the one
    request for that identifier, which is made of lower case letters
    and digits and so holds no quote; [--min-used-phase-count],
    [--min-magnitude], [--bbox] and a lone [--start] or [--end] are
    dropped. With neither, the search is the one request for the
    instant that is the zero [time.Time], with the zero values of the
    filters. *)
Theorem main_query_modes {parser : Main.TimeParser} {fmt : Fmt}
    (fl : Main.flags) (q : Wfs.Query) :
  Main.validate fl = inr q ->
  (Main.start fl <> "" /\ Main.end_ fl <> ""
   /\ Main.Parse_RFC3339 (Main.start fl) = inl (Wfs.Start q)
   /\ Main.Parse_RFC3339 (Main.end_ fl) = inl (Wfs.End_ q)
   /\ GoTime.After (Wfs.Start q) (Wfs.End_ q) = false
   /\ Wfs.EventID q = ""
   /\ Wfs.MinUsedPhaseCount q = Main.minUsedPhaseCount fl
   /\ Wfs.MinMagnitude q = Main.minMagnitude fl
   /\ Wfs.Bbox q = Main.bbox fl)
  \/ ((Main.start fl = "" \/ Main.end_ fl = "")
      /\ Main.eventid fl <> ""
      /\ (forall c, Spec.has_byte c (Main.eventid fl) -> Main.is_id_byte c = true)
      /\ ~ Spec.has_byte "'" (Main.eventid fl)
      /\ Wfs.writeUrls q = [Spec.identifier_request (Main.eventid fl)])
  \/ ((Main.start fl = "" \/ Main.end_ fl = "")
      /\ Main.eventid fl = ""
      /\ Wfs.writeUrls q
         = [Wfs.wfsUrl
            +:+ "&cql_filter=origintime>='0001-01-01T00:00:00'+AND+origintime<='0001-01-01T00:00:00'+AND+usedphasecount>=0+AND+magnitude>="
            +:+ Sprintf_v_float64 0]).
Proof.
  unfold Main.validate, Main.build_query.
  destruct (Main.check_formats fl); [discriminate |].
  destruct (bool_decide (Main.start fl = "")) eqn:Hs;
    [apply bool_decide_eq_true in Hs | apply bool_decide_eq_false in Hs];
    cbn [orb negb].
  2: destruct (bool_decide (Main.end_ fl = "")) eqn:He;
    [apply bool_decide_eq_true in He | apply bool_decide_eq_false in He];
    cbn [negb].
  3: { destruct (Main.Parse_RFC3339 (Main.start fl)) as [s|]; [| discriminate].
       destruct (Main.Parse_RFC3339 (Main.end_ fl)) as [e|]; [| discriminate].
       destruct (GoTime.After s e) eqn:Hafter; [discriminate |].
       intros [= <-]. left. cbn. tauto. }
  all: assert (Hlone : Main.start fl = "" \/ Main.end_ fl = "") by tauto.
  all: destruct (bool_decide (Main.eventid fl = "")) eqn:Hid;
    [apply bool_decide_eq_true in Hid | apply bool_decide_eq_false in Hid];
    cbn [negb].
  all: try (intros [= <-]; right; right; repeat (split; [assumption |]);
            vm_compute; reflexivity).
  all: destruct (Main.pidr_MatchString (Main.eventid fl)) eqn:Hm; [| discriminate];
    cbn [negb]; intros [= <-]; right; left;
    destruct (pidr_MatchString_bytes _ Hm) as [_ Hbytes];
    repeat (split; [assumption |]);
    (split; [intros Hq; apply Hbytes in Hq; discriminate Hq |]);
    unfold Wfs.writeUrls; rewrite chunks_single by (vm_compute; discriminate);
    unfold Wfs.url, Spec.identifier_request; cbn [map Wfs.EventID];
    (destruct (decide (Main.eventid fl <> "")) as [_ | Hn]; [| now destruct Hn]);
    rewrite ?string_app_assoc; reflexivity.
Qed.

(** The command line of the tests' event id gives the one request for
    it; a command line with a time range is searched by the range,
    whatever it gives as event id. *)
Lemma main_query_modes_witness :
  (exists q, Main.validate (parser := Examples.test_Parser) Examples.id_flags = inr q
     /\ Wfs.writeUrls (fmt := Examples.test_Fmt) q
        = [Wfs.wfsUrl +:+ "&cql_filter=publicid=='2014p562279'"])
  /\ (exists q, Main.validate (parser := Examples.test_Parser) Examples.range_flags = inr q
       /\ Wfs.EventID q = "" /\ Wfs.Start q = Examples.test_start).
Proof.
  split.
  - eexists. split; [reflexivity |].
    destruct (main_query_modes (parser := Examples.test_Parser) (fmt := Examples.test_Fmt)
                Examples.id_flags _ eq_refl) as [H | [H | H]].
    + destruct H as (H & _). now destruct H.
    + destruct H as (_ & _ & _ & _ & H). exact H.
    + destruct H as (_ & H & _). discriminate H.
  - eexists. split; [reflexivity |].
    destruct (main_query_modes (parser := Examples.test_Parser) (fmt := Examples.test_Fmt)
                Examples.range_flags _ eq_refl) as [H | [H | H]].
    + destruct H as (_ & _ & _ & _ & _ & H & _). split; [exact H | reflexivity].
    + destruct H as ([H | H] & _); discriminate H.
    + destruct H as ([H | H] & _); discriminate H.
Defined.

(** ** Calendar years *)

Lemma days_to_march_step (y : Z) :
  Spec.days_to_march (y + 1) - Spec.days_to_march y = 365
  \/ Spec.days_to_march (y + 1) - Spec.days_to_march y = 366.
Proof. unfold Spec.days_to_march. Z.div_mod_to_equations. lia. Qed.

(** The civil date of the day [doy] of the year that starts on March 1
    of the year [y]. *)
Lemma civil_from_days_of_march (y doy : Z) :
  0 <= doy < Spec.days_to_march (y + 1) - Spec.days_to_march y ->
  let mp := (5 * doy + 2) / 153 in
  let d := doy - (153 * mp + 2) / 5 + 1 in
  let m := if mp <? 10 then mp + 3 else mp - 9 in
  GoTime.civil_from_days (Spec.days_to_march y + doy - 719468)
  = (if m <=? 2 then y + 1 else y, m, d).
Proof.
  intros Hdoy. unfold GoTime.civil_from_days.
  replace (Spec.days_to_march y + doy - 719468 + 719468)
    with (Spec.days_to_march y + doy) by lia.
  assert (Hera : (Spec.days_to_march y + doy) / 146097 = y / 400).
  { unfold Spec.days_to_march in *. Z.div_mod_to_equations. lia. }
  rewrite Hera.
  set (doe := Spec.days_to_march y + doy - y / 400 * 146097).
  assert (Hyoe : (doe - doe / 1460 + doe / 36524 - doe / 146096) / 365 = y mod 400).
  { subst doe. unfold Spec.days_to_march in *. Z.div_mod_to_equations. lia. }
  rewrite Hyoe.
  assert (Hday : doe - (365 * (y mod 400) + (y mod 400) / 4 - (y mod 400) / 100) = doy).
  { subst doe. unfold Spec.days_to_march. lia. }
  rewrite Hday. cbv zeta.
  replace (y mod 400 + y / 400 * 400) with y by (Z.div_mod_to_equations; lia).
  reflexivity.
Qed.

Lemma year_of_era_bounds (doe : Z) :
  0 <= doe < 146097 ->
  let yoe := (doe - doe / 1460 + doe / 36524 - doe / 146096) / 365 in
  let doy := doe - (365 * yoe + yoe / 4 - yoe / 100) in
  0 <= yoe <= 399 /\ 0 <= doy
  /\ (yoe = 399 -> doy <= 365)
  /\ (yoe < 399 -> doy < 365 + (yoe + 1) / 4 - yoe / 4 - ((yoe + 1) / 100 - yoe / 100)).
Proof.
  intros Hdoe. cbv zeta.
  set (b := doe / 36524).
  assert (Hb : b = 0 \/ b = 1 \/ b = 2 \/ b = 3 \/ b = 4)
    by (subst b; Z.div_mod_to_equations; lia).
  set (c := doe / 146096).
  assert (Hc : (c = 0 /\ doe < 146096) \/ (c = 1 /\ doe = 146096))
    by (subst c; Z.div_mod_to_equations; lia).
  assert (Hb' : 36524 * b <= doe < 36524 * b + 36524)
    by (subst b; Z.div_mod_to_equations; lia).
  clearbody b c.
  set (yoe := (doe - doe / 1460 + b - c) / 365).
  assert (Hy : 0 <= yoe <= 399) by (subst yoe; Z.div_mod_to_equations; lia).
  split; [exact Hy |].
  destruct Hc as [[-> Hc] | [-> ->]].
  2: { assert (Hb4 : b = 4) by lia. subst b. subst yoe. Z.div_mod_to_equations. lia. }
  destruct Hb as [-> | [-> | [-> | [-> | ->]]]]; [| | | | lia].
  all: subst yoe; Z.div_mod_to_equations; lia.
Qed.

(** Every day is a day of a year that starts on March 1. *)
Lemma civil_from_days_march (z : Z) :
  exists y doy,
    z = Spec.days_to_march y + doy - 719468
    /\ 0 <= doy < Spec.days_to_march (y + 1) - Spec.days_to_march y.
Proof.
  set (z' := z + 719468).
  set (era := z' / 146097).
  set (doe := z' - era * 146097).
  set (yoe := (doe - doe / 1460 + doe / 36524 - doe / 146096) / 365).
  set (doy := doe - (365 * yoe + yoe / 4 - yoe / 100)).
  exists (yoe + era * 400), doy.
  assert (Hdoe : 0 <= doe < 146097) by (subst doe era; Z.div_mod_to_equations; lia).
  pose proof (year_of_era_bounds doe Hdoe) as Hyoe. cbv zeta in Hyoe.
  fold yoe in Hyoe. fold doy in Hyoe. destruct Hyoe as (Hy & H0 & H399 & Hlt).
  assert (Hf : Spec.days_to_march (yoe + era * 400)
               = era * 146097 + 365 * yoe + yoe / 4 - yoe / 100).
  { unfold Spec.days_to_march. clearbody yoe era. clear - Hy. Z.div_mod_to_equations. lia. }
  assert (Hf1 : Spec.days_to_march (yoe + era * 400 + 1)
                = if yoe =? 399 then (era + 1) * 146097
                  else era * 146097 + 365 * (yoe + 1) + (yoe + 1) / 4 - (yoe + 1) / 100).
  { unfold Spec.days_to_march. clearbody yoe era. clear - Hy.
    destruct (yoe =? 399) eqn:E; [apply Z.eqb_eq in E | apply Z.eqb_neq in E];
      Z.div_mod_to_equations; lia. }
  split.
  - rewrite Hf. subst doy doe z'. lia.
  - rewrite Hf1, Hf.
    destruct (yoe =? 399) eqn:E; [apply Z.eqb_eq in E | apply Z.eqb_neq in E].
    + specialize (H399 E). clearbody doy. rewrite E. Z.div_mod_to_equations. lia.
    + assert (Hyoe : yoe < 399) by lia. specialize (Hlt Hyoe). lia.
Qed.

Lemma days_from_civil_of_march (y doy : Z) :
  0 <= doy <= 365 ->
  let mp := (5 * doy + 2) / 153 in
  let d := doy - (153 * mp + 2) / 5 + 1 in
  let m := if mp <? 10 then mp + 3 else mp - 9 in
  GoTime.days_from_civil (if m <=? 2 then y + 1 else y) m d
  = Spec.days_to_march y + doy - 719468.
Proof.
  intros Hdoy. cbv zeta.
  set (mp := (5 * doy + 2) / 153).
  assert (Hmp : 0 <= mp <= 11) by (subst mp; Z.div_mod_to_equations; lia).
  unfold GoTime.days_from_civil.
  destruct (mp <? 10) eqn:E; [apply Z.ltb_lt in E | apply Z.ltb_ge in E].
  - destruct (mp + 3 <=? 2) eqn:E2; [apply Z.leb_le in E2; lia |].
    replace (mp + 3 - 3) with mp by lia. unfold Spec.days_to_march.
    replace (y - y / 400 * 400) with (y mod 400) by (Z.div_mod_to_equations; lia). lia.
  - destruct (mp - 9 <=? 2) eqn:E2; [| apply Z.leb_gt in E2; lia].
    replace (mp - 9 + 9) with mp by lia. replace (y + 1 - 1) with y by lia.
    unfold Spec.days_to_march.
    replace (y - y / 400 * 400) with (y mod 400) by (Z.div_mod_to_equations; lia). lia.
Qed.

(** The day with the date of the day [z] in the following year: 365
    or 366 days later; it has the same month and day, but for
    February 29, which becomes March 1. *)
Lemma year_later (z : Z) :
  let '(y, m, d) := GoTime.civil_from_days z in
  let z' := GoTime.days_from_civil (y + 1) m d in
  (z' - z = 365 \/ z' - z = 366)
  /\ (GoTime.civil_from_days z' = (y + 1, m, d)
      \/ (m = 2 /\ d = 29 /\ GoTime.civil_from_days z' = (y + 1, 3, 1))).
Proof.
  destruct (civil_from_days_march z) as (Y & doy & -> & Hdoy).
  pose proof (days_to_march_step Y) as HY.
  pose proof (days_to_march_step (Y + 1)) as HY1.
  pose proof (days_to_march_step (Y + 1 + 1)) as HY2.
  rewrite civil_from_days_of_march by exact Hdoy.
  cbv beta iota zeta.
  set (mp := (5 * doy + 2) / 153).
  set (d := doy - (153 * mp + 2) / 5 + 1).
  set (m := if mp <? 10 then mp + 3 else mp - 9).
  assert (Hdays : GoTime.days_from_civil ((if m <=? 2 then Y + 1 else Y) + 1) m d
                  = Spec.days_to_march (Y + 1) + doy - 719468).
  { pose proof (days_from_civil_of_march (Y + 1) doy) as H. cbv zeta in H.
    fold mp in H. fold d in H. fold m in H.
    rewrite <- H by lia. destruct (m <=? 2); reflexivity. }
  rewrite Hdays. split; [lia |].
  destruct (Z_lt_dec doy (Spec.days_to_march (Y + 1 + 1) - Spec.days_to_march (Y + 1)))
    as [Hlt | Hge].
  - left. rewrite (civil_from_days_of_march (Y + 1) doy) by lia.
    cbv zeta. fold mp. fold d. fold m. destruct (m <=? 2); reflexivity.
  - right. assert (Hlast : doy = 365) by lia.
    replace (Spec.days_to_march (Y + 1) + doy - 719468)
      with (Spec.days_to_march (Y + 1 + 1) + 0 - 719468) by lia.
    rewrite (civil_from_days_of_march (Y + 1 + 1) 0) by lia.
    assert (Hmp : mp = 11) by (subst mp doy; reflexivity).
    assert (Hm : m = 2) by (subst m; rewrite Hmp; reflexivity).
    assert (Hd : d = 29) by (subst d; rewrite Hmp, Hlast; reflexivity).
    rewrite Hm, Hd. repeat split.
Qed.

(** [t.AddDate(1, 0, 0)]: the instant with the same clock reading, in
    the same location, on the day with the date of [t] in the
    following year. *)
Lemma AddDate_year (t : GoTime.Time) :
  let t' := GoTime.AddDate t 1 0 0 in
  GoTime.zoneOffset t' = GoTime.zoneOffset t
  /\ GoTime.nsec t' = GoTime.nsec t
  /\ (GoTime.unixSec t' - GoTime.unixSec t = 365 * 86400
      \/ GoTime.unixSec t' - GoTime.unixSec t = 366 * 86400)
  /\ GoTime.Year t' = GoTime.Year t + 1
  /\ ((GoTime.Month t' = GoTime.Month t /\ GoTime.Day t' = GoTime.Day t)
      \/ (GoTime.Month t = 2 /\ GoTime.Day t = 29
          /\ GoTime.Month t' = 3 /\ GoTime.Day t' = 1))
  /\ GoTime.Hour t' = GoTime.Hour t
  /\ GoTime.Minute t' = GoTime.Minute t
  /\ GoTime.Second t' = GoTime.Second t.
Proof.
  cbv zeta.
  pose proof (year_later (GoTime.abs t / 86400)) as Hlater.
  pose proof (civil_from_days_range (GoTime.abs t / 86400)) as [Hmonth _].
  assert (Hdate : GoTime.AddDate t 1 0 0
                  = GoTime.mkTime
                      (GoTime.days_from_civil (GoTime.Year t + 1) (GoTime.Month t) (GoTime.Day t)
                         * 86400 + GoTime.abs t mod 86400 - GoTime.zoneOffset t)
                      (GoTime.nsec t) (GoTime.zoneOffset t)).
  { unfold GoTime.AddDate, GoTime.Date. f_equal.
    unfold GoTime.Month, GoTime.Date_of in *.
    replace ((snd (fst (GoTime.civil_from_days (GoTime.abs t / 86400))) + 0 - 1) / 12)
      with 0 by (Z.div_mod_to_equations; lia).
    replace ((snd (fst (GoTime.civil_from_days (GoTime.abs t / 86400))) + 0 - 1) mod 12 + 1)
      with (snd (fst (GoTime.civil_from_days (GoTime.abs t / 86400))))
      by (Z.div_mod_to_equations; lia).
    rewrite !Z.add_0_r.
    unfold GoTime.Hour, GoTime.Minute, GoTime.Second.
    Z.div_mod_to_equations. lia. }
  rewrite Hdate. clear Hdate.
  unfold GoTime.Year, GoTime.Month, GoTime.Day, GoTime.Hour, GoTime.Minute, GoTime.Second,
    GoTime.Date_of in *.
  destruct (GoTime.civil_from_days (GoTime.abs t / 86400)) as [[y m] d]. cbn [fst snd] in *.
  set (z' := GoTime.days_from_civil (y + 1) m d) in *.
  destruct Hlater as [Hdays Hcivil].
  set (t' := GoTime.mkTime _ _ _).
  assert (Habs : GoTime.abs t' = GoTime.abs t mod 86400 + z' * 86400)
    by (unfold t'; unfold GoTime.abs at 1; cbn [GoTime.unixSec GoTime.zoneOffset]; lia).
  pose proof (Z.mod_pos_bound (GoTime.abs t) 86400 eq_refl) as Hclock.
  assert (Hday : GoTime.abs t' / 86400 = z')
    by (rewrite Habs, Z.div_add by lia; rewrite Z.div_small by lia; lia).
  rewrite Hday, Habs.
  repeat apply conj; try reflexivity.
  - subst t'. cbn [GoTime.unixSec]. unfold GoTime.abs in *. clearbody z'.
    destruct Hdays; [left | right]; Z.div_mod_to_equations; lia.
  - destruct Hcivil as [-> | (_ & _ & ->)]; reflexivity.
  - destruct Hcivil as [-> | (-> & -> & ->)]; [left | right]; repeat split.
  - rewrite Z.mod_add by lia. now rewrite Z.mod_mod by lia.
  - f_equal. clearbody z'. clear. Z.div_mod_to_equations. lia.
  - clearbody z'. clear. Z.div_mod_to_equations. lia.
Qed.

(** ** The ranges of the chunks *)

Lemma After_false (a b : GoTime.Time) :
  GoTime.After a b = false
  <-> GoTime.unixSec a < GoTime.unixSec b
      \/ (GoTime.unixSec a = GoTime.unixSec b /\ GoTime.nsec a <= GoTime.nsec b).
Proof.
  unfold GoTime.After. rewrite orb_false_iff, andb_false_iff.
  rewrite !Z.ltb_ge, Z.eqb_neq. lia.
Qed.

Lemma After_false_trans (a b c : GoTime.Time) :
  GoTime.After a b = false -> GoTime.After b c = false -> GoTime.After a c = false.
Proof. rewrite !After_false. lia. Qed.

Lemma After_false_total (a b : GoTime.Time) :
  GoTime.After a b = false \/ GoTime.After b a = false.
Proof. rewrite !After_false. lia. Qed.

Lemma plus_years_facts (t : GoTime.Time) (i : nat) :
  let s := Spec.plus_years t i in
  GoTime.Year s = GoTime.Year t + Z.of_nat i
  /\ GoTime.zoneOffset s = GoTime.zoneOffset t
  /\ GoTime.nsec s = GoTime.nsec t
  /\ GoTime.Hour s = GoTime.Hour t
  /\ GoTime.Minute s = GoTime.Minute t
  /\ GoTime.Second s = GoTime.Second t.
Proof.
  induction i as [|i IH]; cbv zeta in *.
  - cbn [Spec.plus_years Nat.iter nat_rect]. repeat split. lia.
  - rewrite plus_years_S.
    pose proof (AddDate_year (Spec.plus_years t i)) as Hyear. cbv zeta in Hyear.
    destruct Hyear as (-> & -> & _ & -> & _ & -> & -> & ->).
    destruct IH as (-> & -> & -> & -> & -> & ->). repeat split. lia.
Qed.

Lemma plus_years_later (t : GoTime.Time) (i : nat) :
  GoTime.After (Spec.plus_years t i) (Spec.plus_years t (S i)) = false.
Proof.
  rewrite plus_years_S. apply After_false.
  pose proof (AddDate_year (Spec.plus_years t i)) as Hyear. cbv zeta in Hyear. lia.
Qed.

Lemma plus_years_mono (t : GoTime.Time) (i j : nat) :
  (i <= j)%nat -> GoTime.After (Spec.plus_years t i) (Spec.plus_years t j) = false.
Proof.
  induction 1 as [|j _ IH].
  - apply After_false. lia.
  - eapply After_false_trans; [exact IH | apply plus_years_later].
Qed.

(** An instant between the start and the start advanced by [n] years
    lies in one of the [n] years. *)
Lemma plus_years_cover (t s : GoTime.Time) (n : nat) :
  (0 < n)%nat ->
  Spec.within t s (Spec.plus_years s n) ->
  exists i, (i < n)%nat /\ Spec.within t (Spec.plus_years s i) (Spec.plus_years s (S i)).
Proof.
  induction n as [|n IH]; [lia |]. intros _ [Hfrom Hto].
  destruct n as [|n]; [exists 0%nat; split; [lia | now split] |].
  destruct (After_false_total (Spec.plus_years s (S n)) t) as [Hlast | Hbefore].
  - exists (S n). split; [lia | now split].
  - destruct IH as (i & Hi & Hin); [lia | now split |].
    exists i. split; [lia | exact Hin].
Qed.

(** The chunks in terms of the calendar, for a start in UTC or at a
    fixed offset, which is what a time is here; the machine's local
    zone, in which a year later can be at another offset, is left out.
    Each chunk starts a whole number of years after the start of the
    query, at the same reading of the clock and at the same offset. A
    chunk before the last ends 365 or 366 days after its start, in the
    following year. The last chunk ends with the query and, when the
    end's year is not before the start's, starts in the end's year. *)
Theorem year_chunks_are_years (q : Wfs.Query) (i : nat) (c : Wfs.Query) :
  Wfs.chunks q !! i = Some c ->
  GoTime.Year (Wfs.Start c) = GoTime.Year (Wfs.Start q) + Z.of_nat i
  /\ GoTime.zoneOffset (Wfs.Start c) = GoTime.zoneOffset (Wfs.Start q)
  /\ GoTime.nsec (Wfs.Start c) = GoTime.nsec (Wfs.Start q)
  /\ GoTime.Hour (Wfs.Start c) = GoTime.Hour (Wfs.Start q)
  /\ GoTime.Minute (Wfs.Start c) = GoTime.Minute (Wfs.Start q)
  /\ GoTime.Second (Wfs.Start c) = GoTime.Second (Wfs.Start q)
  /\ ((i < Z.to_nat (Wfs.years q))%nat ->
      GoTime.Year (Wfs.End_ c) = GoTime.Year (Wfs.Start c) + 1
      /\ (GoTime.unixSec (Wfs.End_ c) - GoTime.unixSec (Wfs.Start c) = 365 * 86400
          \/ GoTime.unixSec (Wfs.End_ c) - GoTime.unixSec (Wfs.Start c) = 366 * 86400)
      /\ GoTime.nsec (Wfs.End_ c) = GoTime.nsec (Wfs.Start c))
  /\ (i = Z.to_nat (Wfs.years q) ->
      Wfs.End_ c = Wfs.End_ q
      /\ (0 <= Wfs.years q -> GoTime.Year (Wfs.Start c) = GoTime.Year (Wfs.End_ q))).
Proof.
  rewrite chunks_expected, expected_chunks_lookup. intros Hc.
  assert (Hstart : Wfs.Start c = Spec.plus_years (Wfs.Start q) i).
  { repeat case_decide; simplify_eq; reflexivity. }
  pose proof (plus_years_facts (Wfs.Start q) i) as Hfacts. cbv zeta in Hfacts.
  rewrite <- Hstart in Hfacts.
  destruct Hfacts as (HY & Hzone & Hns & Hh & Hm & Hs).
  repeat (split; [assumption |]). split.
  - intros Hi. case_decide; [| lia]. simplify_eq. cbn [Spec.year_chunk Spec.with_range Wfs.Start Wfs.End_].
    rewrite plus_years_S.
    pose proof (AddDate_year (Spec.plus_years (Wfs.Start q) i)) as Hyear. cbv zeta in Hyear.
    tauto.
  - intros ->. case_decide; [lia |]. case_decide; [| congruence]. simplify_eq.
    split; [reflexivity |]. intros Hy. rewrite HY. unfold Wfs.years in *. lia.
Qed.

(** The first chunk of the range over two year boundaries runs from
    January 27 of 2012, a leap year, for 366 days. *)
Lemma year_chunks_are_years_witness :
  exists c, Wfs.chunks Examples.two_year_query !! 0%nat = Some c
    /\ GoTime.Year (Wfs.Start c) = 2012
    /\ GoTime.Year (Wfs.End_ c) = 2013
    /\ GoTime.unixSec (Wfs.End_ c) - GoTime.unixSec (Wfs.Start c) = 366 * 86400.
Proof.
  eexists. split; [reflexivity |].
  destruct (year_chunks_are_years Examples.two_year_query 0 _ eq_refl)
    as (HY & _ & _ & _ & _ & _ & Hyear & _).
  destruct Hyear as (HY' & _ & _); [vm_compute; lia |].
  split; [exact HY |]. split; [rewrite HY', HY; reflexivity |]. reflexivity.
Defined.

(** The ranges of the chunks, taken together. An instant lies in the
    range of some chunk exactly when it lies in the range of the query
    or, for a range whose end is in a later year than its start,
    between the start and the start advanced to the end's year; so no
    instant of the range is left out, and the instants after the end up
    to the advanced start are in the range of a chunk as well. *)
Theorem chunks_window (q : Wfs.Query) (t : GoTime.Time) :
  (exists c, c ∈ Wfs.chunks q /\ Spec.within t (Wfs.Start c) (Wfs.End_ c))
  <-> Spec.within t (Wfs.Start q) (Wfs.End_ q)
      \/ (0 < Wfs.years q
          /\ Spec.within t (Wfs.Start q)
                         (Spec.plus_years (Wfs.Start q) (Z.to_nat (Wfs.years q)))).
Proof.
  rewrite chunks_expected. unfold Spec.expected_chunks.
  set (n := Z.to_nat (Wfs.years q)). split.
  - intros (c & Hc & Hfrom & Hto). apply elem_of_app in Hc. destruct Hc as [Hc | Hc].
    + apply list_elem_of_fmap in Hc. destruct Hc as (i & -> & Hi).
      apply elem_of_seq in Hi.
      cbn [Spec.year_chunk Spec.with_range Wfs.Start Wfs.End_] in Hfrom, Hto. right. split; [lia |]. split.
      * eapply After_false_trans; [| exact Hfrom]. apply plus_years_mono with (i := 0%nat). lia.
      * eapply After_false_trans; [exact Hto |]. apply plus_years_mono. lia.
    + apply list_elem_of_singleton in Hc. subst c.
      cbn [Spec.last_chunk Spec.with_range Wfs.Start Wfs.End_] in Hfrom, Hto. left. split; [| exact Hto].
      eapply After_false_trans; [| exact Hfrom]. apply plus_years_mono with (i := 0%nat). lia.
  - assert (Hyears : forall i, (i < n)%nat ->
              Spec.within t (Spec.plus_years (Wfs.Start q) i)
                          (Spec.plus_years (Wfs.Start q) (S i)) ->
              exists c, c ∈ map (Spec.year_chunk q) (seq 0 n) ++ [Spec.last_chunk q n]
                /\ Spec.within t (Wfs.Start c) (Wfs.End_ c)).
    { intros i Hi Hin. exists (Spec.year_chunk q i). split; [| exact Hin].
      apply elem_of_app. left. apply list_elem_of_fmap. exists i. split; [reflexivity |].
      apply elem_of_seq. lia. }
    intros [[Hfrom Hto] | [Hy Hin]].
    + destruct (After_false_total (Spec.plus_years (Wfs.Start q) n) t) as [Hlast | Hbefore].
      * exists (Spec.last_chunk q n). split; [| now split].
        apply elem_of_app. right. now apply list_elem_of_singleton.
      * destruct n as [|n'] eqn:Hn.
        { exists (Spec.last_chunk q 0). split; [| now split].
          apply elem_of_app. right. now apply list_elem_of_singleton. }
        destruct (plus_years_cover t (Wfs.Start q) (S n')) as (i & Hi & Hin);
          [lia | now split |]. eauto.
    + destruct (plus_years_cover t (Wfs.Start q) n) as (i & Hi & Hi'); [lia | exact Hin |].
      eauto.
Qed.

(** The range from June 2013 to January 15 of 2014 is searched up to
    June 2014: March 1 of 2014 is after the end of the range and in the
    range of a chunk. *)
Lemma chunks_window_witness :
  GoTime.After Examples.after_overrun (Wfs.End_ Examples.overrun_query) = true
  /\ exists c, c ∈ Wfs.chunks Examples.overrun_query
       /\ Spec.within Examples.after_overrun (Wfs.Start c) (Wfs.End_ c).
Proof.
  split; [reflexivity |].
  apply (chunks_window Examples.overrun_query Examples.after_overrun).
  right. vm_compute. repeat split.
Defined.

(** ** The blocks of a decoded event *)

(** The event of a document that [unmarshal] returns without error. *)
Lemma quakeml_unmarshal_linked {xml : Quakeml12.Xml} (b : string) (e : Quakeml12.Event) :
  Quakeml12.unmarshal b = Returns (e, None) ->
  exists e0 i o,
    index_by Quakeml12.OriginPublicID (Quakeml12.O e0) !! Quakeml12.PreferredOriginID e0 = Some i
    /\ Quakeml12.O e0 !! i = Some o
    /\ e = Quakeml12.mkEvent
             (Quakeml12.PreferredOriginID e0) (Quakeml12.PreferredMagnitudeID e0)
             (<[i := Quakeml12.set_Arrivals o
                       (map (fun a => Quakeml12.set_Pick a
                                        (value_by Quakeml12.PickPublicID (Quakeml12.P e0)
                                           !! Quakeml12.PickID a))
                            (Quakeml12.Arrivals o))]> (Quakeml12.O e0))
             (Quakeml12.M e0) (Quakeml12.P e0)
             (index_by Quakeml12.OriginPublicID (Quakeml12.O e0))
             (value_by Quakeml12.PickPublicID (Quakeml12.P e0))
             (value_by Quakeml12.MagnitudePublicID (Quakeml12.M e0))
             (Some i)
             (value_by Quakeml12.MagnitudePublicID (Quakeml12.M e0)
                !! Quakeml12.PreferredMagnitudeID e0).
Proof.
  unfold Quakeml12.unmarshal.
  destruct (Quakeml12.xml_Unmarshal b) as [q [err|]]; [discriminate |].
  unfold Quakeml12.init.
  set (e0 := Quakeml12.Event_ (Quakeml12.EventParameters_ q)).
  repeat case_decide; try discriminate.
  destruct (index_by Quakeml12.OriginPublicID (Quakeml12.O e0) !! Quakeml12.PreferredOriginID e0)
    as [i|] eqn:Hi; cbn; [| discriminate].
  destruct (Quakeml12.O e0 !! i) as [o|] eqn:Ho; cbn; [| discriminate].
  intros [= <-]. exists e0, i, o. repeat split; assumption.
Qed.

(** The arrivals block of [main] for an event that [unmarshal] has
    returned without error. The preferred origin is set and has the
    preferred-origin id. The block panics exactly when an arrival of
    the preferred origin names a pick that the document does not hold;
    otherwise it has one row for each arrival of the preferred
    origin. *)
Theorem arrivals_block_of_decoded {fmt : Fmt} {xml : Quakeml12.Xml}
    (b eid : string) (e : Quakeml12.Event) :
  Quakeml12.unmarshal b = Returns (e, None) ->
  exists i o,
    Quakeml12.PreferredOrigin e = Some i
    /\ Quakeml12.O e !! i = Some o
    /\ Quakeml12.OriginPublicID o = Quakeml12.PreferredOriginID e
    /\ (Main.arrival_rows eid e = Panics
        <-> exists a, a ∈ Quakeml12.Arrivals o
              /\ ~ Spec.resolves Quakeml12.PickPublicID (Quakeml12.P e) (Quakeml12.PickID a))
    /\ (forall rows, Main.arrival_rows eid e = Returns rows ->
          length rows = length (Quakeml12.Arrivals o)
          /\ Forall (fun row => row !! "EventID" = Some eid) rows).
Proof.
  intros Hb. destruct (quakeml_unmarshal_linked b e Hb) as (e0 & i & o0 & Hi & Ho & ->).
  destruct (index_by_lookup_Some _ _ _ _ Hi) as (o' & Ho' & Hkey).
  assert (o' = o0) by congruence. subst o'.
  set (arrivals := map _ (Quakeml12.Arrivals o0)) in *.
  set (o := Quakeml12.set_Arrivals o0 arrivals) in *.
  assert (Hlookup : <[i := o]> (Quakeml12.O e0) !! i = Some o)
    by (apply list_lookup_insert_eq; eapply lookup_lt_Some, Ho).
  exists i, o. cbn [Quakeml12.PreferredOrigin Quakeml12.O Quakeml12.P
                    Quakeml12.PreferredOriginID].
  split; [reflexivity |]. split; [exact Hlookup |]. split; [exact Hkey |].
  unfold Main.arrival_rows, Main.preferred_ArrivalMap.
  cbn [Quakeml12.PreferredOrigin Quakeml12.O mbind option_bind]. rewrite Hlookup.
  unfold Quakeml12.ArrivalMap.
  change (Quakeml12.Arrivals o) with arrivals.
  assert (Hnone : Exists (fun a => Quakeml12.Pick_ a = None) arrivals
                  <-> exists a, a ∈ arrivals
                        /\ ~ Spec.resolves Quakeml12.PickPublicID (Quakeml12.P e0)
                                           (Quakeml12.PickID a)).
  { rewrite Exists_exists. subst arrivals. split.
    - intros (a & Ha & Hp). exists a. split; [exact Ha |].
      apply list_elem_of_fmap in Ha. destruct Ha as (a0 & -> & _).
      cbn in Hp |- *. now apply value_by_lookup_None.
    - intros (a & Ha & Hp). exists a. split; [exact Ha |].
      apply list_elem_of_fmap in Ha. destruct Ha as (a0 & -> & _).
      cbn in Hp |- *. now apply value_by_lookup_None. }
  destruct (decide (Exists (fun a => Quakeml12.Pick_ a = None) arrivals)) as [Hex | Hall].
  - rewrite (quakeml_ArrivalMap_loop_nil o arrivals Hex). cbn. split.
    + split; [intros _; now apply Hnone | reflexivity].
    + discriminate.
  - assert (Hsome : Forall (fun a => is_Some (Quakeml12.Pick_ a)) arrivals).
    { apply Forall_forall. intros a Ha. destruct (Quakeml12.Pick_ a) eqn:Hp; [eauto |].
      destruct Hall. apply Exists_exists. eauto. }
    destruct (quakeml_ArrivalMap_loop_rows o arrivals Hsome) as (rows & -> & Hrows).
    cbn. split.
    + split; [discriminate |]. intros Hbad. destruct Hall. now apply Hnone.
    + intros rows' [= <-]. rewrite length_map. split.
      * symmetry. eapply Forall2_length, Hrows.
      * apply Forall_forall. intros row Hrow. apply list_elem_of_fmap in Hrow.
        destruct Hrow as (v & -> & _). apply lookup_insert_eq.
Qed.

(** The complete test document names the pick [p9], which it does not
    hold: it is decoded without error, and its arrivals block panics. *)
Lemma arrivals_block_of_decoded_witness :
  exists e,
    Quakeml12.unmarshal (xml := Examples.test_qml_Xml) "" = Returns (e, None)
    /\ Main.arrival_rows (fmt := Examples.test_Fmt) "2014p072856" e = Panics.
Proof.
  eexists. split; [reflexivity |].
  destruct (arrivals_block_of_decoded (fmt := Examples.test_Fmt) (xml := Examples.test_qml_Xml)
              "" "2014p072856" _ eq_refl) as (i & o & Hi & Ho & _ & Hpanic & _).
  apply Hpanic. injection Hi as <-. injection Ho as <-.
  exists (Examples.qml_arrival "p9" None). split.
  - right. left.
  - intros (p & Hp & Hid). apply list_elem_of_singleton in Hp. subst p. discriminate Hid.
Defined.

Lemma value_by_lookup_last {A} (key : A -> string) (l : list A) (id : string) :
  value_by key l !! id = last (filter (fun x => key x = id) l).
Proof.
  induction l as [|x l IH] using rev_ind; [reflexivity |].
  rewrite value_by_snoc, filter_app.
  destruct (decide (key x = id)) as [Hid | Hid].
  - rewrite Hid, lookup_insert_eq.
    rewrite (filter_cons_True _ x []) by assumption.
    rewrite filter_nil. now rewrite last_snoc.
  - rewrite lookup_insert_ne by assumption.
    rewrite (filter_cons_False _ x []) by assumption.
    rewrite filter_nil, app_nil_r. exact IH.
Qed.

Lemma value_by_dom {A} (key : A -> string) (l : list A) :
  dom (value_by key l) = list_to_set (key <$> l).
Proof.
  induction l as [|x l IH] using rev_ind; [apply dom_empty_L |].
  rewrite value_by_snoc, dom_insert_L, IH, fmap_app, list_to_set_app_L.
  cbn. rewrite (right_id_L ∅ (∪)). apply (comm_L (∪)).
Qed.

Lemma value_by_size {A} (key : A -> string) (l : list A) :
  size (value_by key l) = length (remove_dups (key <$> l)).
Proof.
  rewrite <- size_dom, value_by_dom.
  rewrite <- (size_list_to_set (C := gset string) (remove_dups (key <$> l)))
    by apply NoDup_remove_dups.
  f_equal. apply set_eq. intros k. rewrite !elem_of_list_to_set.
  symmetry. apply elem_of_remove_dups.
Qed.

(** The picks block of [main] for an event that [unmarshal] has
    returned without error: one row for each pick id of the document,
    the row of the last pick with that id, whether an arrival names
    the pick or not. *)
Theorem picks_block_of_decoded {xml : Quakeml12.Xml} (b eid : string) (e : Quakeml12.Event) :
  Quakeml12.unmarshal b = Returns (e, None) ->
  (forall id, Quakeml12.Picks e !! id
              = last (filter (fun p => Quakeml12.PickPublicID p = id) (Quakeml12.P e)))
  /\ length (Main.pick_rows [(eid, e)])
     = length (remove_dups (Quakeml12.PickPublicID <$> Quakeml12.P e))
  /\ (forall row, row ∈ Main.pick_rows [(eid, e)]
      <-> exists p, Quakeml12.Picks e !! Quakeml12.PickPublicID p = Some p
            /\ row = <["EventID" := eid]> (Quakeml12.pick_row p)).
Proof.
  intros Hb. destruct (quakeml_unmarshal_linked b e Hb) as (e0 & i & o0 & Hi & Ho & ->).
  clear Hb. cbn [Quakeml12.Picks Quakeml12.P].
  unfold Main.pick_rows. cbn [flat_map]. rewrite app_nil_r.
  unfold Quakeml12.PickMap. cbn [Quakeml12.Picks].
  set (picks := value_by Quakeml12.PickPublicID (Quakeml12.P e0)).
  split; [intros id; apply value_by_lookup_last |]. split.
  - rewrite !length_map, length_map_to_list. apply value_by_size.
  - intros row. rewrite list_elem_of_fmap. split.
    + intros (v & -> & Hv). apply list_elem_of_fmap in Hv.
      destruct Hv as ([id p] & -> & Hp). apply elem_of_map_to_list in Hp.
      exists p. split; [| reflexivity].
      destruct (value_by_lookup_Some _ _ _ _ Hp) as [_ Hkey]. cbn. now rewrite Hkey.
    + intros (p & Hp & ->). exists (Quakeml12.pick_row p). split; [reflexivity |].
      apply list_elem_of_fmap. exists (Quakeml12.PickPublicID p, p).
      split; [reflexivity |]. now apply elem_of_map_to_list.
Qed.

(** The test document has one pick, and its picks block one row. *)
Lemma picks_block_of_decoded_witness :
  exists e,
    Quakeml12.unmarshal (xml := Examples.test_qml_Xml) "" = Returns (e, None)
    /\ length (Main.pick_rows [("2014p072856", e)]) = 1%nat.
Proof.
  eexists. split; [reflexivity |].
  destruct (picks_block_of_decoded (xml := Examples.test_qml_Xml) "" "2014p072856" _ eq_refl)
    as (_ & Hlen & _).
  rewrite Hlen. reflexivity.
Defined.

(** ** From the rows of the search to the details of the quakes *)

Lemma event_row_EventID {fmt : Fmt} (p : string) (ft : Wfs.Feature) :
  Main.at_key (Wfs.event_row p ft) "EventID" = p.
Proof.
  unfold Main.at_key, Wfs.event_row.
  rewrite !lookup_insert_ne by discriminate. now rewrite lookup_insert_eq.
Qed.

Lemma Get_of_event_ids {fmt : Fmt} (f : gmap string Wfs.Feature) :
  Main.event_ids (map (fun '(p, ft) => Wfs.event_row p ft) (map_to_list f))
  = (map_to_list f).*1.
Proof.
  unfold Main.event_ids. rewrite map_map. apply map_ext.
  intros [p ft]. apply event_row_EventID.
Qed.

(** From the search to the details. The rows of [wfs.Get] are one for
    each quake of the search, and their [EventID]s, which [main] hands
    to [quakeml12.Get], are the public ids of the search, each once.
    So, whenever [quakeml12.Get] returns, the number of quakes that
    [main] reports as failed is the number of quakes of the search
    whose fetch, decoding or linking gave an error, and each quake with
    details is a quake of the search. *)
Theorem quake_details_count {fmt : Fmt} {xml : Quakeml12.Xml} {client : Http.Client}
    (f : gmap string Wfs.Feature) (quakes : list (gmap string string))
    (rs : list Quakeml12.result) (quakeml : gmap string Quakeml12.Event)
    (log : list string) :
  Wfs.Get_of (Some f, None) = (Some quakes, None) ->
  Quakeml12.Get_run (Quakeml12.Get_start (Main.event_ids quakes)) rs (Returned quakeml log) ->
  length quakes = size f
  /\ NoDup (Main.event_ids quakes)
  /\ (forall id, id ∈ Main.event_ids quakes <-> is_Some (f !! id))
  /\ (forall id, is_Some (quakeml !! id) -> is_Some (f !! id))
  /\ (size quakeml <= length quakes)%nat
  /\ (length quakes - size quakeml)%nat
     = length (filter (fun id => Spec.fetch_fails Quakeml12.fetcher Quakeml12.err id)
                      (Main.event_ids quakes)).
Proof.
  unfold Wfs.Get_of. cbn [fst snd default]. intros [= <-].
  rewrite Get_of_event_ids. intros Hrun.
  assert (Hids : forall id, id ∈ (map_to_list f).*1 <-> is_Some (f !! id)).
  { intros id. rewrite list_elem_of_fmap. split.
    - intros ([k x] & -> & Hkx). apply elem_of_map_to_list in Hkx. cbn. eauto.
    - intros [x Hx]. exists (id, x). split; [reflexivity |]. now apply elem_of_map_to_list. }
  pose proof (NoDup_fst_map_to_list f) as Hnodup.
  destruct (keyed_get_returns Quakeml12.numDownloaders Quakeml12.fetcher Quakeml12.Get_consume
              Quakeml12.publicID Quakeml12.event Quakeml12.err
              quakeml_fetcher_publicID quakeml_Get_consume_keep _ _ _ _ Hrun)
    as (Hmap & Hsize & _).
  specialize (Hsize Hnodup).
  assert (Hlen : length (map (fun '(p, ft) => Wfs.event_row p ft) (map_to_list f))
                 = length (map_to_list f).*1) by now rewrite !length_map.
  pose proof (length_filter (fun id => Spec.fetch_fails Quakeml12.fetcher Quakeml12.err id)
                (map_to_list f).*1) as Hfilter.
  repeat apply conj.
  - now rewrite length_map, length_map_to_list.
  - exact Hnodup.
  - exact Hids.
  - intros id [ev Hev]. apply Hids. now apply Hmap in Hev.
  - rewrite Hlen, Hsize. lia.
  - rewrite Hlen, Hsize. lia.
Qed.

(** One quake found, and no details for it from the server that
    answers 404: one quake is reported as failed. *)
Lemma quake_details_count_witness :
  exists quakes,
    Wfs.Get_of (fmt := Examples.test_Fmt) (Some Examples.gap_search, None) = (Some quakes, None)
    /\ (length quakes - size (∅ : gmap string Quakeml12.Event))%nat = 1%nat.
Proof.
  eexists. split; [reflexivity |].
  destruct (quake_details_count (fmt := Examples.test_Fmt) (xml := Examples.test_qml_Xml)
              (client := Examples.not_found_client)
              Examples.gap_search _ _ _ _ eq_refl quakeml_Get_not_found_run)
    as (Hlen & _).
  rewrite Hlen. reflexivity.
Defined.

(** ** The fields of a line of output *)

Lemma Split_length (s : string) (sep : ascii) :
  length (Strings.Split s sep) = S (Spec.count_byte sep s).
Proof.
  induction s as [|c s IH]; [reflexivity |].
  cbn [Strings.Split Spec.count_byte].
  destruct (Split_cons s sep) as (piece & pieces & Hs). rewrite Hs in *.
  destruct (Ascii.eqb c sep); cbn [length] in *; lia.
Qed.

Lemma count_byte_app (c : ascii) (s t : string) :
  Spec.count_byte c (s +:+ t) = (Spec.count_byte c s + Spec.count_byte c t)%nat.
Proof.
  induction s as [|d s IH]; [reflexivity |].
  rewrite string_app_cons. cbn [Spec.count_byte]. rewrite IH. lia.
Qed.

Lemma count_byte_Join (sep : ascii) (piece : string) (pieces : list string) :
  Spec.count_byte sep (Strings.Join (piece :: pieces) (String sep EmptyString))
  = (length pieces + list_sum (map (Spec.count_byte sep) (piece :: pieces)))%nat.
Proof.
  unfold Strings.Join. revert piece.
  induction pieces as [|next pieces IH]; intros piece.
  - cbn. lia.
  - rewrite concat_cons_cons, !count_byte_app, IH.
    cbn [Spec.count_byte map list_sum fold_right length]. rewrite Ascii.eqb_refl. lia.
Qed.

Lemma count_byte_zero (c : ascii) (s : string) :
  Spec.count_byte c s = 0%nat <-> ~ Spec.has_byte c s.
Proof.
  induction s as [|d s IH]; cbn; [tauto |].
  destruct (Ascii.eqb d c) eqn:Hd.
  - apply Ascii.eqb_eq in Hd. split; [discriminate | tauto].
  - apply Ascii.eqb_neq in Hd. cbn. rewrite IH. tauto.
Qed.

(** A line of output, split at the commas. It has a field for each
    column of the format and one more for each comma in a value. When
    no value has a comma, the fields are the values of the columns, in
    the order of the format. *)
Theorem output_line_fields (f : string) (v : gmap string string) :
  let oF := Strings.Split f "," in
  length (Strings.Split (Main.output_line oF v) ",")
  = (length oF + list_sum (map (fun n => Spec.count_byte "," (Main.at_key v n)) oF))%nat
  /\ (Forall (fun n => ~ Spec.has_byte "," (Main.at_key v n)) oF ->
      Strings.Split (Main.output_line oF v) "," = map (Main.at_key v) oF).
Proof.
  cbv zeta. destruct (Split_cons f ",") as (n & oF & ->).
  unfold Main.output_line. split.
  - rewrite Split_length. cbn [map]. rewrite count_byte_Join.
    cbn [length map list_sum fold_right]. rewrite length_map, map_map. lia.
  - intros Hall. apply Split_of_Join; [discriminate |].
    apply Forall_map. exact Hall.
Qed.

(** A row of the search with format [EventID,MagnitudeType]. *)
Lemma output_line_fields_witness :
  Strings.Split
    (Main.output_line (Strings.Split "EventID,MagnitudeType" ",")
       (Wfs.event_row (fmt := Examples.test_Fmt) "2014p072856" Examples.gap_feature)) ","
  = ["2014p072856"; "M"].
Proof.
  destruct (output_line_fields "EventID,MagnitudeType"
              (Wfs.event_row (fmt := Examples.test_Fmt) "2014p072856" Examples.gap_feature))
    as [_ Hfields].
  rewrite Hfields; [reflexivity |].
  change (Strings.Split "EventID,MagnitudeType" ",") with ["EventID"; "MagnitudeType"].
  constructor; [vm_compute; intuition discriminate |].
  constructor; [vm_compute; intuition discriminate |]. constructor.
Defined.

(** ** The requests of an identifier query *)

Lemma url_identifier {fmt : Fmt} (q : Wfs.Query) :
  Wfs.EventID q <> "" -> Wfs.url q = Spec.identifier_request (Wfs.EventID q).
Proof.
  intros Hid. unfold Wfs.url, Spec.identifier_request.
  destruct (decide (Wfs.EventID q <> "")) as [_ | Hn]; [| now destruct Hn].
  now rewrite ?string_app_assoc.
Qed.

(** A query with an event id goes through the chunker like any other:
    when the year of its end is [Y] years after the year of its start,
    [writeUrls] offers the request for the identifier [Y + 1] times
    over, and once when the years are the same. *)
Theorem identifier_query_requests {fmt : Fmt} (q : Wfs.Query) :
  Wfs.EventID q <> "" ->
  Wfs.writeUrls q
  = repeat (Spec.identifier_request (Wfs.EventID q)) (S (Z.to_nat (Wfs.years q))).
Proof.
  intros Hid. unfold Wfs.writeUrls. rewrite chunks_expected.
  unfold Spec.expected_chunks. rewrite map_app, map_map. cbn [map].
  rewrite (url_identifier (Spec.last_chunk q _)) by exact Hid.
  cbn [Spec.last_chunk Spec.with_range Wfs.EventID].
  rewrite (map_ext _ (fun _ => Spec.identifier_request (Wfs.EventID q)))
    by (intros i; now apply (url_identifier (Spec.year_chunk q i))).
  generalize (Z.to_nat (Wfs.years q)). intros n.
  generalize 0%nat. induction n as [|n IH]; intros k; [reflexivity |].
  cbn [seq map app]. rewrite IH. reflexivity.
Qed.

(** The event id of the tests with a range over two year boundaries:
    the same request three times. *)
Lemma identifier_query_requests_witness :
  Wfs.writeUrls (fmt := Examples.test_Fmt) Examples.id_two_year_query
  = [Wfs.wfsUrl +:+ "&cql_filter=publicid=='2014p562279'";
     Wfs.wfsUrl +:+ "&cql_filter=publicid=='2014p562279'";
     Wfs.wfsUrl +:+ "&cql_filter=publicid=='2014p562279'"].
Proof.
  rewrite (identifier_query_requests (fmt := Examples.test_Fmt) Examples.id_two_year_query)
    by discriminate.
  reflexivity.
Defined.

(** ** Runs in which a request may never complete *)

Section StallFacts.

Context {T R A Out : Type}.
Variable numDownloaders : nat.
Variable hangs : T -> bool.
Variable work : T -> outcome (R * list string).
Variable consume : A -> R -> (A + Out) * list string.
Variable finish : A -> Out.

Local Abbreviation step := (step numDownloaders work consume finish).
Local Abbreviation run := (run numDownloaders work consume finish).
Local Abbreviation stall_step := (stall_step numDownloaders hangs work consume finish).
Local Abbreviation stall_run := (stall_run numDownloaders hangs work consume finish).

(** When every request completes, the runs of the pipeline are runs
    here, with no worker stuck. *)
Lemma run_stall_run s rs s' :
  (forall t, hangs t = false) ->
  run s rs s' -> stall_run (s, 0%nat) rs (s', 0%nat).
Proof.
  intros Hnone. induction 1 as [|s l s' rs s'' _ IH Hstep]; [constructor |].
  eapply stall_run_step; [exact IH |].
  destruct Hstep.
  - apply stall_work; [apply Hnone | lia | assumption].
  - apply stall_panic; [apply Hnone | lia | assumption].
  - now apply stall_merge.
  - now apply stall_abort.
  - apply stall_close.
Qed.

Lemma stall_step_inv targets s l s' :
  stall_inv hangs work consume finish targets s ->
  stall_step s l s' ->
  stall_inv hangs work consume finish targets s'.
Proof.
  intros Hinv Hstep. destruct Hstep; unfold stall_inv in *; cbn [fst snd] in *.
  - destruct Hinv as (taken & -> & ->). exists (taken ++ [t]). split.
    + now rewrite <- app_assoc.
    + rewrite filter_app, (filter_cons_False _ t []), filter_nil, app_nil_r by congruence.
      reflexivity.
  - destruct Hinv as (taken & -> & _). exists t. split; [| now split].
    apply elem_of_app. right. now left.
  - destruct Hinv as (taken & -> & ->). exists (taken ++ [t]). split.
    + now rewrite <- app_assoc.
    + rewrite filter_app, (filter_cons_True _ t []), filter_nil, length_app by assumption.
      cbn. lia.
  - exact Hinv.
  - right. eauto.
  - destruct Hinv as (taken & -> & Hk). left. split; [| eauto].
    rewrite app_nil_r. apply Forall_forall. intros t Ht.
    destruct (hangs t) eqn:Hhangs; [| reflexivity].
    assert (Hin : t ∈ filter (fun t => hangs t = true) taken) by now apply list_elem_of_filter.
    destruct (filter _ taken); [inversion Hin | discriminate Hk].
Qed.

Lemma stall_run_inv targets acc0 rs s :
  stall_run (start targets acc0, 0%nat) rs s ->
  stall_inv hangs work consume finish targets s.
Proof.
  remember (start targets acc0, 0%nat) as s0 eqn:Hs0.
  induction 1 as [|s0 l s' rs s'' _ IH Hstep]; subst.
  - exists []. split; reflexivity.
  - eapply stall_step_inv; [apply IH; reflexivity | exact Hstep].
Qed.

Lemma stall_run_cons s l s' rs s'' :
  stall_step s l s' -> stall_run s' rs s'' ->
  stall_run s (from_option (fun r => [r]) [] l ++ rs) s''.
Proof.
  intros Hstep. induction 1 as [|s0 l0 s1 rs1 s2 _ IH Hstep'].
  - rewrite app_nil_r. rewrite <- (app_nil_l (from_option _ _ _)).
    eapply stall_run_step; [constructor | exact Hstep].
  - rewrite app_assoc. eapply stall_run_step; [apply IH; exact Hstep | exact Hstep'].
Qed.

(** From a running state with no worker stuck, when the requests for
    the remaining targets complete and the worker does not panic on
    them, the function can return. *)
Lemma stall_running_returns n source held acc log :
  (0 < numDownloaders)%nat ->
  (weight (Running (Out := Out) source held acc log) <= n)%nat ->
  Forall (fun t => hangs t = false /\ work t <> Panics) source ->
  exists rs out log',
    stall_run (Running source held acc log, 0%nat) rs (Returned out log', 0%nat).
Proof.
  intros workers.
  assert (Hfree : (length (@nil R) + 0 < numDownloaders)%nat) by (cbn; lia).
  revert source held acc log.
  induction n as [|n IH]; intros source held acc log Hn Hsafe; [cbn in Hn; lia |].
  destruct held as [|r held].
  - destruct source as [|t source].
    + eexists [], _, _. rewrite <- (app_nil_r []).
      apply (stall_run_cons _ None _ [] _ (stall_close _ _ _ _ _ acc log)). constructor.
    + inversion Hsafe as [|? ? [Hhang Ht] Hrest]; subst.
      destruct (work t) as [[r lines]|] eqn:Hw; [| contradiction].
      destruct (IH source ([] ++ [r]) acc (log ++ lines)) as (rs & out & log' & Hrun);
        [cbn in *; lia | assumption |].
      exists rs, out, log'.
      apply (stall_run_cons _ None _ rs _
               (stall_work _ _ _ _ _ t source [] acc log 0 r lines Hhang Hfree Hw)).
      exact Hrun.
  - destruct (consume acc r) as [[acc' | out] lines] eqn:Hc.
    + destruct (IH source ([] ++ held) acc' (log ++ lines)) as (rs & out & log' & Hrun);
        [cbn in *; lia | assumption |].
      exists ([r] ++ rs), out, log'.
      apply (stall_run_cons _ (Some r) _ rs _
               (stall_merge _ _ _ _ _ source [] r held acc log 0 acc' lines Hc)).
      exact Hrun.
    + exists [r], out, (log ++ lines). rewrite <- (app_nil_r [r]).
      apply (stall_run_cons _ (Some r) _ [] _
               (stall_abort _ _ _ _ _ source [] r held acc log 0 out lines Hc)).
      constructor.
Qed.

(** What a run from the start can still do and what it has done. A
    crash is the panic of a worker on a target whose request
    completes. When the requests of all targets complete and the
    worker panics on none, the function can still return from every
    state the run reaches. While a request that never completes is
    among the targets, the function has not returned at the close of
    the channel. *)
Lemma stall_run_facts targets acc0 rs s k :
  (0 < numDownloaders)%nat ->
  stall_run (start targets acc0, 0%nat) rs (s, k) ->
  (s = Crashed -> exists t, t ∈ targets /\ hangs t = false /\ work t = Panics)
  /\ (forall out log, s = Returned out log ->
        (Forall (fun t => hangs t = false) targets /\ exists acc, out = finish acc)
        \/ (exists acc r lines, consume acc r = (inr out, lines)))
  /\ (Forall (fun t => hangs t = false /\ work t <> Panics) targets ->
      s <> Crashed
      /\ exists rs' out log k', stall_run (s, k) rs' (Returned out log, k')).
Proof.
  intros workers Hrun. pose proof (stall_run_inv _ _ _ _ Hrun) as Hinv.
  unfold stall_inv in Hinv. cbn [fst snd] in Hinv.
  split; [intros ->; exact Hinv |].
  split; [intros out log ->; exact Hinv |].
  intros Hsafe. destruct s as [source held acc log | out log |].
  - split; [discriminate |]. destruct Hinv as (taken & -> & ->).
    apply Forall_app in Hsafe. destruct Hsafe as [Htaken Hsafe].
    assert (Hnone : filter (fun t => hangs t = true) taken = []).
    { clear - Htaken. induction Htaken as [|t taken [Ht _] _ IH]; [reflexivity |].
      rewrite filter_cons_False by congruence. exact IH. }
    rewrite Hnone. cbn [length].
    destruct (stall_running_returns _ source held acc log workers (le_n _) Hsafe)
      as (rs' & out & log' & Hret).
    eauto.
  - split; [discriminate |]. eexists [], _, _, _. constructor.
  - destruct Hinv as (t & Ht & _ & Hpanic).
    rewrite Forall_forall in Hsafe. now destruct (Hsafe t Ht).
Qed.

End StallFacts.

(** [Get] when a request may never complete, in both XML clients. A
    crash is the panic of a worker on an event id whose request
    completes. [Get] returns only when the request of every event id
    completes. When every request completes and the worker panics on
    none of the event ids, no run of [Get] crashes, and from every
    state a run reaches [Get] can still return. *)
Theorem Get_returns_unless_panic_or_stall
    {qml : Quakeml12.Xml} {sc3 : Seiscompml07.Xml} {client : Http.Client}
    {stalls : Http.Stalls} (eventid : list string) :
  (forall rs s k,
     Quakeml12.Get_stall_run (Quakeml12.Get_start eventid, 0%nat) rs (s, k) ->
     (s = Crashed ->
      exists id, id ∈ eventid /\ Quakeml12.hangs id = false /\ Quakeml12.fetcher id = Panics)
     /\ (forall quakeml log, s = Returned quakeml log ->
           Forall (fun id => Quakeml12.hangs id = false) eventid)
     /\ (Forall (fun id => Quakeml12.hangs id = false /\ Quakeml12.fetcher id <> Panics)
                eventid ->
         s <> Crashed
         /\ exists rs' quakeml log k',
              Quakeml12.Get_stall_run (s, k) rs' (Returned quakeml log, k')))
  /\ (forall rs s k,
        Seiscompml07.Get_stall_run (Seiscompml07.Get_start eventid, 0%nat) rs (s, k) ->
        (s = Crashed ->
         exists id, id ∈ eventid /\ Seiscompml07.hangs id = false
                    /\ Seiscompml07.fetcher id = Panics)
        /\ (forall seiscompml log, s = Returned seiscompml log ->
              Forall (fun id => Seiscompml07.hangs id = false) eventid)
        /\ (Forall (fun id => Seiscompml07.hangs id = false
                              /\ Seiscompml07.fetcher id <> Panics) eventid ->
            s <> Crashed
            /\ exists rs' seiscompml log k',
                 Seiscompml07.Get_stall_run (s, k) rs' (Returned seiscompml log, k'))).
Proof.
  split; intros rs s k Hrun.
  - destruct (stall_run_facts Quakeml12.numDownloaders Quakeml12.hangs Quakeml12.fetcher
                Quakeml12.Get_consume Quakeml12.Get_finish eventid (∅, 0) rs s k)
      as (Hcrash & Hret & Hlive); [unfold Quakeml12.numDownloaders; lia | exact Hrun |].
    split; [exact Hcrash |]. split; [| exact Hlive].
    intros quakeml log ->.
    destruct (Hret _ _ eq_refl) as [[Hall _] | (acc & r & lines & Habort)]; [exact Hall |].
    destruct (quakeml_Get_consume_continues acc r) as (acc' & lines' & Hc). congruence.
  - destruct (stall_run_facts Seiscompml07.numDownloaders Seiscompml07.hangs
                Seiscompml07.fetcher Seiscompml07.Get_consume Seiscompml07.Get_finish
                eventid (∅, 0) rs s k)
      as (Hcrash & Hret & Hlive); [unfold Seiscompml07.numDownloaders; lia | exact Hrun |].
    split; [exact Hcrash |]. split; [| exact Hlive].
    intros seiscompml log ->.
    destruct (Hret _ _ eq_refl) as [[Hall _] | (acc & r & lines & Habort)]; [exact Hall |].
    destruct (seiscomp_Get_consume_continues acc r) as (acc' & lines' & Hc). congruence.
Qed.

(** Against the server that answers 404, on a network on which every
    request completes, [Get] on one event id can return; on a network
    on which no request completes, it never returns. *)
Lemma Get_returns_unless_panic_or_stall_witness :
  (exists rs quakeml log k,
     Quakeml12.Get_stall_run (xml := Examples.test_qml_Xml)
       (client := Examples.not_found_client) (stalls := Examples.no_stalls)
       (Quakeml12.Get_start ["2014p072856"], 0%nat) rs (Returned quakeml log, k))
  /\ (forall rs quakeml log k,
        ~ Quakeml12.Get_stall_run (xml := Examples.test_qml_Xml)
            (client := Examples.not_found_client) (stalls := Examples.all_stall)
            (Quakeml12.Get_start ["2014p072856"], 0%nat) rs (Returned quakeml log, k)).
Proof.
  split.
  - destruct (Get_returns_unless_panic_or_stall
                (qml := Examples.test_qml_Xml) (sc3 := Examples.test_sc3_Xml)
                (client := Examples.not_found_client) (stalls := Examples.no_stalls)
                ["2014p072856"]) as [Hqml _].
    destruct (Hqml [] _ _ (stall_run_nil _ _ _ _ _ _)) as (_ & _ & Hlive).
    apply Hlive. constructor; [| constructor]. split; [reflexivity | discriminate].
  - intros rs quakeml log k Hrun.
    destruct (Get_returns_unless_panic_or_stall
                (qml := Examples.test_qml_Xml) (sc3 := Examples.test_sc3_Xml)
                (client := Examples.not_found_client) (stalls := Examples.all_stall)
                ["2014p072856"]) as [Hqml _].
    destruct (Hqml _ _ _ Hrun) as (_ & Hret & _).
    specialize (Hret _ _ eq_refl). inversion Hret as [|? ? Hhang _]. discriminate Hhang.
Defined.

(** [search] when a request may never complete. The wfs worker does
    not panic, so no run of [search] crashes. What [search] returns is
    a collection and no error, and then the request of every chunk has
    completed and [Get] gives one row for each quake of the collection,
    or an error and no collection, which [Get] hands on. When the
    request of every chunk completes, [search] can still return from
    every state a run reaches. *)
Theorem search_returns_unless_stalled
    {fmt : Fmt} {json : Wfs.Json} {client : Http.Client} {stalls : Http.Stalls}
    (q : Wfs.Query) (rs : list Wfs.result)
    (s : state string Wfs.result (gmap string Wfs.Feature * Z)
               (option (gmap string Wfs.Feature) * option error))
    (k : nat) :
  Wfs.search_stall_run (Wfs.search_start q, 0%nat) rs (s, k) ->
  s <> Crashed
  /\ (forall out log, s = Returned out log ->
        (exists m quakes,
           out = (Some m, None)
           /\ Wfs.Get_of out = (Some quakes, None)
           /\ length quakes = size m
           /\ Forall (fun url => Http.never_completes url = false) (Wfs.writeUrls q))
        \/ (exists e, out = (None, Some e) /\ Wfs.Get_of out = (None, Some e)))
  /\ (Forall (fun url => Http.never_completes url = false) (Wfs.writeUrls q) ->
      exists rs' out log k', Wfs.search_stall_run (s, k) rs' (Returned out log, k')).
Proof.
  intros Hrun.
  destruct (stall_run_facts Wfs.numDownloaders Http.never_completes Wfs.fetcher
              Wfs.search_consume Wfs.search_finish (Wfs.writeUrls q) (∅, 0) rs s k)
    as (Hcrash & Hret & Hlive); [unfold Wfs.numDownloaders; lia | exact Hrun |].
  split; [| split].
  - intros ->. destruct (Hcrash eq_refl) as (url & _ & _ & Hpanic).
    destruct (wfs_fetcher_returns url) as (r & Hr). congruence.
  - intros out log ->.
    destruct (Hret _ _ eq_refl) as [[Hall (acc & ->)] | (acc & r & lines & Habort)].
    + left. eexists _, _. split; [reflexivity |]. split; [reflexivity |].
      split; [| exact Hall]. cbn. now rewrite length_map, length_map_to_list.
    + right. apply search_consume_abort in Habort. destruct Habort as (e & _ & ->).
      exists e. split; reflexivity.
  - intros Hall. apply Hlive. apply Forall_forall. intros url Hurl.
    rewrite Forall_forall in Hall. split; [now apply Hall |].
    intros Hpanic. destruct (wfs_fetcher_returns url) as (r & Hr). congruence.
Qed.

(** The run of the test query against the server that answers with
    one quake, on a network on which every request completes, has
    returned a collection, and [Get] one row; on a network on which no
    request completes, [search] returns no collection. *)
Lemma search_returns_unless_stalled_witness :
  (exists quakes,
     Wfs.Get_of (fmt := Examples.test_Fmt)
       (Some {["2014p549333" := Examples.test_feature]}, None) = (Some quakes, None)
     /\ length quakes = 1%nat)
  /\ (forall rs m log k,
        ~ Wfs.search_stall_run (json := Examples.feature_Json)
            (client := Examples.ok_client) (stalls := Examples.all_stall)
            (Wfs.search_start (fmt := Examples.test_Fmt) Examples.test_window_query, 0%nat) rs
            (Returned (Some m, None) log, k)).
Proof.
  split.
  - pose proof (run_stall_run Wfs.numDownloaders
                  (Http.never_completes (Stalls := Examples.no_stalls))
                  _ _ _ _ _ _ (fun _ => eq_refl) search_found_run) as Hrun.
    destruct (search_returns_unless_stalled (stalls := Examples.no_stalls) _ _ _ _ Hrun)
      as (_ & Hout & _).
    destruct (Hout _ _ eq_refl) as [(m & quakes & Hm & Hget & Hlen & _) | (e & He & _)];
      [| discriminate He].
    injection Hm as <-. exists quakes. split; [exact Hget |].
    rewrite Hlen. reflexivity.
  - intros rs m log k Hrun.
    destruct (search_returns_unless_stalled (stalls := Examples.all_stall) _ _ _ _ Hrun)
      as (_ & Hout & _).
    destruct (Hout _ _ eq_refl) as [(m' & quakes & _ & _ & _ & Hall) | (e & He & _)];
      [| discriminate He].
    unfold Wfs.writeUrls in Hall. rewrite chunks_single in Hall by (vm_compute; discriminate).
    inversion Hall as [|? ? Hhang _]. discriminate Hhang.
Defined.
